(** * The field state transition engine of honey-form

    A shallow embedding of [src/field.ts] (field reducers, validator
    dispatch, dependency resolver) and of the form-level operations of
    [src/hooks/use-honey-form.ts] that the properties below talk about
    ([addFormFieldErrors], [setFormErrors], [finishFieldAsyncValidation],
    [validateForm]).

    Conventions of the embedding.
    - A JS value is a [Value]; [undefined] and [null] are constructors.
    - A field collection (a JS object keyed by field name, iterated with
      [Object.keys] in insertion order) is an association list with unique
      keys; assigning to an existing key keeps its position.
    - The [__meta__] object of a field is created once by [createField] and is
      shared by every later copy of that field ([{...formField}] copies the
      reference).  Its mutable flag [isValidationScheduled] therefore lives in
      a store keyed by field name ([scheduled] of [World]), not in the
      immutable [Field] record.
    - A promise is represented by the way it settles ([Settled]); what the
      code chains on it ([then]/[catch]/[finally]) is queued in [pending] of
      [World] and run later by [runAsyncTask].
    - [trace] of [World] is ghost state: it records the user callbacks and
      dependency scans in the order the code performs them.  No definition
      reads it.
    - [formContext] and [parentField] are fixed for a form; callbacks are
      closed over them.
    - A user callback (a validator, a [dependsOn] function) is a function of
      its value argument and of [formValues]; the [formFields] object that
      the source hands to it as well is not an argument of the model.  A
      validator returns or returns a promise: one that throws before
      returning is not modelled. *)

From Stdlib Require Import ZArith Ascii String.
From stdpp Require Import gmap strings list.

Set Warnings "-register-all,-clear-no-such-hyp".
Local Open Scope string_scope.
Local Open Scope list_scope.

(** ** Values and errors *)

Inductive Value : Type :=
  | VUndefined
  | VNull
  | VBoolean (b : bool)
  | VNumber (z : Z)
  | VNaN
  | VString (s : string)
  | VArray (items : list Value)
  | VObject (entries : list (string * Value)).

(** [HoneyFormFieldErrorType] of [types/field.types.ts]. *)
Inductive ErrorType : Type :=
  | required_t | invalid_t | server_t | min_t | max_t | minMax_t.

(** [HoneyFormFieldErrorMessage = string | ReactElement]; an element is kept
    as an opaque identifier.  [MUndefined] is [undefined], which is outside
    the declared type but is what the code reads as the [message] of a
    rejection reason that has none. *)
Inductive Message : Type :=
  | MString (s : string)
  | MElement (id : nat)
  | MUndefined.

Record FieldError : Type := mkError {
  type : ErrorType;
  message : Message;
}.

(** [HoneyFormFieldValidationResult = boolean | message | HoneyFormFieldError[]];
    [Nullable<...>] is [option]. *)
Inductive ValidationResult : Type :=
  | RBoolean (b : bool)
  | RMessage (m : Message)
  | RErrors (l : list FieldError).

(** What a promise rejects with, as far as the code reads it: a value with a
    string [message] (an [Error]); [null] or [undefined], of which reading
    [message] throws a [TypeError]; or another value, which has no [message]
    (a string, a number, a plain object). *)
Inductive Reason : Type :=
  | ReasonError (errorMessage : string)
  | ReasonNullish
  | ReasonOther.

(** How the promise returned by a validator settles: it resolves to a result
    or rejects with a reason. *)
Inductive Settled : Type :=
  | Fulfilled (r : ValidationResult)
  | Rejected (reason : Reason).

Inductive ValidatorResponse : Type :=
  | Sync (r : ValidationResult)
  | Async (p : Settled).

(** What one call of a validator does: the names it passes to
    [scheduleValidation] while it runs, and what it returns. *)
Record ValidatorReply : Type := mkReply {
  schedules : list string;
  response : ValidatorResponse;
}.

Definition FormValues : Type := list (string * Value).

(** A user validator [(value, {formValues, scheduleValidation, ...})]. *)
Definition Validator : Type := Value -> FormValues -> ValidatorReply.

Inductive FieldType : Type :=
  | string_t | numeric_t | number_t | email_t
  | checkbox_t | radio_t | file_t
  | object_t
  | nestedForms_t.

(** [HoneyFormFieldDependsOn]: absent, one name, a list of names, or a
    function [(initiatorFieldName, value, {formValues, ...}) => boolean]. *)
Inductive DependsOn : Type :=
  | DependsOnNothing
  | DependsOnName (n : string)
  | DependsOnList (l : list string)
  | DependsOnFn (fn : string -> Value -> FormValues -> bool).

Module Config.
Record t : Type := mk {
  type : FieldType;
  required : bool;
  defaultValue : Value;
  dependsOn : DependsOn;
  errorMessages : option (ErrorType -> option Message);
  validator : option Validator;
  filter : option (Value -> Value);
  formatter : option (Value -> Value);
}.
End Config.

(** The attributes of [props] / [passiveProps] / [objectProps] that the
    reducers write.  Handlers, [ref], [name] and [type] never change after
    [createField] and are left out. *)
Record HtmlProps : Type := mkProps {
  html_value : option Value;
  html_checked : option Value;
  aria_invalid : option bool;
  aria_busy : option bool;
}.

Definition noProps : HtmlProps := mkProps None None None None.

(** A registered child form, as seen from the parent field: the values of its
    field collection, or [None] when its [formFieldsRef] is empty. *)
Record ChildForm : Type := mkChildForm {
  formId : string;
  childFormValues : option Value;
}.

Record Field : Type := mkField {
  config : Config.t;
  errors : list FieldError;
  defaultValue : Value;
  rawValue : Value;
  cleanValue : Value;
  value : Value;
  isValidating : bool;
  props : option HtmlProps;
  passiveProps : option HtmlProps;
  objectProps : option HtmlProps;
  (** [__meta__.childForms] and the [resultValue] captured by the
      [getChildFormsValues] closure. *)
  childForms : option (list ChildForm);
  initialValue : Value;
}.

Definition Fields : Type := list (string * Field).

(** ** JS helpers *)

(** [a ?? b] *)
Definition nullish (v : Value) : bool :=
  match v with VUndefined | VNull => true | _ => false end.

Definition orElse (v d : Value) : Value := if nullish v then d else v.

Definition isEmptyString (s : string) : bool :=
  match s with EmptyString => true | _ => false end.

(** Truthiness of a validation result: [false], [''] and [undefined] are
    falsy, arrays and elements are truthy. *)
Definition truthy (r : ValidationResult) : bool :=
  match r with
  | RBoolean b => b
  | RMessage (MString s) => negb (isEmptyString s)
  | RMessage (MElement _) => true
  | RMessage MUndefined => false
  | RErrors _ => true
  end.

(** [(e as Error).message]; [None] when the read throws. *)
Definition reasonMessage (reason : Reason) : option Message :=
  match reason with
  | ReasonError errorMessage => Some (MString errorMessage)
  | ReasonNullish => None
  | ReasonOther => Some MUndefined
  end.

(** White space of [String.prototype.trimStart] among the code units below
    256: TAB, LF, VT, FF, CR, SP and NBSP.  A string of the model is a
    sequence of such code units. *)
Definition isWhiteSpace (c : ascii) : bool :=
  let n := nat_of_ascii c in
  (Nat.eqb n 9 || Nat.eqb n 10 || Nat.eqb n 11 || Nat.eqb n 12 || Nat.eqb n 13
   || Nat.eqb n 32 || Nat.eqb n 160)%bool.

Fixpoint trimStart (s : string) : string :=
  match s with
  | EmptyString => EmptyString
  | String c rest => if isWhiteSpace c then trimStart rest else s
  end.

(** [value.replace(/,/g, '')] *)
Fixpoint removeCommas (s : string) : string :=
  match s with
  | EmptyString => EmptyString
  | String c rest =>
      if Ascii.eqb c "," then removeCommas rest else String c (removeCommas rest)
  end.

(** ** Field collections *)

Fixpoint lookupField (formFields : Fields) (fieldName : string) : option Field :=
  match formFields with
  | [] => None
  | (n, f) :: rest => if String.eqb n fieldName then Some f else lookupField rest fieldName
  end.

(** [formFields[fieldName] = formField]: in place for an existing key, appended
    for a new one. *)
Fixpoint setField (formFields : Fields) (fieldName : string) (formField : Field) : Fields :=
  match formFields with
  | [] => [(fieldName, formField)]
  | (n, f) :: rest =>
      if String.eqb n fieldName then (n, formField) :: rest
      else (n, f) :: setField rest fieldName formField
  end.

(** [Object.keys(formFields)] *)
Definition keys (formFields : Fields) : list string := map fst formFields.

(** ** Field categories

    Modelled from the spec: [helpers.ts] is absent; the four predicates follow
    the category of each type as declared in [types/field.types.ts]
    ([HoneyFormInteractiveFieldType], [HoneyFormPassiveFieldType],
    [HoneyFormObjectFieldType], [HoneyFormNestedFormsFieldType]). *)
Definition checkIfHoneyFormFieldIsInteractive (c : Config.t) : bool :=
  match Config.type c with
  | string_t | numeric_t | number_t | email_t => true
  | _ => false
  end.

Definition checkIfFieldIsPassive (c : Config.t) : bool :=
  match Config.type c with
  | checkbox_t | radio_t | file_t => true
  | _ => false
  end.

Definition checkIfFieldIsObject (c : Config.t) : bool :=
  match Config.type c with object_t => true | _ => false end.

Definition checkIfFieldIsNestedForms (c : Config.t) : bool :=
  match Config.type c with nestedForms_t => true | _ => false end.

Definition isCheckbox (c : Config.t) : bool :=
  match Config.type c with checkbox_t => true | _ => false end.

(** ** Field state reducers *)

(** [{...p, 'aria-invalid': b}] where [p] may be [undefined]. *)
Definition withAriaInvalid (p : option HtmlProps) (b : bool) : HtmlProps :=
  let p := default noProps p in
  mkProps (html_value p) (html_checked p) (Some b) (aria_busy p).

Definition withAriaBusy (p : option HtmlProps) (b : bool) : HtmlProps :=
  let p := default noProps p in
  mkProps (html_value p) (html_checked p) (aria_invalid p) (Some b).

Definition withValue (p : option HtmlProps) (v : Value) : HtmlProps :=
  let p := default noProps p in
  mkProps (Some v) (html_checked p) (aria_invalid p) (aria_busy p).

Definition withChecked (p : option HtmlProps) (v : Value) : HtmlProps :=
  let p := default noProps p in
  mkProps (html_value p) (Some v) (aria_invalid p) (aria_busy p).

Definition getNextErrorsFreeField (formField : Field) : Field :=
  let isFieldInteractive := checkIfHoneyFormFieldIsInteractive (config formField) in
  let isFieldPassive := checkIfFieldIsPassive (config formField) in
  let isFieldObject := checkIfFieldIsObject (config formField) in
  {| config := config formField;
     errors := [];
     defaultValue := defaultValue formField;
     rawValue := rawValue formField;
     cleanValue := VUndefined;
     value := value formField;
     isValidating := isValidating formField;
     props :=
       if isFieldInteractive then Some (withAriaInvalid (props formField) false) else None;
     passiveProps :=
       if isFieldPassive then Some (withAriaInvalid (passiveProps formField) false) else None;
     objectProps :=
       if isFieldObject then Some (withAriaInvalid (objectProps formField) false) else None;
     childForms := childForms formField;
     initialValue := initialValue formField |}.

Definition getNextErredField (formField : Field) (fieldErrors : list FieldError) : Field :=
  let isFieldInteractive := checkIfHoneyFormFieldIsInteractive (config formField) in
  let isFieldPassive := checkIfFieldIsPassive (config formField) in
  let isFieldObject := checkIfFieldIsObject (config formField) in
  let isFieldErred := negb (Nat.eqb (length fieldErrors) 0) in
  {| config := config formField;
     errors := fieldErrors;
     defaultValue := defaultValue formField;
     rawValue := rawValue formField;
     cleanValue :=
       if negb (Nat.eqb (length fieldErrors) 0) then VUndefined else cleanValue formField;
     value := value formField;
     isValidating := isValidating formField;
     props :=
       if isFieldInteractive
       then Some (withAriaInvalid (props formField) isFieldErred) else None;
     passiveProps :=
       if isFieldPassive
       then Some (withAriaInvalid (passiveProps formField) isFieldErred) else None;
     objectProps :=
       if isFieldObject
       then Some (withAriaInvalid (objectProps formField) isFieldErred) else None;
     childForms := childForms formField;
     initialValue := initialValue formField |}.

Definition getNextResetField (formField : Field) (isResetToDefault : bool) : Field :=
  let isFieldInteractive := checkIfHoneyFormFieldIsInteractive (config formField) in
  let isFieldPassive := checkIfFieldIsPassive (config formField) in
  let isFieldObject := checkIfFieldIsObject (config formField) in
  let errorsFreeField := getNextErrorsFreeField formField in
  let newFieldValue :=
    if isResetToDefault then defaultValue errorsFreeField else VUndefined in
  {| config := config errorsFreeField;
     errors := errors errorsFreeField;
     defaultValue := defaultValue errorsFreeField;
     rawValue := newFieldValue;
     cleanValue := newFieldValue;
     value := newFieldValue;
     isValidating := isValidating errorsFreeField;
     props :=
       if isFieldInteractive
       then Some (withValue (props errorsFreeField) (orElse newFieldValue (VString "")))
       else None;
     passiveProps :=
       if isFieldPassive
       then Some (if isCheckbox (config formField)
                  then withChecked (passiveProps errorsFreeField) (defaultValue errorsFreeField)
                  else default noProps (passiveProps errorsFreeField))
       else None;
     objectProps :=
       if isFieldObject
       then Some (withValue (objectProps errorsFreeField) newFieldValue) else None;
     childForms := childForms errorsFreeField;
     initialValue := initialValue errorsFreeField |}.

Definition getNextAsyncValidatingField (formField : Field) : Field :=
  {| config := config formField;
     errors := errors formField;
     defaultValue := defaultValue formField;
     rawValue := rawValue formField;
     cleanValue := cleanValue formField;
     value := value formField;
     isValidating := true;
     props := Some (withAriaBusy (props formField) true);
     passiveProps := passiveProps formField;
     objectProps := objectProps formField;
     childForms := childForms formField;
     initialValue := initialValue formField |}.

Definition getNextAsyncValidatedField (formField : Field) : Field :=
  {| config := config formField;
     errors := errors formField;
     defaultValue := defaultValue formField;
     rawValue := rawValue formField;
     cleanValue := cleanValue formField;
     value := value formField;
     isValidating := false;
     props := Some (withAriaBusy (props formField) false);
     passiveProps := passiveProps formField;
     objectProps := objectProps formField;
     childForms := childForms formField;
     initialValue := initialValue formField |}.

Definition getNextSingleFieldState (formField : Field) (fieldValue : Value)
    (isFormat : bool) : Field :=
  let isFieldInteractive := checkIfHoneyFormFieldIsInteractive (config formField) in
  let isFieldPassive := checkIfFieldIsPassive (config formField) in
  let isFieldObject := checkIfFieldIsObject (config formField) in
  let formattedValue :=
    match Config.formatter (config formField) with
    | Some formatter =>
        if (isFieldInteractive && isFormat)%bool then formatter fieldValue else fieldValue
    | None => fieldValue
    end in
  {| config := config formField;
     errors := errors formField;
     defaultValue := defaultValue formField;
     rawValue := fieldValue;
     cleanValue := cleanValue formField;
     value := formattedValue;
     isValidating := isValidating formField;
     props :=
       if isFieldInteractive then Some (withValue (props formField) formattedValue) else None;
     passiveProps :=
       if isFieldPassive
       then Some (if isCheckbox (config formField)
                  then withChecked (passiveProps formField) fieldValue
                  else default noProps (passiveProps formField))
       else None;
     objectProps :=
       if isFieldObject then Some (withValue (objectProps formField) fieldValue) else None;
     childForms := childForms formField;
     initialValue := initialValue formField |}.

(** ** Validation results *)

(** [errorMessages?.invalid], with [None] for a nullish one. *)
Definition invalidMessage (c : Config.t) : option Message :=
  match Config.errorMessages c with
  | Some messages =>
      match messages invalid_t with
      | Some MUndefined => None
      | configured => configured
      end
  | None => None
  end.

(** The function pushes onto the array it is given; the model returns the
    array after the call. *)
Definition handleFieldValidationResult (fieldErrors : list FieldError)
    (fieldConfig : Config.t) (validationResult : option ValidationResult)
    : list FieldError :=
  match validationResult with
  | Some r =>
      if truthy r then
        match r with
        | RErrors l => fieldErrors ++ l
        | RMessage m => fieldErrors ++ [mkError invalid_t m]
        | RBoolean _ => fieldErrors
        end
      else
        match r with
        | RBoolean false =>
            fieldErrors
              ++ [mkError invalid_t
                    (default (MString "Invalid value") (invalidMessage fieldConfig))]
        | _ => fieldErrors
        end
  | None => fieldErrors
  end.

Definition withCleanValue (formField : Field) (v : Value) : Field :=
  {| config := config formField;
     errors := errors formField;
     defaultValue := defaultValue formField;
     rawValue := rawValue formField;
     cleanValue := v;
     value := value formField;
     isValidating := isValidating formField;
     props := props formField;
     passiveProps := passiveProps formField;
     objectProps := objectProps formField;
     childForms := childForms formField;
     initialValue := initialValue formField |}.

Definition getNextValidatedField (fieldErrors : list FieldError)
    (validationResult : option ValidationResult) (formField : Field)
    (cleanValue : Value) : Field :=
  let fieldErrors := handleFieldValidationResult fieldErrors (config formField) validationResult in
  if negb (Nat.eqb (length fieldErrors) 0) then getNextErredField formField fieldErrors
  else withCleanValue (getNextErrorsFreeField formField) cleanValue.

(** ** The mutable world around the immutable field collection *)

Inductive Event : Type :=
  | TypeValidatorCalled (fieldName : string) (fieldValue : Value)
  | CustomValidatorCalled (fieldName : string) (fieldValue : Value)
  | DependentsScanned (fieldName initiatorFieldName : string).

(** What [executeFieldValidator] chains on the promise of a custom validator:
    [handleFieldAsyncValidationResult(formField, promise).catch(noop)
     .finally(() => finishFieldAsyncValidation?.(fieldName))]. *)
Record AsyncTask : Type := mkTask {
  task_fieldName : string;
  task_field : Field;
  task_promise : Settled;
  task_finish : bool;
}.

Record World : Type := mkWorld {
  scheduled : gset string;
  pending : list AsyncTask;
  trace : list Event;
}.

Definition emptyWorld : World := mkWorld ∅ [] [].

(** A call returns, throws (a [TypeError] on a missing field or on the
    [message] of a nullish rejection reason, or the [emptyFormFieldsRef]
    error), or runs out of the fuel that bounds the recursion of
    [resetDependentFields].  The source puts no bound on that recursion:
    [OutOfFuel] for every fuel means a recursion without end, which an
    engine cuts short by a [RangeError] of its call stack. *)
Inductive Res (A : Type) : Type :=
  | Ok (a : A)
  | Throw
  | OutOfFuel.
Arguments Ok {A} a.
Arguments Throw {A}.
Arguments OutOfFuel {A}.

Definition M (A : Type) : Type := World -> Res (A * World).

#[global] Instance M_ret : MRet M := fun A a w => Ok (a, w).

#[global] Instance M_bind : MBind M := fun A B k m w =>
  match m w with
  | Ok (a, w') => k a w'
  | Throw => Throw
  | OutOfFuel => OutOfFuel
  end.

Definition throw {A : Type} : M A := fun _ => Throw.

Definition outOfFuel {A : Type} : M A := fun _ => OutOfFuel.

Definition tell (e : Event) : M unit := fun w =>
  Ok (tt, mkWorld (scheduled w) (pending w) (trace w ++ [e])).

Definition defer (t : AsyncTask) : M unit := fun w =>
  Ok (tt, mkWorld (scheduled w) (pending w ++ [t]) (trace w)).

(** Modelled from the spec: [scheduleFieldValidation] of the absent
    [helpers.ts] marks the field for re-validation, that is, sets
    [__meta__.isValidationScheduled] of the field of that name. *)
Definition scheduleFieldValidation (fieldName : string) : M unit := fun w =>
  Ok (tt, mkWorld ({[fieldName]} ∪ scheduled w) (pending w) (trace w)).

(** [formField.__meta__.isValidationScheduled] *)
Definition isValidationScheduled (fieldName : string) : M bool := fun w =>
  Ok (bool_decide (fieldName ∈ scheduled w), w).

(** [formField.__meta__.isValidationScheduled = false] *)
Definition clearValidationScheduled (fieldName : string) : M unit := fun w =>
  Ok (tt, mkWorld (scheduled w ∖ {[fieldName]}) (pending w) (trace w)).

Fixpoint scheduleAll (names : list string) : M unit :=
  match names with
  | [] => mret tt
  | n :: rest => scheduleFieldValidation n ≫= fun _ => scheduleAll rest
  end.

(** [formFields[fieldName]] followed by a property access. *)
Definition getField (formFields : Fields) (fieldName : string) : M Field :=
  match lookupField formFields fieldName with
  | Some formField => mret formField
  | None => throw
  end.

(** Modelled from the spec: [forEachFormField] of the absent [helpers.ts]
    calls the callback once per key of [Object.keys(formFields)], in order.
    The callback assigns into the collection it iterates; the keys were taken
    before the first call. *)
Fixpoint forEachKey (names : list string) (callback : string -> Fields -> M Fields)
    (formFields : Fields) : M Fields :=
  match names with
  | [] => mret formFields
  | n :: rest => callback n formFields ≫= forEachKey rest callback
  end.

Definition forEachFormField (formFields : Fields)
    (callback : string -> Fields -> M Fields) : M Fields :=
  forEachKey (keys formFields) callback formFields.

(** ** What the engine imports from files that are not part of the sources

    [validators.ts], [helpers.ts] and the JS built-in [Number] are taken as
    parameters.  A type validator and a custom validator share the shape of
    their reply; a built-in validator receives the shared error array and
    leaves it changed. *)
Record Env : Type := mkEnv {
  INTERACTIVE_FIELD_TYPE_VALIDATORS_MAP :
    FieldType -> Value -> FormValues -> Config.t -> ValidatorReply;
  PASSIVE_FIELD_TYPE_VALIDATORS_MAP :
    FieldType -> Value -> FormValues -> Config.t -> ValidatorReply;
  BUILT_IN_FIELD_VALIDATORS :
    list (Value -> Config.t -> FormValues -> list FieldError -> list FieldError);
  BUILT_IN_INTERACTIVE_FIELD_VALIDATORS :
    list (Value -> Config.t -> list FieldError -> list FieldError);
  getFormValues : Fields -> FormValues;
  checkIsSkipField : string -> FormValues -> Fields -> bool;
  runChildFormsValidation : Field -> bool;
  Number : string -> Value;
}.

(** ** Validator dispatch *)

Section Engine.
Context (E : Env).

Definition sanitizeFieldValue (fieldType : FieldType) (fieldValue : Value) : Value :=
  match fieldType with
  | number_t =>
      match fieldValue with
      | VString s =>
          if negb (isEmptyString s) then Number E (removeCommas s) else VUndefined
      | VNumber _ | VNaN => fieldValue
      | _ => VUndefined
      end
  | _ => fieldValue
  end.

Definition executeFieldTypeValidator (formFields : Fields) (fieldName : string)
    (formField : Field) (fieldValue : Value) : M (option ValidationResult) :=
  let c := config formField in
  if (checkIfFieldIsObject c || checkIfFieldIsNestedForms c)%bool then mret None
  else
    let formValues := getFormValues E formFields in
    let run (reply : ValidatorReply) : M (option ValidationResult) :=
      _ ← tell (TypeValidatorCalled fieldName fieldValue);
      _ ← scheduleAll (schedules reply);
      match response reply with
      | Sync r => mret (Some r)
      | Async _ => mret None
      end in
    if checkIfHoneyFormFieldIsInteractive c then
      run (INTERACTIVE_FIELD_TYPE_VALIDATORS_MAP E (Config.type c) fieldValue formValues c)
    else if checkIfFieldIsPassive c then
      run (PASSIVE_FIELD_TYPE_VALIDATORS_MAP E (Config.type c) fieldValue formValues c)
    else mret None.

Definition executeInternalFieldValidators (fieldValue : Value) (fieldConfig : Config.t)
    (fieldErrors : list FieldError) (formValues : FormValues) : list FieldError :=
  let fieldErrors :=
    fold_left (fun errs validator => validator fieldValue fieldConfig formValues errs)
      (BUILT_IN_FIELD_VALIDATORS E) fieldErrors in
  if checkIfHoneyFormFieldIsInteractive fieldConfig then
    fold_left (fun errs validator => validator fieldValue fieldConfig errs)
      (BUILT_IN_INTERACTIVE_FIELD_VALIDATORS E) fieldErrors
  else fieldErrors.

(** [formField.config.validator(sanitizedValue, {..., scheduleValidation})] *)
Definition callValidator (fieldName : string) (validator : Validator)
    (fieldValue : Value) (formValues : FormValues) : M ValidatorResponse :=
  let reply := validator fieldValue formValues in
  _ ← tell (CustomValidatorCalled fieldName fieldValue);
  _ ← scheduleAll (schedules reply);
  mret (response reply).

(** [validationResult === null || validationResult === true] *)
Definition isNullOrTrue (validationResult : option ValidationResult) : bool :=
  match validationResult with
  | None => true
  | Some (RBoolean true) => true
  | _ => false
  end.

(** [finishFieldAsyncValidation] is an optional argument of the source; the
    boolean tells whether the caller passes the form's callback. *)
Definition executeFieldValidator (formFields : Fields) (fieldName : string)
    (fieldValue : Value) (finishFieldAsyncValidation : bool) : M Field :=
  formField ← getField formFields fieldName;
  let fieldErrors : list FieldError := [] in
  let sanitizedValue := sanitizeFieldValue (Config.type (config formField)) fieldValue in
  validationResult ← executeFieldTypeValidator formFields fieldName formField sanitizedValue;
  if isNullOrTrue validationResult then
    let formValues := getFormValues E formFields in
    let fieldErrors :=
      executeInternalFieldValidators sanitizedValue (config formField) fieldErrors formValues in
    match Config.validator (config formField) with
    | Some validator =>
        validationResponse ← callValidator fieldName validator sanitizedValue formValues;
        match validationResponse with
        | Async promise =>
            let formField := getNextAsyncValidatingField formField in
            _ ← defer (mkTask fieldName formField promise finishFieldAsyncValidation);
            mret (getNextValidatedField fieldErrors validationResult formField sanitizedValue)
        | Sync r =>
            mret (getNextValidatedField fieldErrors (Some r) formField sanitizedValue)
        end
    | None =>
        mret (getNextValidatedField fieldErrors validationResult formField sanitizedValue)
    end
  else mret (getNextValidatedField fieldErrors validationResult formField sanitizedValue).

Fixpoint childFormsValues (l : list ChildForm) : M (list Value) :=
  match l with
  | [] => mret []
  | c :: rest =>
      match childFormValues c with
      | Some v => vs ← childFormsValues rest; mret (v :: vs)
      | None => throw
      end
  end.

(** [childForms?.map(...) ?? resultValue] *)
Definition getChildFormsValues (formField : Field) : M Value :=
  match childForms formField with
  | Some l => vs ← childFormsValues l; mret (VArray vs)
  | None => mret (initialValue formField)
  end.

Definition trimStartValue (v : Value) : Value :=
  match v with
  | VString s => VString (trimStart s)
  | _ => v
  end.

(** The first statements of [executeFieldValidatorAsync], which compute
    [filteredValue]. *)
Definition asyncFilteredValue (formField : Field) : M Value :=
  if checkIfHoneyFormFieldIsInteractive (config formField) then
    let filteredValue := trimStartValue (rawValue formField) in
    match Config.filter (config formField) with
    | Some filter => mret (filter filteredValue)
    | None => mret (rawValue formField)
    end
  else if checkIfFieldIsNestedForms (config formField) then getChildFormsValues formField
  else mret (rawValue formField).

(** The awaited promise is replaced by the way it settles.  The [catch]
    block reads the [message] of the reason; a [TypeError] of that read
    leaves the function. *)
Definition executeFieldValidatorAsync (fieldName : string) (formFields : Fields) : M Field :=
  formField ← getField formFields fieldName;
  let fieldErrors : list FieldError := [] in
  filteredValue ← asyncFilteredValue formField;
  let sanitizedValue := sanitizeFieldValue (Config.type (config formField)) filteredValue in
  validationResult ← executeFieldTypeValidator formFields fieldName formField sanitizedValue;
  if isNullOrTrue validationResult then
    let formValues := getFormValues E formFields in
    let fieldErrors :=
      executeInternalFieldValidators sanitizedValue (config formField) fieldErrors formValues in
    match Config.validator (config formField) with
    | Some validator =>
        validationResponse ← callValidator fieldName validator sanitizedValue formValues;
        match validationResponse with
        | Async (Fulfilled r) =>
            mret (getNextValidatedField fieldErrors (Some r) formField sanitizedValue)
        | Async (Rejected reason) =>
            match reasonMessage reason with
            | Some errorMessage =>
                mret (getNextValidatedField fieldErrors
                        (Some (RMessage errorMessage)) formField sanitizedValue)
            | None => throw
            end
        | Sync r =>
            mret (getNextValidatedField fieldErrors (Some r) formField sanitizedValue)
        end
    | None =>
        mret (getNextValidatedField fieldErrors validationResult formField sanitizedValue)
    end
  else mret (getNextValidatedField fieldErrors validationResult formField sanitizedValue).

(** ** Dependency resolver *)

(** [initiatorFieldName || fieldName]: [null] and the empty name are falsy. *)
Definition orFieldName (initiatorFieldName : option string) (fieldName : string) : string :=
  match initiatorFieldName with
  | Some n => if isEmptyString n then fieldName else n
  | None => fieldName
  end.

(** The three branches that compute [isDependent]. *)
Definition isDependentField (formFields : Fields) (otherField : Field)
    (fieldName initiatorFieldName : string) : bool :=
  match Config.dependsOn (config otherField) with
  | DependsOnList l => existsb (String.eqb fieldName) l
  | DependsOnFn fn =>
      fn initiatorFieldName (cleanValue otherField) (getFormValues E formFields)
  | DependsOnName n => String.eqb fieldName n
  | DependsOnNothing => false
  end.

(** The callback that [resetDependentFields] hands to [forEachFormField];
    [recurse] is the recursive call. *)
Definition resetIfDependent (recurse : Fields -> string -> option string -> M Fields)
    (fieldName initiatorFieldName otherFieldName : string) (formFields : Fields) : M Fields :=
  if String.eqb otherFieldName fieldName then mret formFields
  else
    otherField ← getField formFields otherFieldName;
    if isDependentField formFields otherField fieldName initiatorFieldName then
      let formFields :=
        setField formFields otherFieldName (getNextResetField otherField false) in
      if negb (String.eqb otherFieldName initiatorFieldName) then
        recurse formFields otherFieldName (Some fieldName)
      else mret formFields
    else mret formFields.

(** [fuel] bounds the depth of the recursion, which the source does not. *)
Fixpoint resetDependentFields (fuel : nat) (formFields : Fields) (fieldName : string)
    (initiatorFieldName : option string) : M Fields :=
  match fuel with
  | O => outOfFuel
  | S fuel =>
      let initiatorFieldName := orFieldName initiatorFieldName fieldName in
      _ ← tell (DependentsScanned fieldName initiatorFieldName);
      forEachFormField formFields
        (resetIfDependent (resetDependentFields fuel) fieldName initiatorFieldName)
  end.

Definition resetAllFields (nextFormFields : Fields) : M Fields :=
  forEachFormField nextFormFields (fun fieldName nextFormFields =>
    formField ← getField nextFormFields fieldName;
    mret (setField nextFormFields fieldName (getNextResetField formField true))).

Definition processSkippableFields (nextFormFields : Fields) : M Fields :=
  let formValues := getFormValues E nextFormFields in
  forEachFormField nextFormFields (fun otherFieldName nextFormFields =>
    let isSkipField := checkIsSkipField E otherFieldName formValues nextFormFields in
    if isSkipField then
      otherField ← getField nextFormFields otherFieldName;
      mret (setField nextFormFields otherFieldName (getNextErrorsFreeField otherField))
    else mret nextFormFields).

(** The value handed to the validator by [triggerScheduledFieldsValidations]
    and by [validateField]. *)
Definition currentFilteredValue (formField : Field) : M Value :=
  match Config.filter (config formField) with
  | Some filter =>
      if checkIfHoneyFormFieldIsInteractive (config formField)
      then mret (filter (rawValue formField))
      else if checkIfFieldIsNestedForms (config formField) then getChildFormsValues formField
      else mret (rawValue formField)
  | None =>
      if checkIfFieldIsNestedForms (config formField) then getChildFormsValues formField
      else mret (rawValue formField)
  end.

(** The callback that [triggerScheduledFieldsValidations] hands to
    [forEachFormField]. *)
Definition validateIfScheduled (fieldName : string) (formValues : FormValues)
    (finishFieldAsyncValidation : bool) (otherFieldName : string)
    (nextFormFields : Fields) : M Fields :=
  if String.eqb otherFieldName fieldName then mret nextFormFields
  else
    nextFormField ← getField nextFormFields otherFieldName;
    isValidationScheduled otherFieldName ≫= fun isScheduled : bool =>
    if isScheduled then
      let isSkipField := checkIsSkipField E otherFieldName formValues nextFormFields in
      nextFormFields ←
        (if negb isSkipField then
           filteredValue ← currentFilteredValue nextFormField;
           validated ← executeFieldValidator nextFormFields otherFieldName filteredValue
                         finishFieldAsyncValidation;
           mret (setField nextFormFields otherFieldName validated)
         else mret nextFormFields);
      _ ← clearValidationScheduled otherFieldName;
      mret nextFormFields
    else mret nextFormFields.

Definition triggerScheduledFieldsValidations (fieldName : string) (nextFormFields : Fields)
    (finishFieldAsyncValidation : bool) : M Fields :=
  let formValues := getFormValues E nextFormFields in
  forEachFormField nextFormFields
    (validateIfScheduled fieldName formValues finishFieldAsyncValidation).

Definition getNextFieldsState (fuel : nat) (fieldName : string) (fieldValue : Value)
    (formFields : Fields) (isValidate isFormat finishFieldAsyncValidation : bool) : M Fields :=
  let nextFormFields := formFields in
  nextFormField ← getField nextFormFields fieldName;
  let filteredValue :=
    if checkIfHoneyFormFieldIsInteractive (config nextFormField) then
      let filteredValue := trimStartValue fieldValue in
      match Config.filter (config nextFormField) with
      | Some filter => filter filteredValue
      | None => filteredValue
      end
    else fieldValue in
  '(nextFormFields, nextFormField) ←
    (if isValidate then
       nextFormFields ← resetDependentFields fuel nextFormFields fieldName None;
       validated ← executeFieldValidator nextFormFields fieldName filteredValue
                     finishFieldAsyncValidation;
       mret (nextFormFields, validated)
     else mret (nextFormFields, getNextErrorsFreeField nextFormField));
  let nextFormFields :=
    setField nextFormFields fieldName
      (getNextSingleFieldState nextFormField filteredValue isFormat) in
  nextFormFields ← processSkippableFields nextFormFields;
  triggerScheduledFieldsValidations fieldName nextFormFields finishFieldAsyncValidation.

(** ** Field factory *)

Definition createField (fieldConfig : Config.t) : Field :=
  let isFieldInteractive := checkIfHoneyFormFieldIsInteractive fieldConfig in
  let filteredValue :=
    match Config.filter fieldConfig with
    | Some filter =>
        if isFieldInteractive then filter (Config.defaultValue fieldConfig)
        else Config.defaultValue fieldConfig
    | None => Config.defaultValue fieldConfig
    end in
  let resultValue :=
    match Config.formatter fieldConfig with
    | Some formatter => if isFieldInteractive then formatter filteredValue else filteredValue
    | None => filteredValue
    end in
  {| config := fieldConfig;
     errors := [];
     defaultValue := Config.defaultValue fieldConfig;
     rawValue := filteredValue;
     cleanValue := filteredValue;
     value := resultValue;
     isValidating := false;
     props :=
       if isFieldInteractive
       then Some (mkProps (Some (orElse resultValue (VString ""))) None (Some false) (Some false))
       else None;
     passiveProps :=
       if checkIfFieldIsPassive fieldConfig
       then Some (mkProps None
                    (if isCheckbox fieldConfig
                     then Some (orElse (Config.defaultValue fieldConfig) (VBoolean false))
                     else None)
                    (Some false) None)
       else None;
     objectProps :=
       if checkIfFieldIsObject fieldConfig
       then Some (mkProps (Some resultValue) None (Some false) None) else None;
     childForms := None;
     initialValue := resultValue |}.

(** ** Form orchestrator ([use-base-honey-form])

    Each operation is the function the hook passes to [setFormFields]: it
    maps the current collection to the next one. *)

Definition withErrors (formField : Field) (fieldErrors : list FieldError) : Field :=
  {| config := config formField;
     errors := fieldErrors;
     defaultValue := defaultValue formField;
     rawValue := rawValue formField;
     cleanValue := cleanValue formField;
     value := value formField;
     isValidating := isValidating formField;
     props := props formField;
     passiveProps := passiveProps formField;
     objectProps := objectProps formField;
     childForms := childForms formField;
     initialValue := initialValue formField |}.

(** [{...formFields, [fieldName]: {...formField, errors: [...errors, ...new]}}].
    The name has type [keyof Form]; for a name outside the collection the
    source stores an object that holds nothing but the errors, which [Field]
    cannot represent: the model leaves the collection as it is. *)
Definition addFormFieldErrors (fieldName : string) (fieldErrors : list FieldError)
    (formFields : Fields) : Fields :=
  match lookupField formFields fieldName with
  | Some formField =>
      setField formFields fieldName (withErrors formField (errors formField ++ fieldErrors))
  | None => formFields
  end.

Definition addFormFieldError (fieldName : string) (fieldError : FieldError)
    (formFields : Fields) : Fields :=
  addFormFieldErrors fieldName [fieldError] formFields.

Fixpoint setFormErrors (formErrors : list (string * list FieldError))
    (formFields : Fields) : M Fields :=
  match formErrors with
  | [] => mret formFields
  | (fieldName, fieldErrors) :: rest =>
      formField ← getField formFields fieldName;
      setFormErrors rest (setField formFields fieldName (getNextErredField formField fieldErrors))
  end.

Definition clearFieldErrors (fieldName : string) (formFields : Fields) : M Fields :=
  formField ← getField formFields fieldName;
  mret (setField formFields fieldName (getNextErrorsFreeField formField)).

Definition finishFieldAsyncValidation (fieldName : string) (formFields : Fields) : M Fields :=
  formField ← getField formFields fieldName;
  mret (setField formFields fieldName (getNextAsyncValidatedField formField)).

Definition validateField (fieldName : string) (formFields : Fields) : M Fields :=
  formField ← getField formFields fieldName;
  filteredValue ← currentFilteredValue formField;
  nextFormField ← executeFieldValidator formFields fieldName filteredValue false;
  mret (setField formFields fieldName nextFormField).

(** [isPushValue] spreads [formField.value]; only an array is spread here. *)
Definition setFieldValue (fuel : nat) (fieldName : string) (fieldValue : Value)
    (isValidate isFormat isPushValue : bool) (formFields : Fields) : M Fields :=
  formField ← getField formFields fieldName;
  let isFieldErred := negb (Nat.eqb (length (errors formField)) 0) in
  let isRevalidate := (isValidate || isFieldErred)%bool in
  newValue ←
    (if isPushValue then
       match value formField with
       | VArray items => mret (VArray (items ++ [fieldValue]))
       | _ => throw
       end
     else mret fieldValue);
  getNextFieldsState fuel fieldName newValue formFields isRevalidate isFormat true.

(** The [then]/[catch] handlers of [handleFieldAsyncValidationResult], as
    [executeFieldValidator] chains them: a [TypeError] thrown inside the
    [catch] handler (the read of [message] of a nullish reason, which [??]
    performs only when no [invalid] message is configured) is swallowed by
    the [.catch(noop)] that follows, and no error is added.  The source
    reaches [addFormFieldErrors] through [formField.addErrors], a closure
    over the field's own name, which is passed here. *)
Definition handleFieldAsyncValidationResult (fieldName : string) (formField : Field)
    (validationResponse : Settled) (formFields : Fields) : Fields :=
  match validationResponse with
  | Fulfilled r =>
      if truthy r then
        match r with
        | RErrors l => addFormFieldErrors fieldName l formFields
        | RMessage m => addFormFieldError fieldName (mkError invalid_t m) formFields
        | RBoolean _ => formFields
        end
      else
        match r with
        | RBoolean false =>
            addFormFieldError fieldName
              (mkError invalid_t
                 (default (MString "Invalid value") (invalidMessage (config formField))))
              formFields
        | _ => formFields
        end
  | Rejected reason =>
      match invalidMessage (config formField) with
      | Some configured =>
          addFormFieldError fieldName (mkError invalid_t configured) formFields
      | None =>
          match reasonMessage reason with
          | Some errorMessage =>
              addFormFieldError fieldName (mkError invalid_t errorMessage) formFields
          | None => formFields
          end
      end
  end.

(** A queued task runs when its promise has settled: the error handlers
    first, then the [finally] callback. *)
Definition runAsyncTask (t : AsyncTask) (formFields : Fields) : M Fields :=
  let formFields :=
    handleFieldAsyncValidationResult (task_fieldName t) (task_field t) (task_promise t)
      formFields in
  if task_finish t then finishFieldAsyncValidation (task_fieldName t) formFields
  else mret formFields.

Definition isServerError (e : FieldError) : bool :=
  match type e with server_t => true | _ => false end.

(** The condition under which a callback of [validateForm] goes on to
    validate its field instead of storing the errors-free field. *)
Definition isFieldValidated (targetFields excludeFields : option (list string))
    (formFields : Fields) (formValues : FormValues) (fieldName : string) : bool :=
  let isTargetFieldValidation :=
    match targetFields with
    | Some ((_ :: _) as l) => existsb (String.eqb fieldName) l
    | _ => true
    end in
  let isExcludeFieldFromValidation :=
    match excludeFields with
    | Some l => existsb (String.eqb fieldName) l
    | None => false
    end in
  negb (isExcludeFieldFromValidation || negb isTargetFieldValidation
        || checkIsSkipField E fieldName formValues formFields)%bool.

(** The part of a callback after its first [await]. *)
Fixpoint validateFields (formFields : Fields) (names : list string) (hasErrors : bool)
    (nextFormFields : Fields) : M (bool * Fields) :=
  match names with
  | [] => mret (hasErrors, nextFormFields)
  | fieldName :: rest =>
      formField ← getField formFields fieldName;
      let hasChildFormsErrors := runChildFormsValidation E formField in
      let hasErrors := if hasChildFormsErrors then true else hasErrors in
      nextField ← executeFieldValidatorAsync fieldName formFields;
      let hasErrors :=
        (hasErrors || existsb (fun fieldError => negb (isServerError fieldError))
                        (errors nextField))%bool in
      validateFields formFields rest hasErrors (setField nextFormFields fieldName nextField)
  end.

(** [Promise.all] over one async callback per key.  Every callback runs up to
    its first [await] before any of them continues, so the fields that are
    not validated are stored first; the callbacks then continue, here in key
    order.  Each of them reads the snapshot [formFields] only, so the order
    in which they finish changes the key order of the result and nothing
    else. *)
Definition validateForm (targetFields excludeFields : option (list string))
    (formFields : Fields) : M (bool * Fields) :=
  let formValues := getFormValues E formFields in
  let validated := isFieldValidated targetFields excludeFields formFields formValues in
  let nextFormFields :=
    fold_left
      (fun next fieldName =>
         if validated fieldName then next
         else
           match lookupField formFields fieldName with
           | Some formField => setField next fieldName (getNextErrorsFreeField formField)
           | None => next
           end)
      (keys formFields) [] in
  '(hasErrors, nextFormFields) ←
    validateFields formFields (List.filter validated (keys formFields)) false nextFormFields;
  mret (negb hasErrors, nextFormFields).

End Engine.

(** ** Notions used to state the properties *)

(** The events a call of a validation function appends after stage 1. *)
Definition customValidatorEvents (n : string) (c : Config.t) (sanitizedValue : Value)
    (validationResult : option ValidationResult) : list Event :=
  if isNullOrTrue validationResult then
    match Config.validator c with
    | Some _ => [CustomValidatorCalled n sanitizedValue]
    | None => []
    end
  else [].

(** What the [then]/[catch] handlers append for a settled promise. *)
Definition settledErrors (c : Config.t) (p : Settled) : list FieldError :=
  match p with
  | Fulfilled r => handleFieldValidationResult [] c (Some r)
  | Rejected reason =>
      match invalidMessage c with
      | Some configured => [mkError invalid_t configured]
      | None =>
          match reasonMessage reason with
          | Some errorMessage => [mkError invalid_t errorMessage]
          | None => []
          end
      end
  end.

(** What the type validator of the field's category returns for a value. *)
Definition typeValidationResult (E : Env) (formValues : FormValues) (c : Config.t)
    (fieldValue : Value) : option ValidationResult :=
  if (checkIfFieldIsObject c || checkIfFieldIsNestedForms c)%bool then None
  else
    let result (reply : ValidatorReply) :=
      match response reply with
      | Sync r => Some r
      | Async _ => None
      end in
    if checkIfHoneyFormFieldIsInteractive c then
      result (INTERACTIVE_FIELD_TYPE_VALIDATORS_MAP E (Config.type c) fieldValue formValues c)
    else if checkIfFieldIsPassive c then
      result (PASSIVE_FIELD_TYPE_VALIDATORS_MAP E (Config.type c) fieldValue formValues c)
    else None.

(** The errors that an awaited validation gives to a field, as a function of
    the form values, of the field's configuration and of the value it
    validates: the errors that the field held before are not among the
    arguments.  [None] when a rejection with [null] or [undefined] makes the
    validation throw. *)
Definition awaitedErrors (E : Env) (formValues : FormValues) (c : Config.t)
    (filteredValue : Value) : option (list FieldError) :=
  let sanitizedValue := sanitizeFieldValue E (Config.type c) filteredValue in
  let validationResult := typeValidationResult E formValues c sanitizedValue in
  if isNullOrTrue validationResult then
    let fieldErrors := executeInternalFieldValidators E sanitizedValue c [] formValues in
    match Config.validator c with
    | Some validator =>
        match response (validator sanitizedValue formValues) with
        | Sync r | Async (Fulfilled r) =>
            Some (handleFieldValidationResult fieldErrors c (Some r))
        | Async (Rejected reason) =>
            match reasonMessage reason with
            | Some errorMessage =>
                Some (handleFieldValidationResult fieldErrors c
                        (Some (RMessage errorMessage)))
            | None => None
            end
        end
    | None => Some (handleFieldValidationResult fieldErrors c validationResult)
    end
  else Some (handleFieldValidationResult [] c validationResult).

(** No custom validator of the form returns a promise that rejects with
    [null] or [undefined]. *)
Definition rejectsWithReason (formFields : Fields) : Prop :=
  forall n f validator v formValues,
    lookupField formFields n = Some f ->
    Config.validator (config f) = Some validator ->
    response (validator v formValues) <> Async (Rejected ReasonNullish).

(** [f'] is [f], or [f] as the dependency resolver clears it. *)
Definition sameOrCleared (f f' : Field) : Prop :=
  f' = f \/ f' = getNextResetField f false.

(** The second collection has the keys of the first, and each of its fields
    is the field of the first, possibly cleared. *)
Definition clearsSomeOf (formFields formFields' : Fields) : Prop :=
  keys formFields' = keys formFields
  /\ forall n f, lookupField formFields n = Some f ->
       exists f', lookupField formFields' n = Some f' /\ sameOrCleared f f'.

(** A declaration that makes its field a dependent in every scan with this
    trigger and this initiator, whatever the state of the form: the trigger
    is the declared name, or is in the declared list, or the declared
    function accepts the initiator. *)
Definition declaresDependency (c : Config.t) (fieldName initiatorFieldName : string) : Prop :=
  match Config.dependsOn c with
  | DependsOnName n => n = fieldName
  | DependsOnList l => In fieldName l
  | DependsOnFn fn => forall v formValues, fn initiatorFieldName v formValues = true
  | DependsOnNothing => False
  end.

(** A declaration that can make its field a dependent in some scan with this
    trigger and this initiator. *)
Definition mayDepend (c : Config.t) (fieldName initiatorFieldName : string) : Prop :=
  match Config.dependsOn c with
  | DependsOnName n => n = fieldName
  | DependsOnList l => In fieldName l
  | DependsOnFn fn => exists v formValues, fn initiatorFieldName v formValues = true
  | DependsOnNothing => False
  end.

(** A declaration by name, or by a list that holds the name. *)
Definition namesDependency (c : Config.t) (fieldName : string) : Prop :=
  match Config.dependsOn c with
  | DependsOnName n => n = fieldName
  | DependsOnList l => In fieldName l
  | DependsOnFn _ => False
  | DependsOnNothing => False
  end.

(** [DependsByName formFields x d]: [d] depends on [x] through a chain of
    declarations by name or by list, in which no field names itself. *)
Inductive DependsByName (formFields : Fields) (x : string) : string -> Prop :=
  | depends_direct (d : string) (f : Field) :
      d <> x ->
      lookupField formFields d = Some f ->
      namesDependency (config f) x ->
      DependsByName formFields x d
  | depends_next (y d : string) (f : Field) :
      DependsByName formFields x y ->
      d <> y ->
      lookupField formFields d = Some f ->
      namesDependency (config f) y ->
      DependsByName formFields x d.

(** The pass has changed the field of that name. *)
Definition changedBy (formFields formFields' : Fields) (x : string) : Prop :=
  exists f f',
    lookupField formFields x = Some f /\ lookupField formFields' x = Some f' /\ f' <> f.

(** A scan whose loop stops after the keys [names]: with the keys before
    the one of a field, it gives the collection and the world that the scan
    has made by the time it comes to this field. *)
Definition scanUpTo (E : Env) (fuel : nat) (formFields : Fields) (fieldName : string)
    (initiatorFieldName : option string) (names : list string) : M Fields :=
  match fuel with
  | O => outOfFuel
  | S fuel =>
      let initiatorFieldName := orFieldName initiatorFieldName fieldName in
      _ ← tell (DependentsScanned fieldName initiatorFieldName);
      forEachKey names
        (resetIfDependent E (resetDependentFields E fuel) fieldName initiatorFieldName)
        formFields
  end.

(** Between the two worlds a scan with trigger [x] has been logged. *)
Definition scanned (w w' : World) (x : string) : Prop :=
  exists i evs, trace w' = trace w ++ evs /\ In (DependentsScanned x i) evs.

(** A dependency configuration is acyclic when some rank decreases from
    every field to each field that can depend on it: one that names or lists
    it, or whose predicate accepts it for some value and some form values.
    A field that can depend on itself makes a cycle of length one. *)
Definition acyclicBy (rank : string -> nat) (formFields : Fields) : Prop :=
  forall x d f,
    In x (keys formFields) ->
    lookupField formFields d = Some f ->
    mayDepend (config f) x x ->
    rank d < rank x.

(** What bounds the nesting of scans below a scan with this trigger and this
    initiator. *)
Definition scanMeasure (rank : string -> nat) (fieldName initiatorFieldName : string) : nat :=
  2 * Nat.max (rank fieldName) (rank initiatorFieldName)
  + (if Nat.leb (rank initiatorFieldName) (rank fieldName) then 1 else 0).

Definition isScan (e : Event) : Prop :=
  match e with DependentsScanned _ _ => True | _ => False end.

(** The second world differs from the first by scan events only: no flag
    was set, no task queued, no validator called. *)
Definition onlyScans (w w' : World) : Prop :=
  scheduled w' = scheduled w
  /\ pending w' = pending w
  /\ exists evs, trace w' = trace w ++ evs /\ Forall isScan evs.

(** The event is a scan whose trigger ranks below the bound. *)
Definition scansBelow (rank : string -> nat) (bound : nat) (e : Event) : Prop :=
  match e with
  | DependentsScanned t _ => rank t < bound
  | _ => False
  end.

(** Some call of a validator of the field (the type validator of its
    category, or its custom validator) passes [k] to [scheduleValidation]. *)
Definition maySchedule (E : Env) (formField : Field) (k : string) : Prop :=
  (exists t v formValues c,
     In k (schedules (INTERACTIVE_FIELD_TYPE_VALIDATORS_MAP E t v formValues c)))
  \/ (exists t v formValues c,
     In k (schedules (PASSIVE_FIELD_TYPE_VALIDATORS_MAP E t v formValues c)))
  \/ (exists validator v formValues,
     Config.validator (config formField) = Some validator
     /\ In k (schedules (validator v formValues))).

(** A string of [k] spaces. *)
Fixpoint spaces (k : nat) : string :=
  match k with
  | O => ""
  | S k => String " " (spaces k)
  end.

(** Every registered child form of the field has a field collection to read
    ([getChildFormsValues] does not throw). *)
Definition childFormsReady (formField : Field) : Prop :=
  forall l, childForms formField = Some l ->
    Forall (fun c => childFormValues c <> None) l.

Definition formReady (formFields : Fields) : Prop :=
  forall n f, lookupField formFields n = Some f -> childFormsReady f.

(** The invariant of the data model: a field with errors has no clean value. *)
Definition errorsImplyNoCleanValue (formField : Field) : Prop :=
  errors formField <> [] -> cleanValue formField = VUndefined.

(** Every field of the collection satisfies the invariant. *)
Definition formInvariant (formFields : Fields) : Prop :=
  forall n f, lookupField formFields n = Some f -> errorsImplyNoCleanValue f.

(** ** Concrete collaborators and forms used by the examples below *)

Definition isMissing (v : Value) : bool :=
  match v with
  | VUndefined | VNull => true
  | VString s => isEmptyString s
  | _ => false
  end.

(** Modelled from the spec: the [required] built-in validator of the absent
    [validators.ts]; a required field whose value is missing gets one error
    of type [required]. *)
Definition requiredValidator (fieldValue : Value) (fieldConfig : Config.t)
    (formValues : FormValues) (fieldErrors : list FieldError) : list FieldError :=
  if (Config.required fieldConfig && isMissing fieldValue)%bool
  then fieldErrors ++ [mkError required_t (MString "The value is required")]
  else fieldErrors.

(** An environment whose type validators accept every value, whose only
    built-in validator is [requiredValidator], and that skips no field. *)
Definition plainEnv : Env :=
  {| INTERACTIVE_FIELD_TYPE_VALIDATORS_MAP := fun _ _ _ _ => mkReply [] (Sync (RBoolean true));
     PASSIVE_FIELD_TYPE_VALIDATORS_MAP := fun _ _ _ _ => mkReply [] (Sync (RBoolean true));
     BUILT_IN_FIELD_VALIDATORS := [requiredValidator];
     BUILT_IN_INTERACTIVE_FIELD_VALIDATORS := [];
     getFormValues := fun formFields => map (fun '(n, f) => (n, rawValue f)) formFields;
     checkIsSkipField := fun _ _ _ => false;
     runChildFormsValidation := fun _ => false;
     Number := fun _ => VNaN |}.

Definition textConfig (dependsOn : DependsOn) (validator : option Validator) : Config.t :=
  Config.mk string_t false (VString "x") dependsOn None validator None None.

(** A text field as [createField] makes it, then set to the given value. *)
Definition textField (dependsOn : DependsOn) (validator : option Validator)
    (v : string) : Field :=
  withCleanValue
    (getNextSingleFieldState (createField (textConfig dependsOn validator)) (VString v) true)
    (VString v).

(** A form with one valid text field. *)
Definition emailForm : Fields := [("email", textField DependsOnNothing None "a@b.c")].

(** A custom validator that rejects every value with a message. *)
Definition customMessageValidator : Validator :=
  fun _ _ => mkReply [] (Sync (RMessage (MString "custom"))).

(** A required text field with that validator, left empty. *)
Definition requiredForm : Fields :=
  [("name",
    createField
      (Config.mk string_t true VUndefined DependsOnNothing None (Some customMessageValidator)
         None None))].

(** A validator whose promise resolves to [false]. *)
Definition resolvesFalseValidator : Validator :=
  fun _ _ => mkReply [] (Async (Fulfilled (RBoolean false))).

Definition usernameForm : Fields :=
  [("username", textField DependsOnNothing (Some resolvesFalseValidator) "")].

(** A validator whose promise rejects, on a field with a configured
    [invalid] message. *)
Definition rejectingValidator : Validator :=
  fun _ _ => mkReply [] (Async (Rejected (ReasonError "boom"))).

Definition configuredMessages (t : ErrorType) : option Message :=
  match t with invalid_t => Some (MString "Bad") | _ => None end.

Definition configuredField : Field :=
  createField
    (Config.mk string_t false (VString "x") DependsOnNothing (Some configuredMessages)
       (Some rejectingValidator) None None).

Definition configuredForm : Fields := [("code", configuredField)].

(** A form whose only field has a validator that rejects with the given
    reason. *)
Definition rejectingWith (reason : Reason) : Fields :=
  [("code",
    textField DependsOnNothing (Some (fun _ _ => mkReply [] (Async (Rejected reason)))) "x")].

(** A field has an error that blocks the form: one whose type is not
    [server]. *)
Definition hasBlockingError (formField : Field) : bool :=
  existsb (fun fieldError => negb (isServerError fieldError)) (errors formField).

(** A form whose only field holds a server error from an earlier submit. *)
Definition serverErredForm : Fields :=
  [("email",
    getNextErredField (textField DependsOnNothing None "a@b.c")
      [mkError server_t (MString "already taken")])].

(** country <- city <- street: each field depends on the one before. *)
Definition addressForm : Fields :=
  [("country", textField DependsOnNothing None "UA");
   ("city", textField (DependsOnName "country") None "Kyiv");
   ("street", textField (DependsOnList ["city"]) None "Main")].

(** A predicate that reads the value of its field: the field depends on
    [name] as long as it holds a value. *)
Definition whileFilled (name : string) : DependsOn :=
  DependsOnFn (fun initiatorFieldName v _ =>
    (String.eqb initiatorFieldName name && negb (isMissing v))%bool).

(** [zip] and [phone] depend on [country] through such a predicate. *)
Definition deliveryForm : Fields :=
  [("country", textField DependsOnNothing None "UA");
   ("zip", textField (whileFilled "country") None "01001");
   ("phone", textField (whileFilled "country") None "+380")].

Definition deliveryRank (n : string) : nat :=
  if String.eqb n "country" then 1 else 0.

(** The same form with [courier], which depends on [zip] by name. *)
Definition parcelForm : Fields :=
  deliveryForm ++ [("courier", textField (DependsOnName "zip") None "post")].

Definition parcelRank (n : string) : nat :=
  if String.eqb n "country" then 2 else if String.eqb n "courier" then 0 else 1.

(** Two fields that depend on each other. *)
Definition cyclicForm : Fields :=
  [("a", textField (DependsOnName "b") None "1");
   ("b", textField (DependsOnName "a") None "2")].

(** A validator that accepts its value and schedules another field. *)
Definition schedulingValidator (other : string) : Validator :=
  fun _ _ => mkReply [other] (Sync (RBoolean true)).

(** [min] and [max] re-validate each other; [currency] is the field that
    changes. *)
Definition rangeForm : Fields :=
  [("currency", textField DependsOnNothing None "EUR");
   ("min", textField DependsOnNothing (Some (schedulingValidator "max")) "1");
   ("max", textField DependsOnNothing (Some (schedulingValidator "min")) "9")].

(** Both bounds are marked for re-validation. *)
Definition rangeWorld : World := mkWorld {["min"; "max"]} [] [].

(** Only [max] is marked. *)
Definition maxWorld : World := mkWorld {["max"]} [] [].

(** Three fields in a cycle: [b] depends on [a], [c] on [b], [a] on [c]. *)
Definition threeCycleForm : Fields :=
  [("a", textField (DependsOnName "c") None "1");
   ("b", textField (DependsOnName "a") None "2");
   ("c", textField (DependsOnName "b") None "3")].

(** The field that depends on [t] in [threeCycleForm]. *)
Definition nextInCycle (t : string) : string :=
  if String.eqb t "a" then "b" else if String.eqb t "b" then "c" else "a".

(** ** Further operations of the form orchestrator ([use-base-honey-form])

    The mutable cells of the hook other than the field collection:
    [formDefaultsRef] and the three boolean refs are the record [FormRefs],
    [formState] is [FormState.t].  An operation that writes one of them takes
    it as an argument and returns it.

    As above, an operation is the function that the hook hands to
    [setFormFields], applied to the current collection at once.  The form has
    no parent field and no storage; the [onChange] and [onAfterValidate]
    notifications, which read the collection and do not write it, are left
    out, and so are the options that only steer them ([isSkipOnChange]). *)

(** [formDefaultsRef.current], a JS object keyed by field name. *)
Definition Defaults : Type := list (string * Value).

(** [formDefaultsRef.current[fieldName]]: [undefined] for an absent key. *)
Fixpoint lookupDefault (formDefaults : Defaults) (fieldName : string) : Value :=
  match formDefaults with
  | [] => VUndefined
  | (n, v) :: rest => if String.eqb n fieldName then v else lookupDefault rest fieldName
  end.

(** [formDefaultsRef.current[fieldName] = v] *)
Fixpoint setDefault (formDefaults : Defaults) (fieldName : string) (v : Value) : Defaults :=
  match formDefaults with
  | [] => [(fieldName, v)]
  | (n, old) :: rest =>
      if String.eqb n fieldName then (n, v) :: rest
      else (n, old) :: setDefault rest fieldName v
  end.

(** [delete formDefaultsRef.current[fieldName]] *)
Fixpoint deleteDefault (formDefaults : Defaults) (fieldName : string) : Defaults :=
  match formDefaults with
  | [] => []
  | (n, v) :: rest =>
      if String.eqb n fieldName then deleteDefault rest fieldName
      else (n, v) :: deleteDefault rest fieldName
  end.

(** [{...formDefaults, ...newFormDefaults}] *)
Definition mergeDefaults (formDefaults newFormDefaults : Defaults) : Defaults :=
  fold_left (fun acc entry => setDefault acc entry.1 entry.2) newFormDefaults formDefaults.

(** [delete nextFormFields[fieldName]] *)
Fixpoint deleteField (formFields : Fields) (fieldName : string) : Fields :=
  match formFields with
  | [] => []
  | (n, f) :: rest =>
      if String.eqb n fieldName then deleteField rest fieldName
      else (n, f) :: deleteField rest fieldName
  end.

Record FormRefs : Type := mkFormRefs {
  formDefaults : Defaults;
  isFormDirty : bool;
  isFormValid : bool;
  isFormSubmitted : bool;
}.

Module FormState.
Record t : Type := mk {
  isValidating : bool;
  isSubmitting : bool;
}.
End FormState.

Definition INITIAL_FORM_STATE : FormState.t := FormState.mk false false.

(** [Object.keys(formFields).some(name => formFields[name].isValidating)] *)
Definition isAnyFormFieldValidating (formFields : Fields) : bool :=
  existsb
    (fun fieldName =>
       match lookupField formFields fieldName with
       | Some formField => isValidating formField
       | None => false
       end)
    (keys formFields).

Definition isFormSubmitAllowed (isFormDefaultsFetching isFormDefaultsFetchingErred : bool)
    (formState : FormState.t) (formFields : Fields) : bool :=
  (negb isFormDefaultsFetching
   && negb isFormDefaultsFetchingErred
   && negb (isAnyFormFieldValidating formFields)
   && negb (FormState.isValidating formState)
   && negb (FormState.isSubmitting formState))%bool.

(** Modelled from the spec: [mapFormFields] of the absent [helpers.ts] makes
    a collection with the same keys, each field replaced by what the callback
    returns for it. *)
Definition mapFormFields (formFields : Fields) (callback : string -> Field -> Field)
    : Fields :=
  map (fun entry => (entry.1, callback entry.1 entry.2)) formFields.

Definition clearFormErrors (formFields : Fields) : Fields :=
  mapFormFields formFields (fun _ formField => getNextErrorsFreeField formField).

(** [createField] as a form calls it: besides making the field, the call
    stores the default value in [formDefaultsRef] and gives the field a new
    [__meta__] object, whose [isValidationScheduled] is [false]. *)
Definition createFormField (fieldName : string) (fieldConfig : Config.t)
    (formDefaults : Defaults) : M (Field * Defaults) :=
  _ ← clearValidationScheduled fieldName;
  mret (createField fieldConfig,
        setDefault formDefaults fieldName (Config.defaultValue fieldConfig)).

(** [{...formFields, [fieldName]: createField(fieldName, fieldConfig, ...)}];
    a field of that name that is already present is replaced (the source
    logs a warning). *)
Definition addFormField (fieldName : string) (fieldConfig : Config.t)
    (formFields : Fields) (formDefaults : Defaults) : M (Fields * Defaults) :=
  '(formField, formDefaults) ← createFormField fieldName fieldConfig formDefaults;
  mret (setField formFields fieldName formField, formDefaults).

Definition removeFormField (fieldName : string) (formFields : Fields)
    (formDefaults : Defaults) : Fields * Defaults :=
  (deleteField formFields fieldName, deleteDefault formDefaults fieldName).

(** [{...fieldConfig, defaultValue}] *)
Definition withDefaultValue (fieldConfig : Config.t) (defaultValue : Value) : Config.t :=
  Config.mk (Config.type fieldConfig) (Config.required fieldConfig) defaultValue
    (Config.dependsOn fieldConfig) (Config.errorMessages fieldConfig)
    (Config.validator fieldConfig) (Config.filter fieldConfig)
    (Config.formatter fieldConfig).

(** The [fields] option of the hook, in key order. *)
Definition FieldsConfig : Type := list (string * Config.t).

(** Modelled from the spec: [mapFieldsConfig] of the absent [helpers.ts]
    calls the callback once per configured field, in key order, and collects
    the fields it returns under the same keys.  [formFields] is the
    collection built so far. *)
Fixpoint mapFieldsConfig (fieldsConfig : FieldsConfig) (formFields : Fields)
    (formDefaults : Defaults) : M (Fields * Defaults) :=
  match fieldsConfig with
  | [] => mret (formFields, formDefaults)
  | (fieldName, fieldConfig) :: rest =>
      let defaultValue :=
        orElse (lookupDefault formDefaults fieldName) (Config.defaultValue fieldConfig) in
      '(formField, formDefaults) ←
        createFormField fieldName (withDefaultValue fieldConfig defaultValue) formDefaults;
      mapFieldsConfig rest (setField formFields fieldName formField) formDefaults
  end.

(** [createInitialFormFields] of [use-honey-form]. *)
Definition createInitialFormFields (fieldsConfig : FieldsConfig) (formDefaults : Defaults)
    : M (Fields * Defaults) :=
  mapFieldsConfig fieldsConfig [] formDefaults.

(** [resetForm(newFormDefaults)] of a form without a parent field; the
    collection it replaces is not read. *)
Definition resetForm (fieldsConfig : FieldsConfig) (newFormDefaults : option Defaults)
    (refs : FormRefs) : M (Fields * FormRefs) :=
  let formDefaults :=
    match newFormDefaults with
    | Some newFormDefaults => mergeDefaults (formDefaults refs) newFormDefaults
    | None => formDefaults refs
    end in
  '(formFields, formDefaults) ← createInitialFormFields fieldsConfig formDefaults;
  mret (formFields, mkFormRefs formDefaults false false false).

(** [HoneyFormServerErrors]: the messages the server returns per field. *)
Definition ServerErrors : Type := list (string * list Message).

(** How the promise of a submit handler settles: it resolves to server errors
    or to nothing, or it rejects. *)
Inductive SubmitOutcome : Type :=
  | Resolves (serverErrors : option ServerErrors)
  | Rejects.

Definition SubmitHandler : Type := FormValues -> SubmitOutcome.

(** Modelled from the spec: [mapServerErrors] of the absent [helpers.ts]
    keeps the keys and replaces each list of messages by what the callback
    returns for it. *)
Definition mapServerErrors (serverErrors : ServerErrors)
    (callback : string -> list Message -> list FieldError)
    : list (string * list FieldError) :=
  map (fun entry => (entry.1, callback entry.1 entry.2)) serverErrors.

(** [serverErrors && Object.keys(serverErrors).length] *)
Definition hasServerErrors (serverErrors : option ServerErrors) : bool :=
  match serverErrors with
  | Some (_ :: _) => true
  | _ => false
  end.

(** [formSubmitHandler || onSubmit] *)
Definition orHandler (formSubmitHandler onSubmit : option SubmitHandler)
    : option SubmitHandler :=
  match formSubmitHandler with
  | Some handler => Some handler
  | None => onSubmit
  end.

Section Orchestrator.
Context (E : Env).

(** [getSubmitFormValues] of the absent [helpers.ts], a parameter. *)
Context (getSubmitFormValues : Fields -> FormValues).

(** The callback that [setFormValues] hands to [Object.keys(values).forEach]. *)
Definition setFormValue (isValidate : bool) (fieldName : string) (fieldValue : Value)
    (nextFormFields : Fields) : M Fields :=
  match lookupField nextFormFields fieldName with
  | None => throw
  | Some formField =>
      let fieldConfig := config formField in
      let filteredValue :=
        match Config.filter fieldConfig with
        | Some filter =>
            if checkIfHoneyFormFieldIsInteractive fieldConfig then filter fieldValue
            else fieldValue
        | None => fieldValue
        end in
      nextFormField ←
        (if isValidate
         then executeFieldValidator E nextFormFields fieldName filteredValue false
         else mret formField);
      mret (setField nextFormFields fieldName
              (getNextSingleFieldState nextFormField filteredValue true))
  end.

Fixpoint setEachFormValue (isValidate : bool) (values : list (string * Value))
    (nextFormFields : Fields) : M Fields :=
  match values with
  | [] => mret nextFormFields
  | (fieldName, fieldValue) :: rest =>
      setFormValue isValidate fieldName fieldValue nextFormFields
        ≫= setEachFormValue isValidate rest
  end.

(** [values] is the object given by the caller, in key order.  [isDirty]
    only sets [isFormDirtyRef] and is not an argument. *)
Definition setFormValues (values : list (string * Value)) (isValidate isClearAll : bool)
    (formFields : Fields) : M Fields :=
  nextFormFields ← (if isClearAll then resetAllFields formFields else mret formFields);
  setEachFormValue isValidate values nextFormFields.

(** [submitForm(formSubmitHandler)] of a form without a parent field and
    without storage.  The result is the collection and the refs when the
    promise of [submitForm] resolves; [formState] is then
    [INITIAL_FORM_STATE] again, by the [finally] block. *)
Definition submitForm (fieldsConfig : FieldsConfig) (onSubmit : option SubmitHandler)
    (resetAfterSubmit : bool) (formSubmitHandler : option SubmitHandler)
    (formFields : Fields) (refs : FormRefs) : M (Fields * FormRefs) :=
  match orHandler formSubmitHandler onSubmit with
  | None => throw
  | Some submitHandler =>
      '(isFormValid, formFields) ← validateForm E None None formFields;
      let refs :=
        mkFormRefs (formDefaults refs) (isFormDirty refs) isFormValid (isFormSubmitted refs) in
      if isFormValid then
        let submitData := getSubmitFormValues formFields in
        match submitHandler submitData with
        | Rejects => throw
        | Resolves serverErrors =>
            let submitted :=
              mkFormRefs (formDefaults refs) false (isFormValid) true in
            if hasServerErrors serverErrors then
              formFields ←
                setFormErrors
                  (mapServerErrors (default [] serverErrors)
                     (fun _ fieldErrors => map (mkError server_t) fieldErrors))
                  formFields;
              mret (formFields, submitted)
            else if resetAfterSubmit then resetForm fieldsConfig None refs
            else mret (formFields, submitted)
        end
      else mret (formFields, refs)
  end.

End Orchestrator.

(** ** Further collaborators and forms used by the examples below *)

Fixpoint hasAt (s : string) : bool :=
  match s with
  | EmptyString => false
  | String c rest => (Ascii.eqb c "@" || hasAt rest)%bool
  end.

(** A type validator that rejects an [email] value without an [@]. *)
Definition emailTypeValidator (fieldType : FieldType) (fieldValue : Value)
    (formValues : FormValues) (fieldConfig : Config.t) : ValidatorReply :=
  match fieldType, fieldValue with
  | email_t, VString s =>
      if (isEmptyString s || hasAt s)%bool then mkReply [] (Sync (RBoolean true))
      else mkReply [] (Sync (RMessage (MString "Invalid email format")))
  | _, _ => mkReply [] (Sync (RBoolean true))
  end.

(** The number that a string of decimal digits denotes. *)
Fixpoint digitsValue (acc : Z) (s : string) : option Z :=
  match s with
  | EmptyString => Some acc
  | String c rest =>
      let n := nat_of_ascii c in
      if (Nat.leb 48 n && Nat.leb n 57)%bool
      then digitsValue (10 * acc + Z.of_nat (n - 48)) rest
      else None
  end.

(** [Number] on the strings of decimal digits; any other string is taken to
    [NaN] here. *)
Definition numberOfDigits (s : string) : Value :=
  match digitsValue 0 s with
  | Some z => VNumber z
  | None => VNaN
  end.

(** [plainEnv] with that type validator for interactive fields and that
    [Number]. *)
Definition strictEnv : Env :=
  {| INTERACTIVE_FIELD_TYPE_VALIDATORS_MAP := emailTypeValidator;
     PASSIVE_FIELD_TYPE_VALIDATORS_MAP := fun _ _ _ _ => mkReply [] (Sync (RBoolean true));
     BUILT_IN_FIELD_VALIDATORS := [requiredValidator];
     BUILT_IN_INTERACTIVE_FIELD_VALIDATORS := [];
     getFormValues := fun formFields => map (fun '(n, f) => (n, rawValue f)) formFields;
     checkIsSkipField := fun _ _ _ => false;
     runChildFormsValidation := fun _ => false;
     Number := numberOfDigits |}.

(** A required [email] field with a custom validator that rejects every
    value. *)
Definition contactConfig : Config.t :=
  Config.mk email_t true VUndefined DependsOnNothing None (Some customMessageValidator)
    None None.

Definition contactForm : Fields :=
  [("contact", getNextSingleFieldState (createField contactConfig) (VString "nobody") true)].

(** A dependency cycle of length three or more: [next] leads from each name
    of the cycle to a field of the collection that declares a dependency on
    it, and two steps of [next] do not lead back. *)
Definition dependencyCycle (formFields : Fields) (inCycle : string -> Prop)
    (next : string -> string) : Prop :=
  forall t, inCycle t ->
    inCycle (next t)
    /\ t <> ""
    /\ next t <> t
    /\ next (next t) <> t
    /\ exists f, lookupField formFields (next t) = Some f
                 /\ forall i, declaresDependency (config f) t i.

(** A form with a name and an age, both valid. *)
Definition profileForm : Fields :=
  [("name", textField DependsOnNothing None "Ann");
   ("age", textField DependsOnNothing None "41")].

(** The defaults that [resetForm] reads: the stored ones, overridden by the
    new ones when some are given. *)
Definition resetDefaults (newFormDefaults : option Defaults) (refs : FormRefs) : Defaults :=
  match newFormDefaults with
  | Some newFormDefaults => mergeDefaults (formDefaults refs) newFormDefaults
  | None => formDefaults refs
  end.

(** The default value of a configured field under given stored defaults. *)
Definition resolvedDefault (formDefaults : Defaults) (fieldName : string)
    (fieldConfig : Config.t) : Value :=
  orElse (lookupDefault formDefaults fieldName) (Config.defaultValue fieldConfig).

(** The field that a configured field starts as under given stored
    defaults. *)
Definition initialField (formDefaults : Defaults) (fieldName : string)
    (fieldConfig : Config.t) : Field :=
  createField (withDefaultValue fieldConfig (resolvedDefault formDefaults fieldName fieldConfig)).

(** The configuration of [profileForm], with a default for the name only. *)
Definition profileConfig : FieldsConfig :=
  [("name", Config.mk string_t true (VString "anonymous") DependsOnNothing None None None None);
   ("age", Config.mk string_t false VUndefined DependsOnNothing None None None None)].

(** A submit handler to which the server answers that the name is taken. *)
Definition nameTakenHandler : SubmitHandler :=
  fun _ => Resolves (Some [("name", [MString "already taken"])]).

(** The field with the given child forms registered. *)
Definition withChildForms (formField : Field) (children : list ChildForm) : Field :=
  {| config := config formField;
     errors := errors formField;
     defaultValue := defaultValue formField;
     rawValue := rawValue formField;
     cleanValue := cleanValue formField;
     value := value formField;
     isValidating := isValidating formField;
     props := props formField;
     passiveProps := passiveProps formField;
     objectProps := objectProps formField;
     childForms := Some children;
     initialValue := initialValue formField |}.

(** A nested-forms field with two registered child forms, the second of
    which has no field collection yet. *)
Definition itemsField : Field :=
  withChildForms
    (createField
       (Config.mk nestedForms_t false (VArray []) DependsOnNothing None None None None))
    [mkChildForm "form-1" (Some (VObject [("title", VString "a")]));
     mkChildForm "form-2" None].

(** * Properties *)

(** ** Basic facts about the monad and field collections *)

Lemma bind_Ok {A B : Type} (m : M A) (k : A -> M B) (w : World) (r : B * World) :
  (m ≫= k) w = Ok r <-> exists a w1, m w = Ok (a, w1) /\ k a w1 = Ok r.
Proof.
  unfold mbind, M_bind. split.
  - destruct (m w) as [[a w1]| |]; [eauto|discriminate|discriminate].
  - intros (a & w1 & -> & Hk). exact Hk.
Qed.

Lemma ret_Ok {A : Type} (a : A) (w : World) (r : A * World) :
  mret (M := M) a w = Ok r <-> r = (a, w).
Proof. unfold mret, M_ret. split; congruence. Qed.

Lemma getField_Ok (formFields : Fields) (n : string) (w w' : World) (f : Field) :
  getField formFields n w = Ok (f, w') <-> lookupField formFields n = Some f /\ w' = w.
Proof.
  unfold getField. destruct (lookupField formFields n) as [g|]; simpl.
  - rewrite ret_Ok. split.
    + intros [= -> ->]. done.
    + intros [[= ->] ->]. done.
  - unfold throw. split; [discriminate|]. intros [? _]; discriminate.
Qed.

(** Inversion of a successful monadic computation, one bind at a time. *)
Ltac inv_M H :=
  repeat match type of H with
  | (_ ≫= _) _ = Ok _ =>
      let a := fresh "a" in let w := fresh "w" in
      let H1 := fresh "Hm" in
      apply bind_Ok in H; destruct H as (a & w & H1 & H)
  | @mret M _ _ _ _ = Ok _ => apply ret_Ok in H
  end.

Lemma lookupField_setField_eq (formFields : Fields) (n : string) (f : Field) :
  lookupField (setField formFields n f) n = Some f.
Proof.
  induction formFields as [|[m g] rest IH]; simpl.
  - by rewrite String.eqb_refl.
  - destruct (String.eqb m n) eqn:Hmn; simpl; rewrite Hmn; [done|exact IH].
Qed.

Lemma lookupField_setField_ne (formFields : Fields) (n m : string) (f : Field) :
  n <> m -> lookupField (setField formFields n f) m = lookupField formFields m.
Proof.
  intros Hne. induction formFields as [|[k g] rest IH]; simpl.
  - destruct (String.eqb_spec n m); [contradiction|done].
  - destruct (String.eqb_spec k n) as [->|Hkn]; simpl.
    + destruct (String.eqb_spec n m); [contradiction|done].
    + destruct (String.eqb_spec k m); [done|exact IH].
Qed.

Lemma lookupField_Some_keys (formFields : Fields) (n : string) (f : Field) :
  lookupField formFields n = Some f -> In n (keys formFields).
Proof.
  induction formFields as [|[k g] rest IH]; simpl; [discriminate|].
  destruct (String.eqb_spec k n) as [->|Hkn]; [by left|]. intros H. right. by apply IH.
Qed.

Lemma keys_lookupField (formFields : Fields) (n : string) :
  In n (keys formFields) -> exists f, lookupField formFields n = Some f.
Proof.
  induction formFields as [|[k g] rest IH]; simpl; [done|].
  destruct (String.eqb_spec k n) as [->|Hkn]; [eauto|].
  intros [H|H]; [contradiction|by apply IH].
Qed.

Lemma keys_setField (formFields : Fields) (n : string) (f g : Field) :
  lookupField formFields n = Some g -> keys (setField formFields n f) = keys formFields.
Proof.
  induction formFields as [|[k h] rest IH]; simpl; [discriminate|].
  destruct (String.eqb_spec k n) as [->|Hkn]; simpl; [done|].
  intros H. f_equal. by apply IH.
Qed.

(** ** C5: how a validation result becomes errors *)

(** C5, counterexample: [null] is a falsy result that is neither an array nor
    a string, and it adds no error at all. *)
Lemma C5_null_adds_no_error :
  handleFieldValidationResult [] (textConfig DependsOnNothing None) None = [].
Proof. reflexivity. Qed.

(** C5, as amended: exactly [false] adds one [invalid] error, with the
    configured message when there is one and ['Invalid value'] otherwise;
    [null] and [true] add nothing; an array is appended as it is; a
    non-empty string or an element adds one [invalid] error with that
    message. *)
Theorem C5_handleFieldValidationResult (fieldErrors : list FieldError) (c : Config.t) :
  handleFieldValidationResult fieldErrors c (Some (RBoolean false))
  = fieldErrors
      ++ [mkError invalid_t
            match invalidMessage c with
            | Some configured => configured
            | None => MString "Invalid value"
            end]
  /\ handleFieldValidationResult fieldErrors c None = fieldErrors
  /\ handleFieldValidationResult fieldErrors c (Some (RBoolean true)) = fieldErrors
  /\ (forall l, handleFieldValidationResult fieldErrors c (Some (RErrors l)) = fieldErrors ++ l)
  /\ (forall ch s,
        handleFieldValidationResult fieldErrors c (Some (RMessage (MString (String ch s))))
        = fieldErrors ++ [mkError invalid_t (MString (String ch s))])
  /\ (forall id,
        handleFieldValidationResult fieldErrors c (Some (RMessage (MElement id)))
        = fieldErrors ++ [mkError invalid_t (MElement id)]).
Proof.
  repeat split; intros; reflexivity.
Qed.

(** ** Validator dispatch *)

Lemma bind_eq {A B : Type} (m : M A) (k : A -> M B) (w w1 : World) (a : A) :
  m w = Ok (a, w1) -> (m ≫= k) w = k a w1.
Proof. intros H. unfold mbind, M_bind. by rewrite H. Qed.

Lemma scheduleAll_Ok (names : list string) (w : World) :
  scheduleAll names w
  = Ok (tt, mkWorld (list_to_set names ∪ scheduled w) (pending w) (trace w)).
Proof.
  revert w. induction names as [|n rest IH]; intros w; simpl.
  - unfold mret, M_ret. do 2 f_equal. destruct w; simpl. f_equal. set_solver.
  - unfold mbind, M_bind, scheduleFieldValidation. rewrite IH. simpl.
    do 3 f_equal. set_solver.
Qed.

(** Stage 1 always returns; it may set flags and logs at most its own call. *)
Lemma executeFieldTypeValidator_Ok (E : Env) (formFields : Fields) (n : string)
    (f : Field) (v : Value) (w : World) :
  exists vr w1,
    executeFieldTypeValidator E formFields n f v w = Ok (vr, w1)
    /\ pending w1 = pending w
    /\ scheduled w ⊆ scheduled w1
    /\ (trace w1 = trace w \/ trace w1 = trace w ++ [TypeValidatorCalled n v]).
Proof.
  unfold executeFieldTypeValidator.
  assert (Hrun : forall reply : ValidatorReply, exists vr w1,
    (tell (TypeValidatorCalled n v) ≫= fun _ =>
     scheduleAll (schedules reply) ≫= fun _ =>
     match response reply with
     | Sync r => mret (Some r)
     | Async _ => mret None
     end) w = Ok (vr, w1)
    /\ pending w1 = pending w /\ scheduled w ⊆ scheduled w1
    /\ (trace w1 = trace w \/ trace w1 = trace w ++ [TypeValidatorCalled n v])).
  { intros reply. unfold mbind, M_bind, tell. rewrite scheduleAll_Ok. simpl.
    destruct (response reply); eexists _, _; (split; [reflexivity|]); simpl;
      (split; [done|]); (split; [set_solver|by right]). }
  destruct (checkIfFieldIsObject (config f) || checkIfFieldIsNestedForms (config f))%bool.
  { exists None, w. repeat split; [set_solver|by left]. }
  destruct (checkIfHoneyFormFieldIsInteractive (config f)); [apply Hrun|].
  destruct (checkIfFieldIsPassive (config f)); [apply Hrun|].
  exists None, w. repeat split; [set_solver|by left].
Qed.

Lemma callValidator_Ok (n : string) (validator : Validator) (v : Value)
    (formValues : FormValues) (w : World) :
  callValidator n validator v formValues w
  = Ok (response (validator v formValues),
        mkWorld (list_to_set (schedules (validator v formValues)) ∪ scheduled w)
          (pending w) (trace w ++ [CustomValidatorCalled n v])).
Proof.
  unfold callValidator, mbind, M_bind, tell. rewrite scheduleAll_Ok. reflexivity.
Qed.

Lemma executeFieldValidator_trace (E : Env) (formFields : Fields) (n : string) (v : Value)
    (fin : bool) (w w1 : World) (formField : Field) (vr : option ValidationResult) :
  lookupField formFields n = Some formField ->
  executeFieldTypeValidator E formFields n formField
    (sanitizeFieldValue E (Config.type (config formField)) v) w = Ok (vr, w1) ->
  exists f w',
    executeFieldValidator E formFields n v fin w = Ok (f, w')
    /\ trace w'
       = trace w1
           ++ customValidatorEvents n (config formField)
                (sanitizeFieldValue E (Config.type (config formField)) v) vr.
Proof.
  intros Hl H1. unfold executeFieldValidator, getField. rewrite Hl.
  unfold customValidatorEvents.
  rewrite (bind_eq _ _ w w formField) by reflexivity.
  rewrite (bind_eq _ _ _ _ _ H1).
  destruct (isNullOrTrue vr); [|eexists _, _; split; [reflexivity|by rewrite app_nil_r]].
  destruct (Config.validator (config formField)) as [validator|];
    [|eexists _, _; split; [reflexivity|by rewrite app_nil_r]].
  rewrite (bind_eq _ _ _ _ _ (callValidator_Ok _ _ _ _ _)).
  destruct (response _) as [r|p].
  - eexists _, _; split; [reflexivity|done].
  - unfold mbind, M_bind, defer; simpl. eexists _, _; split; [reflexivity|done].
Qed.

(** The awaited twin returns, unless the custom validator it has called
    rejects with [null] or [undefined]. *)
Lemma executeFieldValidatorAsync_trace (E : Env) (formFields : Fields) (n : string)
    (w w0 w1 : World) (formField : Field) (filteredValue : Value)
    (vr : option ValidationResult) :
  lookupField formFields n = Some formField ->
  asyncFilteredValue formField w = Ok (filteredValue, w0) ->
  executeFieldTypeValidator E formFields n formField
    (sanitizeFieldValue E (Config.type (config formField)) filteredValue) w0 = Ok (vr, w1) ->
  (exists f w',
     executeFieldValidatorAsync E n formFields w = Ok (f, w')
     /\ trace w'
        = trace w1
            ++ customValidatorEvents n (config formField)
                 (sanitizeFieldValue E (Config.type (config formField)) filteredValue) vr)
  \/ (isNullOrTrue vr = true
      /\ (exists validator,
            Config.validator (config formField) = Some validator
            /\ response
                 (validator
                    (sanitizeFieldValue E (Config.type (config formField)) filteredValue)
                    (getFormValues E formFields))
               = Async (Rejected ReasonNullish))
      /\ executeFieldValidatorAsync E n formFields w = Throw).
Proof.
  intros Hl H0 H1. unfold executeFieldValidatorAsync, getField. rewrite Hl.
  unfold customValidatorEvents.
  rewrite (bind_eq _ _ w w formField) by reflexivity.
  rewrite (bind_eq _ _ _ _ _ H0).
  rewrite (bind_eq _ _ _ _ _ H1).
  destruct (isNullOrTrue vr);
    [|left; eexists _, _; split; [reflexivity|by rewrite app_nil_r]].
  destruct (Config.validator (config formField)) as [validator|];
    [|left; eexists _, _; split; [reflexivity|by rewrite app_nil_r]].
  rewrite (bind_eq _ _ _ _ _ (callValidator_Ok _ _ _ _ _)).
  destruct (response _) as [r|[r|[msg| |]]] eqn:Hresp; simpl;
    try (left; eexists _, _; split; [reflexivity|done]).
  right. split; [done|]. split; [|done]. by exists validator.
Qed.

(** C4, counterexample: on an empty required field stage 2 pushes a
    [required] error, and the custom validator is called all the same; its
    message ends up next to the built-in error. *)
Lemma C4_validator_runs_after_required_error :
  executeInternalFieldValidators plainEnv (VString "")
    (Config.mk string_t true VUndefined DependsOnNothing None (Some customMessageValidator)
       None None) [] (getFormValues plainEnv requiredForm)
  = [mkError required_t (MString "The value is required")]
  /\ exists f w,
      executeFieldValidator plainEnv requiredForm "name" (VString "") true emptyWorld
      = Ok (f, w)
      /\ In (CustomValidatorCalled "name" (VString "")) (trace w)
      /\ errors f = [mkError required_t (MString "The value is required");
                     mkError invalid_t (MString "custom")].
Proof.
  split; [reflexivity|].
  eexists _, _. split; [vm_compute; reflexivity|]. split; [|reflexivity].
  simpl. right. by left.
Qed.

(** C4, as amended: in [executeFieldValidator] and in
    [executeFieldValidatorAsync] the custom validator is called exactly when
    it is configured and stage 1 (the type validator) returned [null] or
    [true]; what stage 2 (the built-in validators) pushed plays no part.
    When stage 1 yields anything else the custom validator is not called.
    [executeFieldValidatorAsync] does not return in one case only: the
    custom validator, called under that same condition, rejects with [null]
    or [undefined], and the function throws. *)
Theorem C4_custom_validator_gate (E : Env) (formFields : Fields) (n : string)
    (formField : Field) :
  lookupField formFields n = Some formField ->
  (forall v fin w vr w1,
     executeFieldTypeValidator E formFields n formField
       (sanitizeFieldValue E (Config.type (config formField)) v) w = Ok (vr, w1) ->
     exists f w',
       executeFieldValidator E formFields n v fin w = Ok (f, w')
       /\ trace w'
          = trace w1
              ++ (if isNullOrTrue vr then
                    match Config.validator (config formField) with
                    | Some _ =>
                        [CustomValidatorCalled n
                           (sanitizeFieldValue E (Config.type (config formField)) v)]
                    | None => []
                    end
                  else []))
  /\ (forall filteredValue w w0 vr w1,
     asyncFilteredValue formField w = Ok (filteredValue, w0) ->
     executeFieldTypeValidator E formFields n formField
       (sanitizeFieldValue E (Config.type (config formField)) filteredValue) w0
     = Ok (vr, w1) ->
     (exists f w',
        executeFieldValidatorAsync E n formFields w = Ok (f, w')
        /\ trace w'
           = trace w1
               ++ (if isNullOrTrue vr then
                     match Config.validator (config formField) with
                     | Some _ =>
                         [CustomValidatorCalled n
                            (sanitizeFieldValue E (Config.type (config formField))
                               filteredValue)]
                     | None => []
                     end
                   else []))
     \/ (isNullOrTrue vr = true
         /\ (exists validator,
               Config.validator (config formField) = Some validator
               /\ response
                    (validator
                       (sanitizeFieldValue E (Config.type (config formField))
                          filteredValue)
                       (getFormValues E formFields))
                  = Async (Rejected ReasonNullish))
         /\ executeFieldValidatorAsync E n formFields w = Throw)).
Proof.
  intros Hl. split.
  - intros v fin w vr w1 H1. by apply executeFieldValidator_trace.
  - intros fv w w0 vr w1 H0 H1. by eapply executeFieldValidatorAsync_trace.
Qed.

(** C4, witness: the required field of [requiredForm], validated with the
    empty string. *)
Lemma C4_custom_validator_gate_witness :
  exists f w',
    executeFieldValidator plainEnv requiredForm "name" (VString "") true emptyWorld
    = Ok (f, w')
    /\ trace w'
       = [TypeValidatorCalled "name" (VString "");
          CustomValidatorCalled "name" (VString "")].
Proof.
  destruct (C4_custom_validator_gate plainEnv requiredForm "name"
              (createField
                 (Config.mk string_t true VUndefined DependsOnNothing None
                    (Some customMessageValidator) None None)) eq_refl) as [Hsync _].
  exact (Hsync (VString "") true emptyWorld (Some (RBoolean true))
           (mkWorld ∅ [] [TypeValidatorCalled "name" (VString "")]) eq_refl).
Defined.

(** ** Asynchronous custom validators *)

Lemma childFormsValues_world (l : list ChildForm) (w w' : World) (vs : list Value) :
  childFormsValues l w = Ok (vs, w') -> w' = w.
Proof.
  revert vs w'. induction l as [|c rest IH]; intros vs w' H; simpl in H.
  - apply ret_Ok in H. congruence.
  - destruct (childFormValues c); [|discriminate].
    inv_M H. apply IH in Hm. congruence.
Qed.

Lemma getChildFormsValues_world (f : Field) (w w' : World) (v : Value) :
  getChildFormsValues f w = Ok (v, w') -> w' = w.
Proof.
  unfold getChildFormsValues. destruct (childForms f); intros H.
  - inv_M H. apply childFormsValues_world in Hm. congruence.
  - apply ret_Ok in H. congruence.
Qed.

Lemma asyncFilteredValue_world (f : Field) (w w' : World) (v : Value) :
  asyncFilteredValue f w = Ok (v, w') -> w' = w.
Proof.
  unfold asyncFilteredValue.
  destruct (checkIfHoneyFormFieldIsInteractive (config f)).
  - destruct (Config.filter (config f)); intros H; apply ret_Ok in H; congruence.
  - destruct (checkIfFieldIsNestedForms (config f)).
    + apply getChildFormsValues_world.
    + intros H; apply ret_Ok in H; congruence.
Qed.

Lemma childFormsValues_any_world (l : list ChildForm) (w w0 : World) (vs : list Value) :
  childFormsValues l w = Ok (vs, w) -> childFormsValues l w0 = Ok (vs, w0).
Proof.
  revert vs. induction l as [|c rest IH]; intros vs H; simpl in *.
  - apply ret_Ok in H. injection H as ->. reflexivity.
  - destruct (childFormValues c); [|discriminate].
    apply bind_Ok in H as (vs' & w1 & Hrest & H).
    pose proof (childFormsValues_world _ _ _ _ Hrest) as ->.
    apply ret_Ok in H. injection H as ->.
    by rewrite (bind_eq _ _ _ _ _ (IH _ Hrest)).
Qed.

(** The value that a field hands to its validators does not depend on the
    world. *)
Lemma asyncFilteredValue_any_world (f : Field) (w w0 : World) (v : Value) :
  asyncFilteredValue f w = Ok (v, w) -> asyncFilteredValue f w0 = Ok (v, w0).
Proof.
  unfold asyncFilteredValue, getChildFormsValues.
  destruct (checkIfHoneyFormFieldIsInteractive (config f)).
  { destruct (Config.filter (config f)); intros H; apply ret_Ok in H;
      injection H as ->; reflexivity. }
  destruct (checkIfFieldIsNestedForms (config f));
    [|intros H; apply ret_Ok in H; injection H as ->; reflexivity].
  destruct (childForms f) as [l|];
    [|intros H; apply ret_Ok in H; injection H as ->; reflexivity].
  intros H. apply bind_Ok in H as (vs & w1 & Hvs & H).
  pose proof (childFormsValues_world _ _ _ _ Hvs) as ->.
  apply ret_Ok in H. injection H as ->.
  by rewrite (bind_eq _ _ _ _ _ (childFormsValues_any_world _ _ w0 _ Hvs)).
Qed.

Lemma currentFilteredValue_world (f : Field) (w w' : World) (v : Value) :
  currentFilteredValue f w = Ok (v, w') -> w' = w.
Proof.
  unfold currentFilteredValue.
  destruct (Config.filter (config f)), (checkIfHoneyFormFieldIsInteractive (config f)),
    (checkIfFieldIsNestedForms (config f));
    first [apply getChildFormsValues_world | intros H; apply ret_Ok in H; congruence].
Qed.

Lemma handleFieldValidationResult_nullOrTrue (errs : list FieldError) (c : Config.t)
    (vr : option ValidationResult) :
  isNullOrTrue vr = true -> handleFieldValidationResult errs c vr = errs.
Proof. destruct vr as [[[]| |]|]; simpl; done. Qed.

Lemma getNextValidatedField_errors (errs : list FieldError) (vr : option ValidationResult)
    (f : Field) (v : Value) :
  errors (getNextValidatedField errs vr f v) = handleFieldValidationResult errs (config f) vr.
Proof.
  unfold getNextValidatedField.
  destruct (handleFieldValidationResult errs (config f) vr); reflexivity.
Qed.

Lemma getNextValidatedField_isValidating (errs : list FieldError)
    (vr : option ValidationResult) (f : Field) (v : Value) :
  isValidating (getNextValidatedField errs vr f v) = isValidating f.
Proof.
  unfold getNextValidatedField.
  destruct (negb _); reflexivity.
Qed.

Lemma addFormFieldErrors_lookup (n : string) (errs : list FieldError) (formFields : Fields)
    (g : Field) :
  lookupField formFields n = Some g ->
  lookupField (addFormFieldErrors n errs formFields) n
  = Some (withErrors g (errors g ++ errs)).
Proof.
  intros H. unfold addFormFieldErrors. rewrite H. apply lookupField_setField_eq.
Qed.

Lemma handleFieldAsyncValidationResult_lookup (n : string) (f g : Field) (p : Settled)
    (formFields : Fields) :
  lookupField formFields n = Some g ->
  exists g',
    lookupField (handleFieldAsyncValidationResult n f p formFields) n = Some g'
    /\ errors g' = errors g ++ settledErrors (config f) p
    /\ isValidating g' = isValidating g
    /\ cleanValue g' = cleanValue g
    /\ config g' = config g.
Proof.
  intros Hl.
  assert (Hadd : forall errs, exists g',
    lookupField (addFormFieldErrors n errs formFields) n = Some g'
    /\ errors g' = errors g ++ errs /\ isValidating g' = isValidating g
    /\ cleanValue g' = cleanValue g /\ config g' = config g).
  { intros errs. eexists. split; [by apply addFormFieldErrors_lookup|done]. }
  assert (Hnone : exists g',
    lookupField formFields n = Some g'
    /\ errors g' = errors g ++ [] /\ isValidating g' = isValidating g
    /\ cleanValue g' = cleanValue g /\ config g' = config g).
  { exists g. by rewrite app_nil_r. }
  destruct p as [[[]|[[|ch s]|id|]|l]|reason]; simpl; unfold addFormFieldError;
    try first [apply Hnone | apply Hadd].
  destruct (invalidMessage (config f)); [apply Hadd|].
  destruct reason; simpl; first [apply Hnone | apply Hadd].
Qed.

(** C6: when the custom validator returns a promise, the synchronous
    [executeFieldValidator] returns at once a field with [isValidating = true]
    whose errors are those of stages 1 and 2 (stage 1 added none, or the
    validator would not have run), and queues the task on the promise.  The
    task does not call the validation function again: it appends the errors
    of the settled promise with [addFormFieldErrors] and, when the caller
    passed the completion callback (as [setFieldValue] does), clears
    [isValidating] with [finishFieldAsyncValidation]; it leaves flags, queue
    and trace as they are. *)
Theorem C6_promise_leaves_field_validating (E : Env) (formFields : Fields) (n : string)
    (formField : Field) (validator : Validator) (v : Value) (fin : bool) (w w1 : World)
    (vr : option ValidationResult) (p : Settled) :
  lookupField formFields n = Some formField ->
  Config.validator (config formField) = Some validator ->
  executeFieldTypeValidator E formFields n formField
    (sanitizeFieldValue E (Config.type (config formField)) v) w = Ok (vr, w1) ->
  isNullOrTrue vr = true ->
  response (validator (sanitizeFieldValue E (Config.type (config formField)) v)
              (getFormValues E formFields)) = Async p ->
  exists f w',
    executeFieldValidator E formFields n v fin w = Ok (f, w')
    /\ isValidating f = true
    /\ errors f
       = executeInternalFieldValidators E
           (sanitizeFieldValue E (Config.type (config formField)) v)
           (config formField) [] (getFormValues E formFields)
    /\ pending w' = pending w ++ [mkTask n (getNextAsyncValidatingField formField) p fin]
    /\ forall current g w2,
         lookupField current n = Some g ->
         exists next g',
           runAsyncTask (mkTask n (getNextAsyncValidatingField formField) p fin) current w2
           = Ok (next, w2)
           /\ lookupField next n = Some g'
           /\ isValidating g' = (if fin then false else isValidating g)
           /\ errors g' = errors g ++ settledErrors (config formField) p.
Proof.
  intros Hl Hv H1 Hvr Hresp.
  destruct (executeFieldTypeValidator_Ok E formFields n formField
              (sanitizeFieldValue E (Config.type (config formField)) v) w)
    as (vr' & w1' & H1' & Hpend & _ & _).
  rewrite H1 in H1'. injection H1' as <- <-.
  unfold executeFieldValidator, getField. rewrite Hl.
  rewrite (bind_eq _ _ w w formField) by reflexivity.
  rewrite (bind_eq _ _ _ _ _ H1). rewrite Hvr, Hv.
  rewrite (bind_eq _ _ _ _ _ (callValidator_Ok _ _ _ _ _)). rewrite Hresp.
  unfold mbind, M_bind, defer, mret, M_ret; simpl.
  eexists _, _. split; [reflexivity|].
  split; [by rewrite getNextValidatedField_isValidating|].
  split.
  { rewrite getNextValidatedField_errors. by apply handleFieldValidationResult_nullOrTrue. }
  split; [by rewrite Hpend|].
  intros current g w2 Hg. unfold runAsyncTask; simpl.
  destruct (handleFieldAsyncValidationResult_lookup n (getNextAsyncValidatingField formField)
              g p current Hg) as (g1 & Hg1 & Herr & Hval & _).
  destruct fin.
  - unfold finishFieldAsyncValidation, getField. rewrite Hg1.
    unfold mbind, M_bind, mret, M_ret; simpl.
    eexists _, _. split; [reflexivity|].
    rewrite lookupField_setField_eq. split; [reflexivity|]. split; [reflexivity|].
    exact Herr.
  - exists (handleFieldAsyncValidationResult n (getNextAsyncValidatingField formField) p
              current), g1.
    split; [reflexivity|]. split; [exact Hg1|]. split; [exact Hval|exact Herr].
Qed.

(** C6, witness: the scenario of the spec.  The validator of [username]
    returns a promise that resolves to [false]: right after the call
    [isValidating] is true and there is no error; once the task has run,
    [isValidating] is false and there is one [invalid] error. *)
Lemma C6_promise_leaves_field_validating_witness :
  exists f w',
    executeFieldValidator plainEnv usernameForm "username" (VString "") true emptyWorld
    = Ok (f, w')
    /\ isValidating f = true
    /\ errors f = []
    /\ pending w'
       = [mkTask "username"
            (getNextAsyncValidatingField
               (textField DependsOnNothing (Some resolvesFalseValidator) ""))
            (Fulfilled (RBoolean false)) true]
    /\ forall current g w2,
         lookupField current "username" = Some g ->
         exists next g',
           runAsyncTask
             (mkTask "username"
                (getNextAsyncValidatingField
                   (textField DependsOnNothing (Some resolvesFalseValidator) ""))
                (Fulfilled (RBoolean false)) true) current w2
           = Ok (next, w2)
           /\ lookupField next "username" = Some g'
           /\ isValidating g' = false
           /\ errors g' = errors g ++ [mkError invalid_t (MString "Invalid value")].
Proof.
  exact (C6_promise_leaves_field_validating plainEnv usernameForm "username"
           (textField DependsOnNothing (Some resolvesFalseValidator) "")
           resolvesFalseValidator (VString "") true emptyWorld
           (mkWorld ∅ [] [TypeValidatorCalled "username" (VString "")])
           (Some (RBoolean true)) (Fulfilled (RBoolean false))
           eq_refl eq_refl eq_refl eq_refl eq_refl).
Defined.

(** What the code makes of a rejection that carries a non-empty message.
    [executeFieldValidatorAsync] returns the next field state, with nothing
    left pending and one [invalid] error that carries the message.  The
    handler that the synchronous path chains on the promise appends one
    [invalid] error, which carries [config.errorMessages.invalid] when it is
    configured and the rejection's message otherwise. *)
Lemma rejection_with_message (E : Env) (formFields : Fields) (n : string)
    (formField : Field) (validator : Validator) :
  lookupField formFields n = Some formField ->
  Config.validator (config formField) = Some validator ->
  (forall filteredValue w w0 vr w1 ch s,
     asyncFilteredValue formField w = Ok (filteredValue, w0) ->
     executeFieldTypeValidator E formFields n formField
       (sanitizeFieldValue E (Config.type (config formField)) filteredValue) w0
     = Ok (vr, w1) ->
     isNullOrTrue vr = true ->
     response (validator
                 (sanitizeFieldValue E (Config.type (config formField)) filteredValue)
                 (getFormValues E formFields))
     = Async (Rejected (ReasonError (String ch s))) ->
     exists f w',
       executeFieldValidatorAsync E n formFields w = Ok (f, w')
       /\ errors f
          = executeInternalFieldValidators E
              (sanitizeFieldValue E (Config.type (config formField)) filteredValue)
              (config formField) [] (getFormValues E formFields)
              ++ [mkError invalid_t (MString (String ch s))]
       /\ isValidating f = isValidating formField
       /\ pending w' = pending w)
  /\ (forall current g errorMessage,
     lookupField current n = Some g ->
     exists g',
       lookupField
         (handleFieldAsyncValidationResult n formField (Rejected (ReasonError errorMessage))
            current) n
       = Some g'
       /\ errors g'
          = errors g
              ++ [mkError invalid_t
                    match invalidMessage (config formField) with
                    | Some configured => configured
                    | None => MString errorMessage
                    end]).
Proof.
  intros Hl Hv. split.
  - intros fv w w0 vr w1 ch s H0 H1 Hvr Hresp.
    pose proof (asyncFilteredValue_world _ _ _ _ H0) as ->.
    destruct (executeFieldTypeValidator_Ok E formFields n formField
                (sanitizeFieldValue E (Config.type (config formField)) fv) w)
      as (vr' & w1' & H1' & Hpend & _ & _).
    rewrite H1 in H1'. injection H1' as <- <-.
    unfold executeFieldValidatorAsync, getField. rewrite Hl.
    rewrite (bind_eq _ _ w w formField) by reflexivity.
    rewrite (bind_eq _ _ _ _ _ H0).
    rewrite (bind_eq _ _ _ _ _ H1). rewrite Hvr, Hv.
    rewrite (bind_eq _ _ _ _ _ (callValidator_Ok _ _ _ _ _)). rewrite Hresp.
    unfold mret, M_ret. eexists _, _. split; [reflexivity|].
    split; [by rewrite getNextValidatedField_errors|].
    split; [by rewrite getNextValidatedField_isValidating|]. exact Hpend.
  - intros current g msg Hg.
    destruct (handleFieldAsyncValidationResult_lookup n formField g
                (Rejected (ReasonError msg)) current Hg) as (g' & Hg' & Herr & _).
    exists g'. split; [exact Hg'|]. rewrite Herr. simpl.
    by destruct (invalidMessage (config formField)).
Qed.

(** C7: the code departs from the rule in two places.

    The handler that [executeFieldValidator] chains on the promise is
    documented to add an error with the rejection reason.  On a field with a
    configured [invalid] message, whose validator rejects with the error
    ["boom"], it stores the configured message ["Bad"] and the rejection's
    message is lost; [executeFieldValidatorAsync], on the same field, stores
    ["boom"].

    [executeFieldValidatorAsync] reads the [message] of the reason inside its
    [catch] block.  When the promise rejects with [null] the read throws, and
    the exception leaves the function and [validateForm]; when it rejects
    with a value without [message] the field gets no error at all. *)
Theorem C7_handler_replaces_rejection_message :
  errors <$> lookupField
    (handleFieldAsyncValidationResult "code" configuredField
       (Rejected (ReasonError "boom")) configuredForm)
    "code"
  = Some [mkError invalid_t (MString "Bad")]
  /\ (exists f w',
        executeFieldValidatorAsync plainEnv "code" configuredForm emptyWorld = Ok (f, w')
        /\ errors f = [mkError invalid_t (MString "boom")])
  /\ executeFieldValidatorAsync plainEnv "code" (rejectingWith ReasonNullish) emptyWorld
     = Throw
  /\ validateForm plainEnv None None (rejectingWith ReasonNullish) emptyWorld = Throw
  /\ (exists f w',
        executeFieldValidatorAsync plainEnv "code" (rejectingWith ReasonOther) emptyWorld
        = Ok (f, w')
        /\ errors f = []).
Proof.
  split; [reflexivity|].
  split; [eexists _, _; split; [vm_compute; reflexivity|reflexivity]|].
  split; [vm_compute; reflexivity|].
  split; [vm_compute; reflexivity|].
  eexists _, _; split; [vm_compute; reflexivity|reflexivity].
Qed.

(** ** C1: errors and the clean value *)

Lemma getNextErredField_invariant (f : Field) (errs : list FieldError) :
  errorsImplyNoCleanValue (getNextErredField f errs).
Proof. unfold errorsImplyNoCleanValue. destruct errs; simpl; done. Qed.

Lemma getNextErrorsFreeField_invariant (f : Field) :
  errorsImplyNoCleanValue (getNextErrorsFreeField f).
Proof. unfold errorsImplyNoCleanValue. simpl. done. Qed.

Lemma getNextResetField_invariant (f : Field) (isResetToDefault : bool) :
  errorsImplyNoCleanValue (getNextResetField f isResetToDefault).
Proof. unfold errorsImplyNoCleanValue. simpl. done. Qed.

Lemma getNextValidatedField_invariant (errs : list FieldError)
    (vr : option ValidationResult) (f : Field) (v : Value) :
  errorsImplyNoCleanValue (getNextValidatedField errs vr f v).
Proof.
  unfold getNextValidatedField.
  destruct (handleFieldValidationResult errs (config f) vr) as [|e l] eqn:He; simpl.
  - unfold errorsImplyNoCleanValue. simpl. done.
  - apply getNextErredField_invariant.
Qed.

Lemma getNextSingleFieldState_invariant (f : Field) (v : Value) (isFormat : bool) :
  errorsImplyNoCleanValue f -> errorsImplyNoCleanValue (getNextSingleFieldState f v isFormat).
Proof. unfold errorsImplyNoCleanValue. simpl. done. Qed.

Lemma getNextAsyncValidatedField_invariant (f : Field) :
  errorsImplyNoCleanValue f -> errorsImplyNoCleanValue (getNextAsyncValidatedField f).
Proof. unfold errorsImplyNoCleanValue. simpl. done. Qed.

Lemma createField_invariant (c : Config.t) : errorsImplyNoCleanValue (createField c).
Proof. unfold errorsImplyNoCleanValue. simpl. done. Qed.

(** Validation in either variant returns a field that satisfies the
    invariant. *)
Lemma executeFieldValidator_invariant (E : Env) (formFields : Fields) (n : string)
    (v : Value) (fin : bool) (w w' : World) (f : Field) :
  executeFieldValidator E formFields n v fin w = Ok (f, w') -> errorsImplyNoCleanValue f.
Proof.
  unfold executeFieldValidator. intros H. inv_M H.
  destruct (isNullOrTrue a0).
  - destruct (Config.validator (config a)).
    + inv_M H. destruct a1; inv_M H; injection H as -> _;
        apply getNextValidatedField_invariant.
    + inv_M H. injection H as -> _. apply getNextValidatedField_invariant.
  - inv_M H. injection H as -> _. apply getNextValidatedField_invariant.
Qed.

Lemma executeFieldValidatorAsync_invariant (E : Env) (formFields : Fields) (n : string)
    (w w' : World) (f : Field) :
  executeFieldValidatorAsync E n formFields w = Ok (f, w') -> errorsImplyNoCleanValue f.
Proof.
  unfold executeFieldValidatorAsync. intros H. inv_M H.
  destruct (isNullOrTrue a1).
  - destruct (Config.validator (config a)).
    + inv_M H. destruct a2 as [r|[r|reason]];
        [| |destruct (reasonMessage reason); [|discriminate]];
        inv_M H; injection H as -> _; apply getNextValidatedField_invariant.
    + inv_M H. injection H as -> _. apply getNextValidatedField_invariant.
  - inv_M H. injection H as -> _. apply getNextValidatedField_invariant.
Qed.

(** C1, the failing input: every field of [emailForm] satisfies the
    invariant; after [addFormFieldErrors] has appended one error to the valid
    field, the field has an error and still holds its clean value.  (The
    sibling [setFormErrors] goes through [getNextErredField], which clears
    it.) *)
Theorem C1_addFormFieldErrors_keeps_cleanValue :
  (forall n f, lookupField emailForm n = Some f -> errorsImplyNoCleanValue f)
  /\ exists f,
       lookupField
         (addFormFieldErrors "email" [mkError server_t (MString "already taken")] emailForm)
         "email" = Some f
       /\ errors f = [mkError server_t (MString "already taken")]
       /\ cleanValue f = VString "a@b.c"
       /\ ~ errorsImplyNoCleanValue f.
Proof.
  split.
  - intros n f. unfold emailForm, lookupField.
    destruct (String.eqb "email" n); [|done].
    intros [= <-]. unfold errorsImplyNoCleanValue. simpl. done.
  - eexists. split; [reflexivity|]. split; [reflexivity|]. split; [reflexivity|].
    unfold errorsImplyNoCleanValue. simpl. intros H.
    assert (Hne : [mkError server_t (MString "already taken")] <> []) by done.
    specialize (H Hne). discriminate H.
Qed.

(** ** C8: the result of [validateForm] *)

Lemma executeFieldTypeValidator_result (E : Env) (fs : Fields) (n : string) (f : Field)
    (v : Value) (w w1 : World) (vr : option ValidationResult) :
  executeFieldTypeValidator E fs n f v w = Ok (vr, w1) ->
  vr = typeValidationResult E (getFormValues E fs) (config f) v.
Proof.
  unfold executeFieldTypeValidator, typeValidationResult.
  assert (Hrun : forall reply : ValidatorReply,
    (tell (TypeValidatorCalled n v) ≫= fun _ =>
     scheduleAll (schedules reply) ≫= fun _ =>
     match response reply with
     | Sync r => mret (Some r)
     | Async _ => mret None
     end) w = Ok (vr, w1) ->
    vr = match response reply with Sync r => Some r | Async _ => None end).
  { intros reply. unfold mbind, M_bind, tell. rewrite scheduleAll_Ok. simpl.
    destruct (response reply); intros H; apply ret_Ok in H; congruence. }
  destruct (checkIfFieldIsObject (config f) || checkIfFieldIsNestedForms (config f))%bool.
  { intros H. apply ret_Ok in H. congruence. }
  destruct (checkIfHoneyFormFieldIsInteractive (config f)); [apply Hrun|].
  destruct (checkIfFieldIsPassive (config f)); [apply Hrun|].
  intros H. apply ret_Ok in H. congruence.
Qed.

(** The errors of a re-validated field are those of this validation alone:
    they are computed from the configuration of the field, the value it
    holds and the form values. *)
Lemma executeFieldValidatorAsync_errors (E : Env) (fs : Fields) (n : string) (w w' : World)
    (f' : Field) :
  executeFieldValidatorAsync E n fs w = Ok (f', w') ->
  exists f v,
    lookupField fs n = Some f
    /\ asyncFilteredValue f w = Ok (v, w)
    /\ awaitedErrors E (getFormValues E fs) (config f) v = Some (errors f').
Proof.
  unfold executeFieldValidatorAsync. intros H.
  apply bind_Ok in H as (f & w0 & Hget & H). apply getField_Ok in Hget as [Hf ->].
  apply bind_Ok in H as (fv & w1 & Hfv & H).
  pose proof (asyncFilteredValue_world _ _ _ _ Hfv) as ->.
  apply bind_Ok in H as (vr & w2 & Hvr & H).
  apply executeFieldTypeValidator_result in Hvr as ->.
  exists f, fv. split; [done|]. split; [done|]. unfold awaitedErrors.
  destruct (isNullOrTrue _).
  - destruct (Config.validator (config f)).
    + apply bind_Ok in H as (resp & w3 & Hresp & H).
      rewrite callValidator_Ok in Hresp. injection Hresp as <- _.
      destruct (response _) as [r|[r|reason]];
        [| |destruct (reasonMessage reason); [|discriminate]];
        apply ret_Ok in H; injection H as -> _;
        by rewrite getNextValidatedField_errors.
    + apply ret_Ok in H. injection H as -> _.
      by rewrite getNextValidatedField_errors.
  - apply ret_Ok in H. injection H as -> _. by rewrite getNextValidatedField_errors.
Qed.

Lemma skipped_fold_lookup (validated : string -> bool) (formFields : Fields)
    (ks : list string) (acc : Fields) (n : string) :
  lookupField
    (fold_left
       (fun next fieldName =>
          if validated fieldName then next
          else
            match lookupField formFields fieldName with
            | Some formField => setField next fieldName (getNextErrorsFreeField formField)
            | None => next
            end) ks acc) n
  = if (existsb (String.eqb n) ks && negb (validated n))%bool
    then match lookupField formFields n with
         | Some f => Some (getNextErrorsFreeField f)
         | None => lookupField acc n
         end
    else lookupField acc n.
Proof.
  revert acc. induction ks as [|k rest IH]; intros acc; simpl; [done|].
  rewrite IH. clear IH.
  destruct (String.eqb_spec n k) as [->|Hnk]; simpl.
  - destruct (validated k) eqn:Hv; simpl; [by rewrite andb_false_r|].
    rewrite andb_true_r.
    destruct (lookupField formFields k) as [f|] eqn:Hf; [|by destruct (existsb _ _)].
    rewrite lookupField_setField_eq. by destruct (existsb _ _).
  - destruct (validated k) eqn:Hv; [done|].
    destruct (lookupField formFields k) as [f|] eqn:Hf; [|done].
    rewrite lookupField_setField_ne by congruence. done.
Qed.

Lemma NoDup_List_filter {A : Type} (p : A -> bool) (l : list A) :
  NoDup l -> NoDup (List.filter p l).
Proof.
  induction 1 as [|x l Hx Hnd IH]; simpl; [constructor|].
  destruct (p x); [|done]. constructor; [|done].
  rewrite list_elem_of_In, filter_In. rewrite list_elem_of_In in Hx. tauto.
Qed.

Lemma hasBlockingError_false (f : Field) :
  hasBlockingError f = false <-> forall e, In e (errors f) -> type e = server_t.
Proof.
  unfold hasBlockingError. rewrite <- not_true_iff_false, existsb_exists. split.
  - intros Hno e He. destruct (type e) eqn:Ht; try done;
      exfalso; apply Hno; exists e; (split; [done|]); unfold isServerError; by rewrite Ht.
  - intros Hall (e & He & Hne). apply Hall in He.
    unfold isServerError in Hne. by rewrite He in Hne.
Qed.

Lemma validateFields_spec (E : Env) (formFields : Fields) (names : list string) :
  NoDup names ->
  forall (h0 : bool) (next0 : Fields) (w : World) (h : bool) (next : Fields) (w' : World),
  validateFields E formFields names h0 next0 w = Ok ((h, next), w') ->
  h = (h0 || existsb
              (fun n =>
                 match lookupField formFields n, lookupField next n with
                 | Some f, Some f' => runChildFormsValidation E f || hasBlockingError f'
                 | _, _ => false
                 end) names)%bool
  /\ (forall n, ~ In n names -> lookupField next n = lookupField next0 n)
  /\ (forall n, In n names ->
        exists f' w1 w2,
          executeFieldValidatorAsync E n formFields w1 = Ok (f', w2)
          /\ lookupField next n = Some f').
Proof.
  induction 1 as [|k rest Hk Hnd IH]; intros h0 next0 w h next w' H; simpl in H.
  2: rewrite list_elem_of_In in Hk.
  - apply ret_Ok in H. injection H as <- <- <-. simpl. rewrite orb_false_r.
    split; [done|]. split; [done|]. intros n [].
  - inv_M H. apply getField_Ok in Hm as [Hf ->]. simpl in Hf.
    apply IH in H as (Hh & Hout & Hin).
    assert (Hnext : lookupField next k = Some a0).
    { rewrite (Hout k Hk). apply lookupField_setField_eq. }
    split; [|split].
    + rewrite Hh. simpl. rewrite Hf, Hnext. unfold hasBlockingError.
      destruct (runChildFormsValidation E a), h0,
        (existsb (fun fieldError => negb (isServerError fieldError)) (errors a0)); done.
    + intros n Hn. rewrite Hout by (intros ?; apply Hn; by right).
      apply lookupField_setField_ne. intros ->. apply Hn. by left.
    + intros n [<-|Hn]; [|by apply Hin].
      eexists _, _, _. split; [exact Hm0|exact Hnext].
Qed.

(** What a pass of [validateForm] that returns has done. *)
Lemma validateForm_spec (E : Env) (targetFields excludeFields : option (list string))
    (formFields : Fields) (w w' : World) (isValid : bool)
    (nextFormFields : Fields) :
  NoDup (keys formFields) ->
  validateForm E targetFields excludeFields formFields w = Ok ((isValid, nextFormFields), w') ->
  (isValid = true <->
     (forall n f', isFieldValidated E targetFields excludeFields formFields
                     (getFormValues E formFields) n = true ->
        lookupField nextFormFields n = Some f' ->
        forall e, In e (errors f') -> type e = server_t)
     /\ (forall n f, isFieldValidated E targetFields excludeFields formFields
                       (getFormValues E formFields) n = true ->
        lookupField formFields n = Some f -> runChildFormsValidation E f = false))
  /\ (forall n f, lookupField formFields n = Some f ->
        isFieldValidated E targetFields excludeFields formFields
          (getFormValues E formFields) n = false ->
        lookupField nextFormFields n = Some (getNextErrorsFreeField f))
  /\ (forall n, In n (keys formFields) ->
        isFieldValidated E targetFields excludeFields formFields
          (getFormValues E formFields) n = true ->
        exists f' w1 w2,
          executeFieldValidatorAsync E n formFields w1 = Ok (f', w2)
          /\ lookupField nextFormFields n = Some f').
Proof.
  intros Hnd H. unfold validateForm in H.
  set (validated := isFieldValidated E targetFields excludeFields formFields
                      (getFormValues E formFields)) in *.
  inv_M H. destruct a as [hasErrors next]. apply ret_Ok in H.
  injection H as -> -> ->.
  apply validateFields_spec in Hm as (Hh & Hout & Hin);
    [|by apply NoDup_List_filter].
  simpl in Hh.
  assert (Hkeys : forall n, In n (List.filter validated (keys formFields))
                            <-> In n (keys formFields) /\ validated n = true).
  { intros n. apply filter_In. }
  pose proof hasBlockingError_false as Hblock.
  split; [|split].
  - rewrite Hh. rewrite negb_true_iff. split.
    + intros Hex. split.
      * intros n f' Hv Hn.
        destruct (lookupField formFields n) as [f|] eqn:Hf.
        -- apply Hblock. apply not_true_is_false. intros Hb.
           assert (Hin' : In n (List.filter validated (keys formFields))).
           { apply Hkeys. split; [by eapply lookupField_Some_keys|done]. }
           enough (existsb
             (fun n0 => match lookupField formFields n0, lookupField next n0 with
                        | Some f0, Some f'0 =>
                            (runChildFormsValidation E f0 || hasBlockingError f'0)%bool
                        | _, _ => false
                        end) (List.filter validated (keys formFields)) = true) by congruence.
           apply existsb_exists. exists n. split; [done|].
           rewrite Hf, Hn, Hb. apply orb_true_r.
        -- exfalso. rewrite Hout in Hn.
           ++ rewrite skipped_fold_lookup in Hn. rewrite Hv in Hn.
              rewrite andb_false_r in Hn. discriminate.
           ++ intros Hin'. apply Hkeys in Hin' as [Hk _].
              apply keys_lookupField in Hk as [f Hf']. congruence.
      * intros n f Hv Hf. apply not_true_is_false. intros Hc.
        assert (Hin' : In n (List.filter validated (keys formFields))).
        { apply Hkeys. split; [by eapply lookupField_Some_keys|done]. }
        destruct (Hin n Hin') as (f' & _ & _ & _ & Hn).
        enough (existsb
          (fun n0 => match lookupField formFields n0, lookupField next n0 with
                     | Some f0, Some f'0 =>
                         (runChildFormsValidation E f0 || hasBlockingError f'0)%bool
                     | _, _ => false
                     end) (List.filter validated (keys formFields)) = true) by congruence.
        apply existsb_exists. exists n. split; [done|].
        by rewrite Hf, Hn, Hc.
    + intros [Herr Hchild]. apply not_true_is_false. intros Hex.
      apply existsb_exists in Hex as (n & Hn & Hbad).
      apply Hkeys in Hn as [Hk Hv].
      destruct (lookupField formFields n) as [f|] eqn:Hf; [|done].
      destruct (lookupField next n) as [f'|] eqn:Hf'; [|done].
      rewrite (Hchild n f Hv Hf) in Hbad. simpl in Hbad.
      assert (hasBlockingError f' = false) by (apply Hblock; by eapply Herr).
      congruence.
  - intros n f Hf Hv. rewrite Hout.
    + rewrite skipped_fold_lookup. rewrite Hv, Hf. simpl. rewrite andb_true_r.
      assert (existsb (String.eqb n) (keys formFields) = true) as ->; [|done].
      apply existsb_exists. exists n. split; [by eapply lookupField_Some_keys|].
      apply String.eqb_refl.
    + intros Hin'. apply Hkeys in Hin' as [_ Hv']. congruence.
  - intros n Hk Hv. apply Hin. by apply Hkeys.
Qed.

(** ** The dependency resolver: what a pass can change *)

Lemma getNextResetField_idempotent (f : Field) :
  getNextResetField (getNextResetField f false) false = getNextResetField f false.
Proof.
  destruct f as [c errs dv rv cv v iv p pp op cf init].
  destruct c as [ty req cdv dep em val fil fmt].
  destruct ty; reflexivity.
Qed.

Lemma sameOrCleared_refl (f : Field) : sameOrCleared f f.
Proof. by left. Qed.

Lemma sameOrCleared_trans (f g h : Field) :
  sameOrCleared f g -> sameOrCleared g h -> sameOrCleared f h.
Proof.
  intros [->| ->] [->| ->]; [by left|by right|by right|].
  right. apply getNextResetField_idempotent.
Qed.

Lemma sameOrCleared_config (f f' : Field) : sameOrCleared f f' -> config f' = config f.
Proof. by intros [->| ->]. Qed.

Lemma sameOrCleared_reset (f f' : Field) :
  sameOrCleared f f' -> getNextResetField f' false = getNextResetField f false.
Proof. intros [->| ->]; [done|apply getNextResetField_idempotent]. Qed.

Lemma cleared_stays (f f' : Field) :
  sameOrCleared (getNextResetField f false) f' -> f' = getNextResetField f false.
Proof. intros [->| ->]; [done|apply getNextResetField_idempotent]. Qed.

Lemma clearsSomeOf_refl (formFields : Fields) : clearsSomeOf formFields formFields.
Proof. split; [done|]. intros n f H. exists f. split; [done|apply sameOrCleared_refl]. Qed.

Lemma clearsSomeOf_trans (fs1 fs2 fs3 : Fields) :
  clearsSomeOf fs1 fs2 -> clearsSomeOf fs2 fs3 -> clearsSomeOf fs1 fs3.
Proof.
  intros [Hk1 H1] [Hk2 H2]. split; [congruence|].
  intros n f Hf. destruct (H1 n f Hf) as (g & Hg & Hfg).
  destruct (H2 n g Hg) as (h & Hh & Hgh). exists h. split; [done|].
  by eapply sameOrCleared_trans.
Qed.

Lemma clearsSomeOf_setField (formFields : Fields) (n : string) (f : Field) :
  lookupField formFields n = Some f ->
  clearsSomeOf formFields (setField formFields n (getNextResetField f false)).
Proof.
  intros Hf. split; [by eapply keys_setField|].
  intros m g Hg. destruct (String.eqb_spec n m) as [<-|Hne].
  - rewrite lookupField_setField_eq. eexists. split; [done|].
    right. congruence.
  - rewrite lookupField_setField_ne by done. exists g. split; [done|by left].
Qed.

Lemma clearsSomeOf_lookup_None (fs fs' : Fields) (n : string) :
  clearsSomeOf fs fs' -> lookupField fs n = None -> lookupField fs' n = None.
Proof.
  intros [Hk _] Hn. destruct (lookupField fs' n) as [f'|] eqn:Hf'; [|done].
  apply lookupField_Some_keys in Hf'. rewrite Hk in Hf'.
  apply keys_lookupField in Hf' as [f Hf]. congruence.
Qed.

Lemma onlyScans_refl (w : World) : onlyScans w w.
Proof. split; [done|]. split; [done|]. exists []. by rewrite app_nil_r. Qed.

Lemma onlyScans_trans (w1 w2 w3 : World) :
  onlyScans w1 w2 -> onlyScans w2 w3 -> onlyScans w1 w3.
Proof.
  intros (Hs1 & Hp1 & e1 & Ht1 & Hf1) (Hs2 & Hp2 & e2 & Ht2 & Hf2).
  split; [congruence|]. split; [congruence|].
  exists (e1 ++ e2). split; [by rewrite Ht2, Ht1, app_assoc|by apply Forall_app].
Qed.

Lemma forEachKey_app (l1 l2 : list string) (callback : string -> Fields -> M Fields)
    (formFields : Fields) (w : World) :
  forEachKey (l1 ++ l2) callback formFields w
  = (forEachKey l1 callback formFields ≫= forEachKey l2 callback) w.
Proof.
  revert formFields w. induction l1 as [|n rest IH]; intros formFields w; simpl.
  - reflexivity.
  - unfold mbind, M_bind.
    destruct (callback n formFields w) as [[fs1 w1]| |]; [|done..].
    apply IH.
Qed.

(** A loop keeps what each call of its callback keeps. *)
Lemma forEachKey_inv (P : Fields -> World -> Prop) (names : list string)
    (callback : string -> Fields -> M Fields) :
  (forall n fs w fs' w', In n names -> P fs w -> callback n fs w = Ok (fs', w') -> P fs' w') ->
  forall fs w fs' w', P fs w -> forEachKey names callback fs w = Ok (fs', w') -> P fs' w'.
Proof.
  induction names as [|n rest IH]; intros Hcb fs w fs' w' HP H; simpl in H.
  - apply ret_Ok in H. by injection H as -> ->.
  - apply bind_Ok in H as (fs1 & w1 & H1 & H2).
    eapply IH; [| |exact H2].
    + intros m fs2 w2 fs3 w3 Hm. apply Hcb. by right.
    + eapply Hcb; [by left|exact HP|exact H1].
Qed.

Lemma resetIfDependent_clears (E : Env)
    (recurse : Fields -> string -> option string -> M Fields) (t i other : string)
    (fs fs' : Fields) (w w' : World) :
  (forall fs t i w fs' w',
     recurse fs t i w = Ok (fs', w') -> clearsSomeOf fs fs' /\ onlyScans w w') ->
  resetIfDependent E recurse t i other fs w = Ok (fs', w') ->
  clearsSomeOf fs fs' /\ onlyScans w w'.
Proof.
  intros Hrec H. unfold resetIfDependent in H.
  destruct (String.eqb other t).
  { apply ret_Ok in H. injection H as -> ->.
    split; [apply clearsSomeOf_refl|apply onlyScans_refl]. }
  inv_M H. apply getField_Ok in Hm as [Hf ->].
  destruct (isDependentField E fs a t i).
  - pose proof (clearsSomeOf_setField fs other a Hf) as Hset.
    destruct (negb (String.eqb other i)).
    + apply Hrec in H as [Hc Hw]. split; [by eapply clearsSomeOf_trans|done].
    + apply ret_Ok in H. injection H as -> ->. split; [done|apply onlyScans_refl].
  - apply ret_Ok in H. injection H as -> ->.
    split; [apply clearsSomeOf_refl|apply onlyScans_refl].
Qed.

Lemma forEachKey_clears (E : Env)
    (recurse : Fields -> string -> option string -> M Fields) (t i : string)
    (names : list string) (fs fs' : Fields) (w w' : World) :
  (forall fs t i w fs' w',
     recurse fs t i w = Ok (fs', w') -> clearsSomeOf fs fs' /\ onlyScans w w') ->
  forEachKey names (resetIfDependent E recurse t i) fs w = Ok (fs', w') ->
  clearsSomeOf fs fs' /\ onlyScans w w'.
Proof.
  intros Hrec H.
  apply (forEachKey_inv (fun fs1 w1 => clearsSomeOf fs fs1 /\ onlyScans w w1) names
           (resetIfDependent E recurse t i)) with (fs := fs) (w := w); [| |exact H].
  - intros n fs1 w1 fs2 w2 _ [Hc Hw] Hstep.
    apply (resetIfDependent_clears E recurse) in Hstep as [Hc' Hw']; [|exact Hrec].
    split; [by eapply clearsSomeOf_trans|by eapply onlyScans_trans].
  - split; [apply clearsSomeOf_refl|apply onlyScans_refl].
Qed.

Lemma tell_scan_onlyScans (t i : string) (w : World) :
  onlyScans w (mkWorld (scheduled w) (pending w) (trace w ++ [DependentsScanned t i])).
Proof.
  split; [done|]. split; [done|]. eexists. split; [reflexivity|].
  by repeat constructor.
Qed.

(** A pass only clears fields, and only logs scans. *)
Lemma resetDependentFields_clears (E : Env) (fuel : nat) :
  forall fs t i w fs' w',
    resetDependentFields E fuel fs t i w = Ok (fs', w') ->
    clearsSomeOf fs fs' /\ onlyScans w w'.
Proof.
  induction fuel as [|fuel IH]; intros fs t i w fs' w' H; simpl in H; [discriminate|].
  apply bind_Ok in H as ([] & w1 & Htell & H).
  unfold tell in Htell. injection Htell as <-.
  unfold forEachFormField in H.
  apply (forEachKey_clears E _ _ _ _ _ _ _ _ IH) in H as [Hc Hw].
  split; [done|]. eapply onlyScans_trans; [apply tell_scan_onlyScans|exact Hw].
Qed.
(** ** C2: the fields a pass clears *)

Lemma declaresDependency_isDependent (E : Env) (fs : Fields) (f : Field) (t i : string) :
  declaresDependency (config f) t i -> isDependentField E fs f t i = true.
Proof.
  unfold declaresDependency, isDependentField.
  destruct (Config.dependsOn (config f)) as [|n|l|fn]; [done| | |].
  - intros ->. apply String.eqb_refl.
  - intros Hin. apply existsb_exists. exists t. split; [done|apply String.eqb_refl].
  - intros Hfn. apply Hfn.
Qed.

Lemma namesDependency_isDependent (E : Env) (fs : Fields) (f : Field) (t i : string) :
  namesDependency (config f) t -> isDependentField E fs f t i = true.
Proof.
  unfold namesDependency, isDependentField.
  destruct (Config.dependsOn (config f)) as [|n|l|fn]; [done| | |done].
  - intros ->. apply String.eqb_refl.
  - intros Hin. apply existsb_exists. exists t. split; [done|apply String.eqb_refl].
Qed.

(** The visit of a dependent [d] in the loop of a scan: the state before and
    after the call of the callback for [d]. *)
Lemma forEachKey_visit (names : list string) (callback : string -> Fields -> M Fields)
    (d : string) (fs fs' : Fields) (w w' : World) :
  In d names ->
  forEachKey names callback fs w = Ok (fs', w') ->
  exists pre post fsA wA fsB wB,
    names = pre ++ d :: post
    /\ forEachKey pre callback fs w = Ok (fsA, wA)
    /\ callback d fsA wA = Ok (fsB, wB)
    /\ forEachKey post callback fsB wB = Ok (fs', w').
Proof.
  intros Hin H. apply in_split in Hin as (pre & post & ->).
  rewrite forEachKey_app in H. apply bind_Ok in H as (fsA & wA & HA & H).
  simpl in H. apply bind_Ok in H as (fsB & wB & HB & H).
  by exists pre, post, fsA, wA, fsB, wB.
Qed.

Lemma bind_ret_r {A : Type} (m : M A) (w : World) : (m ≫= mret) w = m w.
Proof. unfold mbind, M_bind, mret, M_ret. by destruct (m w) as [[a w']| |]. Qed.

(** A pass is the scan over all the keys. *)
Lemma scanUpTo_keys (E : Env) (fuel : nat) (fs : Fields) (t : string) (i0 : option string) :
  resetDependentFields E fuel fs t i0 = scanUpTo E fuel fs t i0 (keys fs).
Proof. by destruct fuel. Qed.

(** What the visit of a field makes of a field it finds dependent. *)
Lemma resetIfDependent_found (E : Env)
    (recurse : Fields -> string -> option string -> M Fields) (t i d : string)
    (fs : Fields) (w : World) (g : Field) :
  d <> t ->
  lookupField fs d = Some g ->
  isDependentField E fs g t i = true ->
  resetIfDependent E recurse t i d fs w
  = if String.eqb d i then Ok (setField fs d (getNextResetField g false), w)
    else recurse (setField fs d (getNextResetField g false)) d (Some t) w.
Proof.
  intros Hdt Hg Hdep. unfold resetIfDependent.
  destruct (String.eqb_spec d t); [contradiction|].
  unfold getField. rewrite Hg. rewrite (bind_eq _ _ _ _ _ eq_refl). rewrite Hdep.
  by destruct (String.eqb d i).
Qed.

Lemma scanUpTo_snoc (E : Env) (fuel : nat) (fs : Fields) (t : string) (i0 : option string)
    (names : list string) (d : string) (w : World) (reached : Fields) (wR : World) :
  scanUpTo E (S fuel) fs t i0 names w = Ok (reached, wR) ->
  scanUpTo E (S fuel) fs t i0 (names ++ [d]) w
  = resetIfDependent E (resetDependentFields E fuel) t (orFieldName i0 t) d reached wR.
Proof.
  simpl. intros H. apply bind_Ok in H as ([] & w1 & Htell & H).
  rewrite (bind_eq _ _ _ _ _ Htell). rewrite forEachKey_app.
  rewrite (bind_eq _ _ _ _ _ H). simpl. apply bind_ret_r.
Qed.

(** *** Scans logged between two worlds *)

Lemma onlyScans_extends (w w' : World) :
  onlyScans w w' -> exists evs, trace w' = trace w ++ evs.
Proof. intros (_ & _ & evs & H & _). eauto. Qed.

Lemma scanned_irrefl (w : World) (x : string) : ~ scanned w w x.
Proof.
  intros (i & evs & H & Hin).
  rewrite <- (app_nil_r (trace w)) in H at 1. apply app_inv_head in H. by subst.
Qed.

Lemma scanned_later (w1 w2 w3 : World) (x : string) :
  scanned w1 w2 x -> onlyScans w2 w3 -> scanned w1 w3 x.
Proof.
  intros (i & evs & H & Hin) Hext. apply onlyScans_extends in Hext as [evs' H'].
  exists i, (evs ++ evs'). split; [by rewrite H', H, app_assoc|].
  apply in_or_app. by left.
Qed.

Lemma scanned_earlier (w1 w2 w3 : World) (x : string) :
  onlyScans w1 w2 -> scanned w2 w3 x -> scanned w1 w3 x.
Proof.
  intros Hext (i & evs & H & Hin). apply onlyScans_extends in Hext as [evs' H'].
  exists i, (evs' ++ evs). split; [by rewrite H, H', app_assoc|].
  apply in_or_app. by right.
Qed.

Lemma scanned_split (w1 w2 w3 : World) (x : string) :
  onlyScans w1 w2 -> onlyScans w2 w3 -> scanned w1 w3 x ->
  scanned w1 w2 x \/ scanned w2 w3 x.
Proof.
  intros H12 H23 (i & evs & H & Hin).
  apply onlyScans_extends in H12 as [e12 H12].
  apply onlyScans_extends in H23 as [e23 H23].
  rewrite H23, H12, <- app_assoc in H. apply app_inv_head in H. subst evs.
  apply in_app_or in Hin as [Hin|Hin]; [left; by exists i, e12|right; by exists i, e23].
Qed.

Lemma resetDependentFields_first_event (E : Env) (fuel : nat) (fs : Fields) (t : string)
    (i0 : option string) (w : World) (fs' : Fields) (w' : World) :
  resetDependentFields E fuel fs t i0 w = Ok (fs', w') ->
  exists evs, trace w' = trace w ++ DependentsScanned t (orFieldName i0 t) :: evs.
Proof.
  destruct fuel as [|fuel]; simpl; [discriminate|]. intros H.
  apply bind_Ok in H as ([] & w1 & Htell & H). unfold tell in Htell. injection Htell as <-.
  unfold forEachFormField in H.
  apply (forEachKey_clears E _ _ _ _ _ _ _ _ (resetDependentFields_clears E fuel)) in H
    as [_ (_ & _ & evs & Htr & _)].
  exists evs. rewrite Htr. simpl. by rewrite <- app_assoc.
Qed.

Lemma resetDependentFields_scanned (E : Env) (fuel : nat) (fs : Fields) (t : string)
    (i0 : option string) (w : World) (fs' : Fields) (w' : World) :
  resetDependentFields E fuel fs t i0 w = Ok (fs', w') -> scanned w w' t.
Proof.
  intros H. apply resetDependentFields_first_event in H as [evs H].
  exists (orFieldName i0 t), (DependentsScanned t (orFieldName i0 t) :: evs).
  split; [exact H|by left].
Qed.

(** *** One visit *)

(** The visit of a field that is found dependent clears it; unless the
    field is the initiator, a scan from it is logged. *)
Lemma found_is_cleared (E : Env) (fuel : nat) (t i d : string) (fsA fsB : Fields)
    (wA wB : World) (g : Field) :
  d <> t ->
  lookupField fsA d = Some g ->
  isDependentField E fsA g t i = true ->
  resetIfDependent E (resetDependentFields E fuel) t i d fsA wA = Ok (fsB, wB) ->
  lookupField fsB d = Some (getNextResetField g false)
  /\ (d = i \/ scanned wA wB d).
Proof.
  intros Hdt Hg Hdep H. rewrite (resetIfDependent_found _ _ _ _ _ _ _ _ Hdt Hg Hdep) in H.
  destruct (String.eqb_spec d i) as [->|Hdi].
  - injection H as <- <-. split; [apply lookupField_setField_eq|by left].
  - split; [|right; by eapply resetDependentFields_scanned].
    apply resetDependentFields_clears in H as [[_ Hl] _].
    destruct (Hl d _ (lookupField_setField_eq _ _ _)) as (h & Hh & Hsame).
    apply cleared_stays in Hsame. by subst h.
Qed.

(** A pass, cut at the visit of one of its keys. *)
Lemma pass_visit (E : Env) (fuel : nat) (fs : Fields) (t : string) (i0 : option string)
    (w : World) (fs' : Fields) (w' : World) (pre : list string) (d : string)
    (post : list string) :
  resetDependentFields E fuel fs t i0 w = Ok (fs', w') ->
  keys fs = pre ++ d :: post ->
  exists fuel' fsA wA fsB wB,
    fuel = S fuel'
    /\ scanUpTo E fuel fs t i0 pre w = Ok (fsA, wA)
    /\ resetIfDependent E (resetDependentFields E fuel') t (orFieldName i0 t) d fsA wA
       = Ok (fsB, wB)
    /\ clearsSomeOf fs fsA
    /\ clearsSomeOf fsB fs'
    /\ onlyScans w wA /\ onlyScans wA wB /\ onlyScans wB w'.
Proof.
  destruct fuel as [|fuel]; simpl; [discriminate|]. intros H Hk.
  pose proof (resetDependentFields_clears E fuel) as Hrec.
  apply bind_Ok in H as ([] & w1 & Htell & H). unfold forEachFormField in H.
  rewrite Hk, forEachKey_app in H. apply bind_Ok in H as (fsA & wA & HA & H).
  simpl in H. apply bind_Ok in H as (fsB & wB & HB & Hpost).
  exists fuel, fsA, wA, fsB, wB. split; [done|].
  split; [by rewrite (bind_eq _ _ _ _ _ Htell)|]. split; [exact HB|].
  unfold tell in Htell. injection Htell as <-.
  pose proof (forEachKey_clears E _ _ _ _ _ _ _ _ Hrec HA) as [HcA HwA].
  pose proof (forEachKey_clears E _ _ _ _ _ _ _ _ Hrec Hpost) as [HcP HwP].
  pose proof (resetIfDependent_clears E _ _ _ _ _ _ _ _ Hrec HB) as [_ HwB].
  split; [exact HcA|]. split; [exact HcP|].
  split; [|by split]. eapply onlyScans_trans; [apply tell_scan_onlyScans|exact HwA].
Qed.

Lemma cleared_until_the_end (fsB fs' : Fields) (d : string) (f g : Field) :
  clearsSomeOf fsB fs' ->
  sameOrCleared f g ->
  lookupField fsB d = Some (getNextResetField g false) ->
  lookupField fs' d = Some (getNextResetField f false).
Proof.
  intros [_ Hl] Hsame HdB. destruct (Hl d _ HdB) as (h & Hh & Hgh).
  apply cleared_stays in Hgh. rewrite Hh, Hgh. f_equal. by apply sameOrCleared_reset.
Qed.

(** A scan clears each field for which the declaration holds when the scan
    comes to it; the declaration is evaluated with the clean value that the
    field had when the scan started. *)
Lemma resetDependentFields_direct (E : Env) (fuel : nat) (fs : Fields) (t : string)
    (i0 : option string) (w : World) (fs' : Fields) (w' : World) (pre : list string)
    (d : string) (post : list string) (f : Field) :
  resetDependentFields E fuel fs t i0 w = Ok (fs', w') ->
  keys fs = pre ++ d :: post ->
  d <> t ->
  lookupField fs d = Some f ->
  exists reached wR,
    scanUpTo E fuel fs t i0 pre w = Ok (reached, wR)
    /\ clearsSomeOf fs reached
    /\ (isDependentField E reached f t (orFieldName i0 t) = true ->
        lookupField fs' d = Some (getNextResetField f false)).
Proof.
  intros H Hk Hdt Hf.
  destruct (pass_visit E fuel fs t i0 w fs' w' pre d post H Hk)
    as (fuel' & fsA & wA & fsB & wB & -> & HA & HB & HcA & HcP & _).
  exists fsA, wA. split; [exact HA|]. split; [exact HcA|]. intros Hdep.
  destruct HcA as [HkA HlA]. destruct (HlA d f Hf) as (g & Hg & Hsame).
  destruct Hsame as [->| ->].
  - apply (cleared_until_the_end fsB fs' d f f HcP (sameOrCleared_refl f)).
    by apply (found_is_cleared E fuel' t (orFieldName i0 t) d fsA fsB wA wB f).
  - (* an earlier visit has cleared the field already *)
    pose proof (resetIfDependent_clears E _ _ _ _ _ _ _ _
                  (resetDependentFields_clears E fuel') HB) as [[_ HlB] _].
    destruct (HlB d _ Hg) as (h & Hh & Hsame). apply cleared_stays in Hsame. subst h.
    by apply (cleared_until_the_end fsB fs' d f f HcP (sameOrCleared_refl f)).
Qed.

(** A scan clears each field that names or lists its trigger, and scans
    from it unless it is the initiator. *)
Lemma resetDependentFields_named (E : Env) (fuel : nat) (fs : Fields) (t : string)
    (i0 : option string) (w : World) (fs' : Fields) (w' : World) (y : string) (fy : Field) :
  resetDependentFields E fuel fs t i0 w = Ok (fs', w') ->
  y <> t ->
  lookupField fs y = Some fy ->
  namesDependency (config fy) t ->
  lookupField fs' y = Some (getNextResetField fy false)
  /\ (y = orFieldName i0 t \/ scanned w w' y).
Proof.
  intros H Hyt Hfy Hdep.
  destruct (in_split _ _ (lookupField_Some_keys _ _ _ Hfy)) as (pre & post & Hk).
  destruct (pass_visit E fuel fs t i0 w fs' w' pre y post H Hk)
    as (fuel' & fsA & wA & fsB & wB & -> & HA & HB & HcA & HcP & HwA & HwB & HwP).
  destruct HcA as [HkA HlA]. destruct (HlA y fy Hfy) as (g & Hg & Hsame).
  destruct (found_is_cleared E fuel' t (orFieldName i0 t) y fsA fsB wA wB g Hyt Hg)
    as [Hcleared Hscan]; [|exact HB|].
  { apply namesDependency_isDependent. by rewrite (sameOrCleared_config _ _ Hsame). }
  split; [by eapply cleared_until_the_end|].
  destruct Hscan as [->|Hscan]; [by left|right].
  eapply scanned_later; [|exact HwP]. by eapply scanned_earlier.
Qed.

(** *** The recursion *)

(** Every field is the initiator of the scan, or the trigger of a scan that
    the call has logged, or is left as it is. *)
Lemma resetDependentFields_changes (E : Env) (fuel : nat) :
  forall fs t i0 w fs' w',
    resetDependentFields E fuel fs t i0 w = Ok (fs', w') ->
    forall x,
      x = orFieldName i0 t \/ scanned w w' x \/ lookupField fs' x = lookupField fs x.
Proof.
  induction fuel as [|fuel IH]; intros fs t i0 w fs' w' H x; [discriminate|].
  pose proof (resetDependentFields_scanned E _ _ _ _ _ _ _ H) as Hhead.
  simpl in H. set (i := orFieldName i0 t) in *.
  apply bind_Ok in H as ([] & w1 & Htell & H). unfold forEachFormField in H.
  assert (Hw1 : onlyScans w w1).
  { unfold tell in Htell. injection Htell as <-. apply tell_scan_onlyScans. }
  pose proof (resetDependentFields_clears E fuel) as Hrec.
  assert (Hloop : onlyScans w1 w'
                  /\ (x = i \/ x = t \/ scanned w1 w' x
                      \/ lookupField fs' x = lookupField fs x)).
  { apply (forEachKey_inv
             (fun fs1 w2 => onlyScans w1 w2
                /\ (x = i \/ x = t \/ scanned w1 w2 x
                    \/ lookupField fs1 x = lookupField fs x))
             (keys fs) (resetIfDependent E (resetDependentFields E fuel) t i))
      with (fs := fs) (w := w1); [| |exact H].
    2: { split; [apply onlyScans_refl|]. by do 3 right. }
    intros d fs1 w2 fs2 w3 _ [Hw2 Hx] Hstep.
    pose proof (resetIfDependent_clears E _ _ _ _ _ _ _ _ Hrec Hstep) as [_ Hw3].
    split; [by eapply onlyScans_trans|].
    destruct Hx as [Hx|[Hx|[Hx|Hx]]];
      [by left|right; by left|right; right; left; by eapply scanned_later|].
    unfold resetIfDependent in Hstep.
    destruct (String.eqb_spec d t) as [->|Hdt].
    { apply ret_Ok in Hstep. injection Hstep as <- <-. by do 3 right. }
    apply bind_Ok in Hstep as (g & w2' & Hget & Hstep).
    apply getField_Ok in Hget as [Hg ->].
    destruct (isDependentField E fs1 g t i);
      [|apply ret_Ok in Hstep; injection Hstep as <- <-; by do 3 right].
    destruct (String.eqb_spec d i) as [->|Hdi]; simpl in Hstep.
    - apply ret_Ok in Hstep. injection Hstep as -> ->.
      destruct (String.eqb_spec i x) as [<-|Hne]; [by left|].
      do 3 right. by rewrite lookupField_setField_ne.
    - pose proof (resetDependentFields_scanned E _ _ _ _ _ _ _ Hstep) as Hd.
      destruct (String.eqb_spec d x) as [<-|Hne].
      { right; right; left. by eapply scanned_earlier. }
      destruct (IH _ _ _ _ _ _ Hstep x) as [Hini|[Hs|Hsame]].
      + right. left. rewrite Hini. unfold orFieldName in *.
        destruct (isEmptyString t); [by symmetry in Hini|done].
      + right; right; left. by eapply scanned_earlier.
      + do 3 right. rewrite Hsame, lookupField_setField_ne by done. exact Hx. }
  destruct Hloop as [Hw' [->|[->|[Hs|Hsame]]]];
    [by left|right; by left| |right; by right].
  right. left. by eapply scanned_earlier.
Qed.

Lemma scanned_by_tell (t i x : string) (w : World) :
  scanned w (mkWorld (scheduled w) (pending w) (trace w ++ [DependentsScanned t i])) x ->
  x = t.
Proof.
  intros (j & evs & H & Hin). simpl in H. apply app_inv_head in H. subst evs.
  destruct Hin as [[= -> _]|[]]. done.
Qed.

(** The loop of a scan, given what holds of the scans it starts. *)
Lemma forEachKey_closure (E : Env) (fuel : nat) (t i : string) (fs : Fields) :
  (forall fs t i0 w fs' w',
     resetDependentFields E fuel fs t i0 w = Ok (fs', w') ->
     forall x y fy,
       scanned w w' x -> y <> x -> lookupField fs y = Some fy ->
       namesDependency (config fy) x ->
       lookupField fs' y = Some (getNextResetField fy false)
       /\ (y = orFieldName i0 t \/ scanned w w' y)) ->
  forall names fs1 w1 fs2 w2,
    clearsSomeOf fs fs1 ->
    forEachKey names (resetIfDependent E (resetDependentFields E fuel) t i) fs1 w1
    = Ok (fs2, w2) ->
    forall x y fy,
      scanned w1 w2 x -> y <> x -> lookupField fs y = Some fy ->
      namesDependency (config fy) x ->
      lookupField fs2 y = Some (getNextResetField fy false)
      /\ (y = t \/ scanned w1 w2 y).
Proof.
  intros IH. pose proof (resetDependentFields_clears E fuel) as Hrec.
  induction names as [|d rest IHn]; intros fs1 w1 fs2 w2 Hc1 H x y fy Hx Hyx Hfy Hdep;
    simpl in H.
  { apply ret_Ok in H. injection H as <- <-. by apply scanned_irrefl in Hx. }
  apply bind_Ok in H as (fsm & wm & Hstep & Hrest).
  pose proof (resetIfDependent_clears E _ _ _ _ _ _ _ _ Hrec Hstep) as [Hcm Hwm].
  pose proof (forEachKey_clears E _ _ _ _ _ _ _ _ Hrec Hrest) as [Hc2 Hw2].
  destruct (scanned_split _ _ _ _ Hwm Hw2 Hx) as [Hxm|Hx2].
  - (* the scan from [x] belongs to the visit of [d] *)
    unfold resetIfDependent in Hstep.
    destruct (String.eqb_spec d t) as [->|Hdt].
    { apply ret_Ok in Hstep. injection Hstep as <- <-. by apply scanned_irrefl in Hxm. }
    apply bind_Ok in Hstep as (g & w1' & Hget & Hstep).
    apply getField_Ok in Hget as [Hg ->].
    destruct (isDependentField E fs1 g t i);
      [|apply ret_Ok in Hstep; injection Hstep as <- <-; by apply scanned_irrefl in Hxm].
    destruct (String.eqb_spec d i) as [->|Hdi]; simpl in Hstep.
    { apply ret_Ok in Hstep. injection Hstep as _ <-. by apply scanned_irrefl in Hxm. }
    assert (Hcset : clearsSomeOf fs (setField fs1 d (getNextResetField g false))).
    { eapply clearsSomeOf_trans; [exact Hc1|by apply clearsSomeOf_setField]. }
    destruct Hcset as [_ Hlset]. destruct (Hlset y fy Hfy) as (gy & Hgy & Hsame).
    destruct (IH _ _ _ _ _ _ Hstep x y gy Hxm Hyx Hgy) as [Hcl Hsc].
    { by rewrite (sameOrCleared_config _ _ Hsame). }
    split; [by eapply cleared_until_the_end|].
    destruct Hsc as [Hini|Hsc]; [|right; by eapply scanned_later].
    unfold orFieldName in Hini. destruct (isEmptyString t); [|by left].
    right. subst y. eapply scanned_later; [|exact Hw2].
    by eapply resetDependentFields_scanned.
  - destruct (IHn fsm wm fs2 w2) with (x := x) (y := y) (fy := fy) as [Hcl Hsc];
      try done.
    { by eapply clearsSomeOf_trans. }
    split; [done|]. destruct Hsc as [->|Hsc]; [by left|right].
    by eapply scanned_earlier.
Qed.

(** Every field that names or lists the trigger of a scan of the pass is
    cleared, and is itself the initiator or the trigger of a scan. *)
Lemma resetDependentFields_closure (E : Env) (fuel : nat) :
  forall fs t i0 w fs' w',
    resetDependentFields E fuel fs t i0 w = Ok (fs', w') ->
    forall x y fy,
      scanned w w' x -> y <> x -> lookupField fs y = Some fy ->
      namesDependency (config fy) x ->
      lookupField fs' y = Some (getNextResetField fy false)
      /\ (y = orFieldName i0 t \/ scanned w w' y).
Proof.
  induction fuel as [|fuel IH]; intros fs t i0 w fs' w' H x y fy Hx Hyx Hfy Hdep;
    [discriminate|].
  pose proof H as Hpass.
  pose proof (resetDependentFields_scanned E _ _ _ _ _ _ _ H) as Hhead.
  simpl in H. set (i := orFieldName i0 t) in *.
  apply bind_Ok in H as ([] & w1 & Htell & H). unfold forEachFormField in H.
  unfold tell in Htell. injection Htell as <-.
  pose proof (tell_scan_onlyScans t i w) as Hw1.
  pose proof (forEachKey_clears E _ _ _ _ _ _ _ _ (resetDependentFields_clears E fuel) H)
    as [_ Hw'].
  destruct (scanned_split _ _ _ _ Hw1 Hw' Hx) as [Hx1|Hx2].
  - apply scanned_by_tell in Hx1 as ->.
    by apply (resetDependentFields_named E (S fuel) fs t i0 w fs' w' y fy).
  - destruct (forEachKey_closure E fuel t i fs IH _ _ _ _ _ (clearsSomeOf_refl fs) H
                x y fy Hx2 Hyx Hfy Hdep) as [Hcl Hsc].
    split; [exact Hcl|]. right. destruct Hsc as [->|Hsc]; [exact Hhead|].
    by eapply scanned_earlier.
Qed.

Lemma DependsByName_lookup (fs : Fields) (x d : string) :
  DependsByName fs x d -> exists f, lookupField fs d = Some f.
Proof. destruct 1; eauto. Qed.

(** From the changed field, and from each field the pass has changed, the
    pass clears all that depends on it by name. *)
Lemma resetDependentFields_recursive (E : Env) (fuel : nat) (fs : Fields) (A : string)
    (w : World) (fs' : Fields) (w' : World) (x d : string) (f : Field) :
  resetDependentFields E fuel fs A None w = Ok (fs', w') ->
  x = A \/ changedBy fs fs' x ->
  DependsByName fs x d ->
  lookupField fs d = Some f ->
  lookupField fs' d = Some (getNextResetField f false).
Proof.
  intros H Hseed Hdep Hf.
  pose proof (resetDependentFields_scanned E _ _ _ _ _ _ _ H) as Hhead.
  assert (Hx : scanned w w' x).
  { destruct Hseed as [->|(fx & fx' & Hfx & Hfx' & Hne)]; [done|].
    destruct (resetDependentFields_changes E fuel _ _ _ _ _ _ H x) as [->|[Hs|Hsame]];
      [done|done|]. congruence. }
  assert (Hboth : lookupField fs' d = Some (getNextResetField f false) /\ scanned w w' d).
  { revert f Hf. induction Hdep as [d g Hdx Hg Hn|y d g Hy IHy Hdy Hg Hn]; intros f Hf.
    - destruct (resetDependentFields_closure E fuel _ _ _ _ _ _ H x d f Hx Hdx Hf)
        as [Hcl [->|Hs]]; [congruence|done|done].
    - destruct (DependsByName_lookup _ _ _ Hy) as [fy Hfy].
      destruct (IHy fy Hfy) as [_ Hsy].
      destruct (resetDependentFields_closure E fuel _ _ _ _ _ _ H y d f Hsy Hdy Hf)
        as [Hcl [->|Hs]]; [congruence|done|done]. }
  by destruct Hboth.
Qed.

(** C2, counterexample: [city] depends on [country] and has the default
    value ["x"].  After the pass for a change of [country], its value, raw
    value and clean value are [undefined], not the default. *)
Lemma C2_dependent_is_cleared_not_defaulted :
  exists fs' w' f,
    resetDependentFields plainEnv 3 addressForm "country" None emptyWorld = Ok (fs', w')
    /\ lookupField fs' "city" = Some f
    /\ defaultValue f = VString "x"
    /\ value f = VUndefined
    /\ rawValue f = VUndefined
    /\ cleanValue f = VUndefined.
Proof.
  eexists _, _, _. split; [vm_compute; reflexivity|].
  split; [reflexivity|]. repeat split.
Qed.
(** ** C3: the recursion of a pass *)

Lemma isDependent_mayDepend (E : Env) (fs : Fields) (f : Field) (t i : string) :
  isDependentField E fs f t i = true -> mayDepend (config f) t i.
Proof.
  unfold mayDepend, isDependentField.
  destruct (Config.dependsOn (config f)) as [|n|l|fn]; [done| | |].
  - intros H. by apply String.eqb_eq in H.
  - intros H. apply existsb_exists in H as (x & Hx & Heq).
    apply String.eqb_eq in Heq. by subst.
  - intros H. eauto.
Qed.

(** A field found dependent can depend on the trigger (it names or lists
    it) or on the initiator (its predicate accepts it). *)
Lemma isDependent_mayDepend_either (E : Env) (fs : Fields) (f : Field) (t i : string) :
  isDependentField E fs f t i = true ->
  mayDepend (config f) t t \/ mayDepend (config f) i i.
Proof.
  intros H. apply isDependent_mayDepend in H. unfold mayDepend in *.
  destruct (Config.dependsOn (config f)) as [|n|l|fn]; [done|by left|by left|by right].
Qed.

Lemma acyclicBy_clears (rank : string -> nat) (fs fs1 : Fields) :
  clearsSomeOf fs fs1 -> acyclicBy rank fs -> acyclicBy rank fs1.
Proof.
  intros [Hk Hl] Hacyc x d f1 Hx Hf1 Hdep.
  rewrite Hk in Hx.
  pose proof (lookupField_Some_keys _ _ _ Hf1) as Hd. rewrite Hk in Hd.
  apply keys_lookupField in Hd as [f Hf].
  destruct (Hl d f Hf) as (f1' & Hf1' & Hsame).
  rewrite Hf1 in Hf1'. injection Hf1' as <-.
  apply (Hacyc x d f Hx Hf). by rewrite <- (sameOrCleared_config _ _ Hsame).
Qed.

Lemma scansBelow_weaken (rank : string -> nat) (bound bound' : nat) (evs : list Event) :
  bound' <= bound ->
  Forall (scansBelow rank bound') evs -> Forall (scansBelow rank bound) evs.
Proof.
  intros Hle H. eapply Forall_impl; [exact H|].
  intros [| |t0 i0]; simpl; [done|done|lia].
Qed.

Lemma scanMeasure_positive (rank : string -> nat) (t i : string) :
  1 <= scanMeasure rank t i.
Proof. unfold scanMeasure. destruct (Nat.leb_spec (rank i) (rank t)); lia. Qed.

(** The measure decreases from a scan to the scans it starts. *)
Lemma scanMeasure_next (rank : string -> nat) (t i d i' : string) :
  rank d < Nat.max (rank t) (rank i) ->
  i' = t \/ i' = d ->
  scanMeasure rank d i' < scanMeasure rank t i
  /\ Nat.max (rank d) (rank i') <= Nat.max (rank t) (rank i).
Proof.
  intros Hd Hi'. unfold scanMeasure.
  destruct (Nat.leb_spec (rank i) (rank t)), (Nat.leb_spec (rank i') (rank d)),
    Hi' as [->| ->]; lia.
Qed.

(** Closes a case in which the loop or the callback leaves everything as it
    is. *)
Ltac unchanged Hc :=
  rewrite ?app_nil_r; split; [reflexivity|]; split; [exact Hc|];
  split; [done|]; split; [done|constructor].

Lemma resetDependentFields_terminates (E : Env) (rank : string -> nat) (fuel : nat) :
  forall fs t i0 w,
    acyclicBy rank fs ->
    In t (keys fs) ->
    In (orFieldName i0 t) (keys fs) ->
    scanMeasure rank t (orFieldName i0 t) <= fuel ->
    exists fs' w' evs,
      resetDependentFields E fuel fs t i0 w = Ok (fs', w')
      /\ (forall n, Nat.max (rank t) (rank (orFieldName i0 t)) <= rank n ->
            lookupField fs' n = lookupField fs n)
      /\ trace w' = trace w ++ DependentsScanned t (orFieldName i0 t) :: evs
      /\ Forall (scansBelow rank (Nat.max (rank t) (rank (orFieldName i0 t)))) evs.
Proof.
  induction fuel as [|fuel IH]; intros fs t i0 w Hacyc Ht Hi Hfuel.
  { pose proof (scanMeasure_positive rank t (orFieldName i0 t)). lia. }
  simpl. set (i := orFieldName i0 t) in *. set (bound := Nat.max (rank t) (rank i)).
  rewrite (bind_eq _ _ _ _ _ eq_refl). unfold forEachFormField.
  set (w1 := mkWorld (scheduled w) (pending w) (trace w ++ [DependentsScanned t i])).
  assert (Hloop : forall names, (forall n, In n names -> In n (keys fs)) ->
    forall fs1 w1, clearsSomeOf fs fs1 ->
    exists fs2 w2 evs,
      forEachKey names (resetIfDependent E (resetDependentFields E fuel) t i) fs1 w1
      = Ok (fs2, w2)
      /\ clearsSomeOf fs fs2
      /\ (forall n, bound <= rank n -> lookupField fs2 n = lookupField fs1 n)
      /\ trace w2 = trace w1 ++ evs
      /\ Forall (scansBelow rank bound) evs).
  { clear w1. induction names as [|other rest IHn]; intros Hsub fs1 w1 Hc1; simpl.
    { exists fs1, w1, []. unchanged Hc1. }
    assert (Hstep : exists fs2 w2 evs,
      resetIfDependent E (resetDependentFields E fuel) t i other fs1 w1 = Ok (fs2, w2)
      /\ clearsSomeOf fs fs2
      /\ (forall n, bound <= rank n -> lookupField fs2 n = lookupField fs1 n)
      /\ trace w2 = trace w1 ++ evs
      /\ Forall (scansBelow rank bound) evs).
    { unfold resetIfDependent.
      destruct (String.eqb_spec other t) as [->|Hot].
      { exists fs1, w1, []. unchanged Hc1. }
      assert (Hother : In other (keys fs1)).
      { destruct Hc1 as [-> _]. apply Hsub. by left. }
      apply keys_lookupField in Hother as [g Hg].
      unfold getField. rewrite Hg. rewrite (bind_eq _ _ _ _ _ eq_refl).
      destruct (isDependentField E fs1 g t i) eqn:Hdep;
        [|exists fs1, w1, []; unchanged Hc1].
      pose proof (acyclicBy_clears rank _ _ Hc1 Hacyc) as Hacyc1.
      assert (Hrank : rank other < bound).
      { pose proof Hc1 as [Hk1 _].
        destruct (isDependent_mayDepend_either _ _ _ _ _ Hdep) as [Hd|Hd].
        - pose proof (Hacyc1 t other g ltac:(by rewrite Hk1) Hg Hd). unfold bound. lia.
        - pose proof (Hacyc1 i other g ltac:(by rewrite Hk1) Hg Hd). unfold bound. lia. }
      pose proof (clearsSomeOf_setField fs1 other g Hg) as Hset.
      assert (Hkeep : forall n, bound <= rank n ->
                lookupField (setField fs1 other (getNextResetField g false)) n
                = lookupField fs1 n).
      { intros n Hn. apply lookupField_setField_ne. intros ->. lia. }
      destruct (negb (String.eqb other i)).
      - assert (Hnext : orFieldName (Some t) other = t \/ orFieldName (Some t) other = other).
        { unfold orFieldName. destruct (isEmptyString t); [by right|by left]. }
        destruct (scanMeasure_next rank t i other _ Hrank Hnext) as [Hless Hbound].
        assert (Hkeys : keys (setField fs1 other (getNextResetField g false)) = keys fs).
        { destruct Hset as [-> _]. by destruct Hc1. }
        destruct (IH (setField fs1 other (getNextResetField g false)) other (Some t) w1)
          as (fs2 & w2 & evs & Hrun & Hsame & Htr & Hev).
        + by eapply acyclicBy_clears.
        + rewrite Hkeys. apply Hsub. by left.
        + rewrite Hkeys. destruct Hnext as [-> | ->]; [done|apply Hsub; by left].
        + lia.
        + exists fs2, w2, (DependentsScanned other (orFieldName (Some t) other) :: evs).
          split; [exact Hrun|]. split.
          { apply resetDependentFields_clears in Hrun as [Hc2 _].
            eapply clearsSomeOf_trans; [exact Hc1|]. by eapply clearsSomeOf_trans. }
          split; [intros n Hn; rewrite Hsame by lia; by apply Hkeep|].
          split; [exact Htr|]. constructor; [exact Hrank|].
          by eapply scansBelow_weaken.
      - eexists _, w1, []. rewrite app_nil_r. split; [reflexivity|].
        split; [by eapply clearsSomeOf_trans|]. split; [exact Hkeep|].
        split; [done|constructor]. }
    destruct Hstep as (fs2 & w2 & evs2 & Hrun2 & Hc2 & Hsame2 & Htr2 & Hev2).
    rewrite (bind_eq _ _ _ _ _ Hrun2).
    destruct (IHn (fun n Hn => Hsub n (or_intror Hn)) fs2 w2 Hc2)
      as (fs3 & w3 & evs3 & Hrun3 & Hc3 & Hsame3 & Htr3 & Hev3).
    exists fs3, w3, (evs2 ++ evs3). split; [exact Hrun3|]. split; [exact Hc3|].
    split; [intros n Hn; rewrite Hsame3 by done; by apply Hsame2|].
    split; [by rewrite Htr3, Htr2, app_assoc|by apply Forall_app]. }
  destruct (Hloop (keys fs) (fun n Hn => Hn) fs w1 (clearsSomeOf_refl fs))
    as (fs' & w' & evs & Hrun & _ & Hsame & Htr & Hev).
  exists fs', w', evs. split; [exact Hrun|]. split; [exact Hsame|].
  split; [|exact Hev]. rewrite Htr. unfold w1. simpl. by rewrite <- app_assoc.
Qed.

(** The pass started by a change of a field of an acyclic configuration. *)
Lemma resetDependentFields_returns (E : Env) (rank : string -> nat) (fuel : nat)
    (fs : Fields) (A : string) (w : World) :
  acyclicBy rank fs ->
  In A (keys fs) ->
  2 * rank A < fuel ->
  exists fs' w' evs,
    resetDependentFields E fuel fs A None w = Ok (fs', w')
    /\ (forall n, rank A <= rank n -> lookupField fs' n = lookupField fs n)
    /\ trace w' = trace w ++ DependentsScanned A A :: evs
    /\ Forall (scansBelow rank (rank A)) evs.
Proof.
  intros Hacyc HA Hfuel.
  destruct (resetDependentFields_terminates E rank fuel fs A None w Hacyc HA HA)
    as (fs' & w' & evs & Hrun & Hsame & Htr & Hev).
  { unfold scanMeasure. simpl. rewrite Nat.max_id, Nat.leb_refl. lia. }
  simpl in *. rewrite Nat.max_id in *. by exists fs', w', evs.
Qed.

(** A scan recurses from each dependent that is not its initiator. *)
Lemma resetDependentFields_retriggers (E : Env) (fuel : nat) (fs : Fields) (t : string)
    (i0 : option string) (w : World) (fs' : Fields) (w' : World) (d : string) (f : Field) :
  resetDependentFields E fuel fs t i0 w = Ok (fs', w') ->
  d <> t ->
  d <> orFieldName i0 t ->
  lookupField fs d = Some f ->
  declaresDependency (config f) t (orFieldName i0 t) ->
  exists evs1 evs2,
    trace w'
    = trace w
        ++ DependentsScanned t (orFieldName i0 t)
             :: evs1 ++ DependentsScanned d (orFieldName (Some t) d) :: evs2.
Proof.
  destruct fuel as [|fuel]; simpl; [discriminate|]. intros H Hdt Hdi Hf Hdep.
  set (i := orFieldName i0 t) in *.
  pose proof (resetDependentFields_clears E fuel) as Hrec.
  apply bind_Ok in H as ([] & w1 & Htell & H). unfold tell in Htell. injection Htell as <-.
  unfold forEachFormField in H.
  destruct (forEachKey_visit _ _ d _ _ _ _ (lookupField_Some_keys _ _ _ Hf) H)
    as (pre & post & fsA & wA & fsB & wB & _ & HA & HB & Hpost).
  apply (forEachKey_clears E _ _ _ _ _ _ _ _ Hrec) in HA
    as [[_ HlA] (_ & _ & evsA & HtrA & _)].
  apply (forEachKey_clears E _ _ _ _ _ _ _ _ Hrec) in Hpost
    as [_ (_ & _ & evsP & HtrP & _)].
  destruct (HlA d f Hf) as (g & Hg & Hsame).
  unfold resetIfDependent in HB.
  destruct (String.eqb_spec d t) as [|_]; [contradiction|].
  apply bind_Ok in HB as (g' & wA' & Hget & HB).
  apply getField_Ok in Hget as [Hget ->]. rewrite Hg in Hget. injection Hget as <-.
  rewrite declaresDependency_isDependent in HB
    by (by rewrite (sameOrCleared_config _ _ Hsame)).
  destruct (String.eqb_spec d i) as [|_]; [contradiction|]. simpl in HB.
  apply resetDependentFields_first_event in HB as (evsB & HtrB).
  exists evsA, (evsB ++ evsP).
  rewrite HtrP, HtrB, HtrA. simpl. rewrite <- ?app_assoc. simpl.
  by rewrite <- ?app_assoc.
Qed.

(** C3, counterexample: [a] and [b] depend on each other.  The pass started
    by a change of [a] scans from [b] and there resets [a], the original
    initiator; the guard only keeps it from scanning from [a] once more. *)
Lemma C3_initiator_is_reset_in_a_cycle :
  exists fs' w' f,
    resetDependentFields plainEnv 3 cyclicForm "a" None emptyWorld = Ok (fs', w')
    /\ value <$> lookupField cyclicForm "a" = Some (VString "1")
    /\ lookupField fs' "a" = Some f
    /\ f = getNextResetField (textField (DependsOnName "b") None "1") false
    /\ value f = VUndefined
    /\ trace w' = [DependentsScanned "a" "a"; DependentsScanned "b" "a"].
Proof.
  eexists _, _, _. split; [vm_compute; reflexivity|].
  split; [reflexivity|]. split; [reflexivity|]. repeat split.
Qed.

(** C3, as amended.

    The rule of the recursion, for every scan (a scan has a trigger and an
    initiator, the trigger of the enclosing scan, or the trigger itself in
    the scan that starts the pass): when the scan comes to a field other
    than its trigger and finds it dependent, it clears the field and, unless
    the field is the initiator, goes on with what a scan from this field
    returns, started on the collection with the field cleared and with the
    current trigger as initiator; when the field is the initiator it is
    cleared and nothing else happens.  Nothing else guards the recursion.
    Whenever a scan returns, a scan from each field that declares a
    dependency on its trigger, other than its initiator, has been logged.
    ([scanUpTo] is the scan cut after some of its keys; over all the keys it
    is the scan itself.)

    For an acyclic dependency configuration, ranked by [rank], the pass
    started by a change of [fieldName] returns with any fuel above twice the
    rank of [fieldName], never resets [fieldName], and never scans from it
    again: every later scan has a trigger of a lower rank. *)
Theorem C3_acyclic_pass_terminates (E : Env) (rank : string -> nat) (formFields : Fields)
    (fieldName : string) (formField : Field) (w : World) (fuel : nat) :
  acyclicBy rank formFields ->
  lookupField formFields fieldName = Some formField ->
  2 * rank fieldName < fuel ->
  (exists formFields' w' evs,
     resetDependentFields E fuel formFields fieldName None w = Ok (formFields', w')
     /\ lookupField formFields' fieldName = Some formField
     /\ trace w' = trace w ++ DependentsScanned fieldName fieldName :: evs
     /\ (forall t i, In (DependentsScanned t i) evs ->
           t <> fieldName /\ rank t < rank fieldName))
  /\ (forall n fs t i0 names d w0 reached wR g,
        scanUpTo E (S n) fs t i0 names w0 = Ok (reached, wR) ->
        d <> t ->
        lookupField reached d = Some g ->
        isDependentField E reached g t (orFieldName i0 t) = true ->
        scanUpTo E (S n) fs t i0 (names ++ [d]) w0
        = if String.eqb d (orFieldName i0 t)
          then Ok (setField reached d (getNextResetField g false), wR)
          else resetDependentFields E n (setField reached d (getNextResetField g false))
                 d (Some t) wR)
  /\ (forall n fs t i0 w0 fs' w' d f,
        resetDependentFields E n fs t i0 w0 = Ok (fs', w') ->
        d <> t ->
        d <> orFieldName i0 t ->
        lookupField fs d = Some f ->
        declaresDependency (config f) t (orFieldName i0 t) ->
        exists evs1 evs2,
          trace w'
          = trace w0
              ++ DependentsScanned t (orFieldName i0 t)
                   :: evs1 ++ DependentsScanned d (orFieldName (Some t) d) :: evs2)
  /\ (forall n fs t i0,
        resetDependentFields E n fs t i0 = scanUpTo E n fs t i0 (keys fs)).
Proof.
  intros Hacyc Hf Hfuel. split; [|split; [|split]]; [| | |apply scanUpTo_keys].
  - destruct (resetDependentFields_returns E rank fuel formFields fieldName w Hacyc
                (lookupField_Some_keys _ _ _ Hf) Hfuel)
      as (fs' & w' & evs & Hrun & Hsame & Htr & Hev).
    exists fs', w', evs. split; [exact Hrun|].
    split; [by rewrite Hsame|]. split; [exact Htr|].
    intros t i Hin. rewrite Forall_forall in Hev.
    apply list_elem_of_In in Hin. apply Hev in Hin. simpl in Hin.
    split; [intros ->; lia|exact Hin].
  - intros n fs t i0 names d w0 reached wR g Hreach Hdt Hg Hdep.
    rewrite (scanUpTo_snoc _ _ _ _ _ _ _ _ _ _ Hreach).
    by apply resetIfDependent_found.
  - intros n fs t i0 w0 fs' w' d f. apply resetDependentFields_retriggers.
Qed.

(** ** C9: the rescan of scheduled validations *)

Lemma elem_of_scheduleAll (names : list string) (s : gset string) (k : string) :
  k ∈ (list_to_set names ∪ s : gset string) <-> In k names \/ k ∈ s.
Proof. rewrite elem_of_union, elem_of_list_to_set, list_elem_of_In. done. Qed.

Lemma executeFieldTypeValidator_flags (E : Env) (fs : Fields) (n : string) (f : Field)
    (v : Value) (w w1 : World) (vr : option ValidationResult) :
  executeFieldTypeValidator E fs n f v w = Ok (vr, w1) ->
  (forall k, k ∈ scheduled w -> k ∈ scheduled w1)
  /\ (forall k, k ∈ scheduled w1 -> k ∈ scheduled w \/ maySchedule E f k)
  /\ exists evs, trace w1 = trace w ++ evs.
Proof.
  unfold executeFieldTypeValidator.
  assert (Hnone : mret (M := M) None w = Ok (vr, w1) ->
    (forall k, k ∈ scheduled w -> k ∈ scheduled w1)
    /\ (forall k, k ∈ scheduled w1 -> k ∈ scheduled w \/ maySchedule E f k)
    /\ exists evs, trace w1 = trace w ++ evs).
  { intros H. apply ret_Ok in H. injection H as _ ->.
    split; [done|]. split; [by left|]. exists []. by rewrite app_nil_r. }
  assert (Hrun : forall reply : ValidatorReply,
    (forall k, In k (schedules reply) -> maySchedule E f k) ->
    (tell (TypeValidatorCalled n v) ≫= fun _ =>
     scheduleAll (schedules reply) ≫= fun _ =>
     match response reply with
     | Sync r => mret (Some r)
     | Async _ => mret None
     end) w = Ok (vr, w1) ->
    (forall k, k ∈ scheduled w -> k ∈ scheduled w1)
    /\ (forall k, k ∈ scheduled w1 -> k ∈ scheduled w \/ maySchedule E f k)
    /\ exists evs, trace w1 = trace w ++ evs).
  { intros reply Hmay H. unfold mbind, M_bind, tell in H. rewrite scheduleAll_Ok in H.
    simpl in H.
    assert (Hw1 : w1 = mkWorld (list_to_set (schedules reply) ∪ scheduled w) (pending w)
                         (trace w ++ [TypeValidatorCalled n v])).
    { destruct (response reply); apply ret_Ok in H; by injection H as _ ->. }
    subst w1. simpl. split; [intros k Hk; apply elem_of_scheduleAll; by right|].
    split; [|by eexists].
    intros k Hk. apply elem_of_scheduleAll in Hk as [Hk|Hk]; [right; by apply Hmay|by left]. }
  destruct (checkIfFieldIsObject (config f) || checkIfFieldIsNestedForms (config f))%bool;
    [exact Hnone|].
  destruct (checkIfHoneyFormFieldIsInteractive (config f)).
  { apply Hrun. intros k Hk. left. eauto. }
  destruct (checkIfFieldIsPassive (config f)); [|exact Hnone].
  apply Hrun. intros k Hk. right. left. eauto.
Qed.

Lemma executeFieldValidator_flags (E : Env) (fs : Fields) (n : string) (v : Value)
    (fin : bool) (w w' : World) (f f' : Field) :
  lookupField fs n = Some f ->
  executeFieldValidator E fs n v fin w = Ok (f', w') ->
  (forall k, k ∈ scheduled w -> k ∈ scheduled w')
  /\ (forall k, k ∈ scheduled w' -> k ∈ scheduled w \/ maySchedule E f k)
  /\ exists evs, trace w' = trace w ++ evs.
Proof.
  intros Hf H. unfold executeFieldValidator in H.
  apply bind_Ok in H as (g & w0 & Hget & H).
  apply getField_Ok in Hget as [Hget ->]. rewrite Hf in Hget. injection Hget as <-.
  apply bind_Ok in H as (vr & w1 & H1 & H).
  apply executeFieldTypeValidator_flags in H1 as (Hsub1 & Hnew1 & evs1 & Htr1).
  assert (Hsame : mret (M := M)
            (getNextValidatedField
               (executeInternalFieldValidators E
                  (sanitizeFieldValue E (Config.type (config f)) v) (config f) []
                  (getFormValues E fs)) vr f
               (sanitizeFieldValue E (Config.type (config f)) v)) w1 = Ok (f', w') ->
          w' = w1).
  { intros H'. apply ret_Ok in H'. by injection H' as _ ->. }
  destruct (isNullOrTrue vr);
    [|apply ret_Ok in H; injection H as _ ->; split; [done|]; split; [done|by eexists]].
  destruct (Config.validator (config f)) as [validator|] eqn:Hval;
    [|apply Hsame in H as ->; split; [done|]; split; [done|by eexists]].
  rewrite (bind_eq _ _ _ _ _ (callValidator_Ok _ _ _ _ _)) in H.
  set (reply := validator (sanitizeFieldValue E (Config.type (config f)) v)
                  (getFormValues E fs)) in *.
  assert (Hw' : scheduled w' = list_to_set (schedules reply) ∪ scheduled w1
                /\ trace w'
                   = trace w1
                       ++ [CustomValidatorCalled n
                             (sanitizeFieldValue E (Config.type (config f)) v)]).
  { destruct (response reply).
    - apply ret_Ok in H. by injection H as _ ->.
    - unfold mbind, M_bind, defer in H. simpl in H. apply ret_Ok in H.
      by injection H as _ ->. }
  destruct Hw' as [Hs Ht]. split; [|split].
  - intros k Hk. rewrite Hs. apply elem_of_scheduleAll. right. by apply Hsub1.
  - intros k Hk. rewrite Hs in Hk. apply elem_of_scheduleAll in Hk as [Hk|Hk].
    + right. right. right. exists validator. eexists _, _. split; [done|exact Hk].
    + by apply Hnew1.
  - exists (evs1 ++ [CustomValidatorCalled n
                       (sanitizeFieldValue E (Config.type (config f)) v)]).
    by rewrite Ht, Htr1, app_assoc.
Qed.

Lemma executeFieldValidator_lookup (E : Env) (fs : Fields) (n : string) (v : Value)
    (fin : bool) (w w' : World) (f' : Field) :
  executeFieldValidator E fs n v fin w = Ok (f', w') ->
  exists f, lookupField fs n = Some f.
Proof.
  unfold executeFieldValidator. intros H. apply bind_Ok in H as (g & w0 & Hget & _).
  apply getField_Ok in Hget as [Hget _]. eauto.
Qed.

(** One call of the callback of the rescan, for the field [m]. *)
Lemma validateIfScheduled_step (E : Env) (A : string) (formValues : FormValues)
    (fin : bool) (m : string) (fs1 fs2 : Fields) (w1 w2 : World) :
  validateIfScheduled E A formValues fin m fs1 w1 = Ok (fs2, w2) ->
  keys fs2 = keys fs1
  /\ (forall k, k <> m -> lookupField fs2 k = lookupField fs1 k)
  /\ (forall k, k <> m -> k ∈ scheduled w1 -> k ∈ scheduled w2)
  /\ (forall k, k ∈ scheduled w2 ->
        k ∈ scheduled w1 \/ exists g, lookupField fs1 m = Some g /\ maySchedule E g k)
  /\ (m <> A -> m ∉ scheduled w2)
  /\ (exists evs, trace w2 = trace w1 ++ evs)
  /\ (m <> A -> m ∈ scheduled w1 -> forall g, lookupField fs1 m = Some g ->
        (checkIsSkipField E m formValues fs1 = false ->
           exists v validated wV,
             currentFilteredValue g w1 = Ok (v, w1)
             /\ executeFieldValidator E fs1 m v fin w1 = Ok (validated, wV)
             /\ lookupField fs2 m = Some validated)
        /\ (checkIsSkipField E m formValues fs1 = true -> lookupField fs2 m = Some g)).
Proof.
  intros H. unfold validateIfScheduled in H.
  destruct (String.eqb_spec m A) as [->|HmA].
  { apply ret_Ok in H. injection H as -> ->.
    repeat split; try done; [by left|exists []; by rewrite app_nil_r]. }
  apply bind_Ok in H as (g & w0 & Hget & H). apply getField_Ok in Hget as [Hg ->].
  apply bind_Ok in H as (b & w0 & Hflag & H).
  unfold isValidationScheduled in Hflag. injection Hflag as <- <-.
  destruct (bool_decide (m ∈ scheduled w1)) eqn:Hb.
  2: { apply ret_Ok in H. injection H as -> ->.
       apply bool_decide_eq_false in Hb.
       repeat split; try done; [by left|exists []; by rewrite app_nil_r]. }
  destruct (checkIsSkipField E m formValues fs1) eqn:Hskip; simpl in H.
  - (* skipped: only the flag is cleared *)
    unfold mbind, M_bind, clearValidationScheduled, mret, M_ret in H. simpl in H.
    injection H as <- <-. simpl.
    split; [done|]. split; [done|]. split; [intros k Hk Hin; set_solver|].
    split; [intros k Hk; left; set_solver|]. split; [intros _; set_solver|].
    split; [exists []; by rewrite app_nil_r|].
    intros _ _ g' Hg'. rewrite Hg in Hg'. injection Hg' as <-. split; [done|by intros _].
  - (* validated, then the flag is cleared *)
    apply bind_Ok in H as (fsV & wV & HV & H).
    apply bind_Ok in HV as (v & w0 & Hfv & HV).
    pose proof (currentFilteredValue_world _ _ _ _ Hfv) as ->.
    apply bind_Ok in HV as (validated & wV' & Hrun & HV).
    apply ret_Ok in HV. injection HV as -> ->.
    unfold mbind, M_bind, clearValidationScheduled, mret, M_ret in H. simpl in H.
    injection H as <- <-. simpl.
    destruct (executeFieldValidator_flags E fs1 m v fin w1 wV' g validated Hg Hrun)
      as (Hsub & Hnew & evs & Htr).
    split; [by eapply keys_setField|].
    split; [intros k Hk; by apply lookupField_setField_ne|].
    split; [intros k Hk Hin; apply Hsub in Hin; set_solver|].
    split.
    { intros k Hk. assert (Hk' : k ∈ scheduled wV') by set_solver.
      apply Hnew in Hk' as [Hk'|Hk']; [by left|right; eauto]. }
    split; [intros _; set_solver|]. split; [by exists evs|].
    intros _ _ g' Hg'. rewrite Hg in Hg'. injection Hg' as <-. split; [|done].
    intros _. exists v, validated, wV'. split; [done|]. split; [done|].
    apply lookupField_setField_eq.
Qed.

(** The iterations before the visit of a field leave it, and its flag when
    set, as they are. *)
Lemma rescan_before (E : Env) (A : string) (formValues : FormValues) (fin : bool)
    (names : list string) :
  forall fs1 w1 fs2 w2,
    forEachKey names (validateIfScheduled E A formValues fin) fs1 w1 = Ok (fs2, w2) ->
    keys fs2 = keys fs1
    /\ (forall k, ~ In k names -> lookupField fs2 k = lookupField fs1 k)
    /\ (forall k, ~ In k names -> k ∈ scheduled w1 -> k ∈ scheduled w2)
    /\ exists evs, trace w2 = trace w1 ++ evs.
Proof.
  induction names as [|m rest IH]; intros fs1 w1 fs2 w2 H; simpl in H.
  - apply ret_Ok in H. injection H as -> ->.
    repeat split; try done. exists []. by rewrite app_nil_r.
  - apply bind_Ok in H as (fsm & wm & Hstep & H).
    apply validateIfScheduled_step in Hstep as (Hk & Ho & Hf & _ & _ & (e1 & Ht1) & _).
    apply IH in H as (Hk' & Ho' & Hf' & e2 & Ht2).
    split; [congruence|]. split; [|split].
    + intros k Hn. rewrite Ho' by (intros ?; apply Hn; by right).
      apply Ho. intros ->. apply Hn. by left.
    + intros k Hn Hin. apply Hf'; [intros ?; apply Hn; by right|].
      apply Hf; [intros ->; apply Hn; by left|done].
    + exists (e1 ++ e2). by rewrite Ht2, Ht1, app_assoc.
Qed.

(** The iterations after the visit of [n] leave its field as it is, and its
    flag clear as long as none of their validators schedules [n]. *)
Lemma rescan_after (E : Env) (A : string) (formValues : FormValues) (fin : bool)
    (n : string) (names : list string) :
  NoDup names ->
  ~ In n names ->
  forall fs1 w1 fs2 w2,
    forEachKey names (validateIfScheduled E A formValues fin) fs1 w1 = Ok (fs2, w2) ->
    lookupField fs2 n = lookupField fs1 n
    /\ ((forall m g, In m names -> lookupField fs1 m = Some g -> ~ maySchedule E g n) ->
        n ∉ scheduled w1 -> n ∉ scheduled w2).
Proof.
  induction 1 as [|m rest Hm Hnd IH]; intros Hn fs1 w1 fs2 w2 H; simpl in H.
  - apply ret_Ok in H. by injection H as -> ->.
  - rewrite list_elem_of_In in Hm.
    apply bind_Ok in H as (fsm & wm & Hstep & H).
    apply validateIfScheduled_step in Hstep as (_ & Ho & _ & Hnew & _).
    apply IH in H as [Hl Hflag]; [|intros ?; apply Hn; by right].
    assert (Hnm : n <> m) by (intros ->; apply Hn; by left).
    split; [rewrite Hl; by apply Ho|].
    intros Hmay Hclear. apply Hflag.
    + intros m' g Hm' Hg. apply (Hmay m' g); [by right|].
      rewrite <- Ho; [done|]. intros ->. contradiction.
    + intros Hin. apply Hnew in Hin as [Hin|(g & Hg & Hsched)]; [done|].
      apply (Hmay m g); [by left|done|done].
Qed.

(** C9, counterexample: [min] and [max] are both marked.  The rescan
    validates [min] and clears its flag, then validates [max], whose
    validator schedules [min] again: after the rescan the flag of the scanned
    field [min] is set. *)
Lemma C9_flag_set_again_by_later_validator :
  exists fs' w',
    triggerScheduledFieldsValidations plainEnv "currency" rangeForm true rangeWorld
    = Ok (fs', w')
    /\ "min" ∈ scheduled rangeWorld
    /\ In (CustomValidatorCalled "min" (VString "1")) (trace w')
    /\ "min" ∈ scheduled w'.
Proof.
  eexists _, _. split; [vm_compute; reflexivity|].
  split; [refine (bool_decide_unpack _ _); by vm_compute|].
  split; [right; by left|].
  refine (bool_decide_unpack _ _). by vm_compute.
Qed.

(** What a rescan that returns has done to the field [n]. *)
Lemma rescan_spec (E : Env) (fieldName : string)
    (formFields : Fields) (fin : bool) (w : World) (formFields' : Fields) (w' : World) :
  NoDup (keys formFields) ->
  triggerScheduledFieldsValidations E fieldName formFields fin w = Ok (formFields', w') ->
  forall pre n post f,
    keys formFields = pre ++ n :: post ->
    n <> fieldName ->
    lookupField formFields n = Some f ->
    (n ∈ scheduled w ->
       exists fs1 w1,
         (forall k, ~ In k pre -> lookupField fs1 k = lookupField formFields k)
         /\ (checkIsSkipField E n (getFormValues E formFields) fs1 = false ->
               exists v validated w2,
                 currentFilteredValue f w1 = Ok (v, w1)
                 /\ executeFieldValidator E fs1 n v fin w1 = Ok (validated, w2)
                 /\ lookupField formFields' n = Some validated)
         /\ (checkIsSkipField E n (getFormValues E formFields) fs1 = true ->
               lookupField formFields' n = Some f))
    /\ ((forall m g, In m post -> lookupField formFields m = Some g -> ~ maySchedule E g n) ->
        n ∉ scheduled w').
Proof.
  intros Hnd H pre n post f Hkeys HnA Hf.
  unfold triggerScheduledFieldsValidations, forEachFormField in H.
  rewrite Hkeys in H, Hnd.
  apply NoDup_app in Hnd as (_ & Hpre & Hnd). apply NoDup_cons in Hnd as [Hpost Hnd].
  assert (Hnpre : ~ In n pre).
  { intros Hin. apply (Hpre n); [by apply list_elem_of_In|left]. }
  rewrite list_elem_of_In in Hpost.
  rewrite forEachKey_app in H. apply bind_Ok in H as (fsA & wA & HA & H).
  simpl in H. apply bind_Ok in H as (fsB & wB & HB & H).
  apply rescan_before in HA as (_ & HoA & HfA & _).
  apply validateIfScheduled_step in HB as (_ & HoB & _ & _ & Hclear & _ & Hvisit).
  apply (rescan_after E fieldName _ fin n post Hnd Hpost) in H as [Hl Hflag].
  assert (HfA' : lookupField fsA n = Some f) by (by rewrite HoA).
  split.
  - intros Hin. exists fsA, wA. split; [exact HoA|].
    destruct (Hvisit HnA (HfA n Hnpre Hin) f HfA') as [Hval Hskip].
    split.
    + intros Hs. destruct (Hval Hs) as (v & validated & w2 & Hfv & Hrun & Hres).
      exists v, validated, w2. split; [done|]. split; [done|]. by rewrite Hl.
    + intros Hs. rewrite Hl. by apply Hskip.
  - intros Hmay. apply Hflag; [|by apply Hclear].
    intros m g Hm Hg. apply (Hmay m g Hm).
    rewrite <- HoA.
    + rewrite <- HoB; [done|]. intros ->. contradiction.
    + intros Hin. apply (Hpre m); [by apply list_elem_of_In|]. right. by apply list_elem_of_In.
Qed.

(** ** C10: leading white space of an interactive field *)

Lemma trimStart_no_leading_whitespace (s : string) (c : ascii) (rest : string) :
  trimStart s = String c rest -> isWhiteSpace c = false.
Proof.
  induction s as [|c' s IH]; simpl; [discriminate|].
  destruct (isWhiteSpace c') eqn:Hc'; [exact IH|].
  intros [= <- _]. exact Hc'.
Qed.

Lemma trimStart_spaces (k : nat) : trimStart (spaces k) = "".
Proof. induction k as [|k IH]; [reflexivity|exact IH]. Qed.

Lemma processSkippableFields_rawValue (E : Env) (fs fs' : Fields) (w w' : World) :
  processSkippableFields E fs w = Ok (fs', w') ->
  w' = w
  /\ forall n f, lookupField fs n = Some f ->
       exists f', lookupField fs' n = Some f' /\ rawValue f' = rawValue f.
Proof.
  unfold processSkippableFields, forEachFormField. intros H.
  eapply (forEachKey_inv
            (fun fs1 w1 =>
               w1 = w
               /\ forall n f, lookupField fs n = Some f ->
                    exists f', lookupField fs1 n = Some f' /\ rawValue f' = rawValue f));
    [| |exact H].
  - intros m fs1 w1 fs2 w2 _ [-> Hl] Hstep. simpl in Hstep.
    destruct (checkIsSkipField E m (getFormValues E fs) fs1).
    + apply bind_Ok in Hstep as (o & w0 & Hget & Hstep).
      apply getField_Ok in Hget as [Ho ->]. apply ret_Ok in Hstep.
      injection Hstep as -> ->. split; [done|].
      intros n f Hf. destruct (Hl n f Hf) as (f' & Hf' & Hraw).
      destruct (String.eqb_spec m n) as [->|Hne].
      * rewrite lookupField_setField_eq. eexists. split; [done|].
        rewrite Ho in Hf'. injection Hf' as <-. exact Hraw.
      * rewrite lookupField_setField_ne by done. eauto.
    + apply ret_Ok in Hstep. injection Hstep as -> ->. by split.
  - split; [done|]. eauto.
Qed.

Lemma validateIfScheduled_self (E : Env) (A : string) (formValues : FormValues)
    (fin : bool) (fs : Fields) (w : World) :
  validateIfScheduled E A formValues fin A fs w = Ok (fs, w).
Proof. unfold validateIfScheduled. by rewrite String.eqb_refl. Qed.

(** The rescan never touches the changed field, and only adds to the
    trace. *)
Lemma triggerScheduledFieldsValidations_changed_field (E : Env) (A : string)
    (fs fs' : Fields) (fin : bool) (w w' : World) :
  triggerScheduledFieldsValidations E A fs fin w = Ok (fs', w') ->
  lookupField fs' A = lookupField fs A /\ exists evs, trace w' = trace w ++ evs.
Proof.
  unfold triggerScheduledFieldsValidations, forEachFormField. intros H.
  eapply (forEachKey_inv
            (fun fs1 w1 =>
               lookupField fs1 A = lookupField fs A /\ exists evs, trace w1 = trace w ++ evs));
    [| |exact H].
  - intros m fs1 w1 fs2 w2 _ [Hl (e1 & Ht1)] Hstep.
    destruct (String.eqb_spec m A) as [->|Hne].
    + rewrite validateIfScheduled_self in Hstep. injection Hstep as <- <-. eauto.
    + apply validateIfScheduled_step in Hstep as (_ & Ho & _ & _ & _ & (e2 & Ht2) & _).
      split; [rewrite Ho; [done|by intros ->]|].
      exists (e1 ++ e2). by rewrite Ht2, Ht1, app_assoc.
  - split; [done|]. exists []. by rewrite app_nil_r.
Qed.

Lemma executeFieldTypeValidator_interactive (E : Env) (fs : Fields) (n : string)
    (f : Field) (v : Value) (w : World) :
  checkIfHoneyFormFieldIsInteractive (config f) = true ->
  exists vr w1,
    executeFieldTypeValidator E fs n f v w = Ok (vr, w1)
    /\ trace w1 = trace w ++ [TypeValidatorCalled n v].
Proof.
  intros Hi. unfold executeFieldTypeValidator.
  assert ((checkIfFieldIsObject (config f) || checkIfFieldIsNestedForms (config f))%bool
          = false) as ->.
  { unfold checkIfHoneyFormFieldIsInteractive, checkIfFieldIsObject,
      checkIfFieldIsNestedForms in *. by destruct (Config.type (config f)). }
  rewrite Hi. unfold mbind, M_bind, tell. rewrite scheduleAll_Ok. simpl.
  destruct (response _); eexists _, _; split; reflexivity.
Qed.

(** What [getNextFieldsState] has stored when it returns. *)
Lemma getNextFieldsState_trims (E : Env) (fuel : nat) (fieldName : string)
    (s : string) (formFields : Fields) (isValidate isFormat fin : bool) (w : World)
    (formFields' : Fields) (w' : World) (formField : Field) :
  lookupField formFields fieldName = Some formField ->
  checkIfHoneyFormFieldIsInteractive (config formField) = true ->
  getNextFieldsState E fuel fieldName (VString s) formFields isValidate isFormat fin w
  = Ok (formFields', w') ->
  exists f',
    lookupField formFields' fieldName = Some f'
    /\ rawValue f'
       = match Config.filter (config formField) with
         | Some filter => filter (VString (trimStart s))
         | None => VString (trimStart s)
         end
    /\ (isValidate = true ->
        In (TypeValidatorCalled fieldName
              (sanitizeFieldValue E (Config.type (config formField))
                 match Config.filter (config formField) with
                 | Some filter => filter (VString (trimStart s))
                 | None => VString (trimStart s)
                 end)) (trace w'))
    /\ (forall c rest, trimStart s = String c rest -> isWhiteSpace c = false)
    /\ (forall k, s = spaces k -> trimStart s = "").
Proof.
  intros Hf Hi H. unfold getNextFieldsState in H.
  apply bind_Ok in H as (g & w0 & Hget & H). apply getField_Ok in Hget as [Hg ->].
  rewrite Hf in Hg. injection Hg as <-. rewrite Hi in H. simpl in H.
  set (filtered := match Config.filter (config formField) with
                   | Some filter => filter (VString (trimStart s))
                   | None => VString (trimStart s)
                   end) in *.
  apply bind_Ok in H as ([fsR validated] & wV & Hfirst & H).
  apply bind_Ok in H as (fsP & wP & Hskip & Htrig).
  apply processSkippableFields_rawValue in Hskip as [-> Hraw].
  apply triggerScheduledFieldsValidations_changed_field in Htrig as [Hkeep (evs & Htr)].
  destruct (Hraw fieldName _ (lookupField_setField_eq _ _ _)) as (f' & Hf' & Hrawf').
  exists f'. split; [by rewrite Hkeep|]. split; [exact Hrawf'|].
  split; [|split; [apply trimStart_no_leading_whitespace
                  |intros k ->; apply trimStart_spaces]].
  intros ->. apply bind_Ok in Hfirst as (fsR' & wR & Hreset & Hfirst).
  apply bind_Ok in Hfirst as (validated' & wV' & Hrun & Hfirst).
  apply ret_Ok in Hfirst. injection Hfirst as -> -> ->.
  apply resetDependentFields_clears in Hreset as [[_ Hl] _].
  destruct (Hl fieldName formField Hf) as (g & Hg & Hsame).
  pose proof (sameOrCleared_config _ _ Hsame) as Hcfg.
  destruct (executeFieldTypeValidator_interactive E fsR' fieldName g
              (sanitizeFieldValue E (Config.type (config g)) filtered) wR)
    as (vr & w1 & H1 & Htr1); [by rewrite Hcfg|].
  destruct (executeFieldValidator_trace E fsR' fieldName filtered fin wR w1 g vr Hg H1)
    as (f0 & w0' & Hrun' & Htr0).
  rewrite Hrun in Hrun'. injection Hrun' as <- <-.
  rewrite Htr, Htr0, Htr1, Hcfg.
  apply in_or_app. left. apply in_or_app. left. apply in_or_app. right. by left.
Qed.

(** ** The operations return *)

Lemma childFormsValues_total (l : list ChildForm) (w : World) :
  Forall (fun c => childFormValues c <> None) l ->
  exists vs, childFormsValues l w = Ok (vs, w).
Proof.
  induction 1 as [|c rest Hc _ [vs IH]]; simpl; [by eexists|].
  destruct (childFormValues c) as [v|]; [|done].
  rewrite (bind_eq _ _ _ _ _ IH). by eexists.
Qed.

Lemma getChildFormsValues_total (f : Field) (w : World) :
  childFormsReady f -> exists v, getChildFormsValues f w = Ok (v, w).
Proof.
  intros Hr. unfold getChildFormsValues.
  destruct (childForms f) as [l|] eqn:Hl; [|by eexists].
  destruct (childFormsValues_total l w (Hr l Hl)) as [vs Hvs].
  rewrite (bind_eq _ _ _ _ _ Hvs). by eexists.
Qed.

Lemma currentFilteredValue_total (f : Field) (w : World) :
  childFormsReady f -> exists v, currentFilteredValue f w = Ok (v, w).
Proof.
  intros Hr. unfold currentFilteredValue.
  destruct (Config.filter (config f)), (checkIfHoneyFormFieldIsInteractive (config f)),
    (checkIfFieldIsNestedForms (config f));
    first [by apply getChildFormsValues_total | by eexists].
Qed.

Lemma asyncFilteredValue_total (f : Field) (w : World) :
  childFormsReady f -> exists v, asyncFilteredValue f w = Ok (v, w).
Proof.
  intros Hr. unfold asyncFilteredValue.
  destruct (checkIfHoneyFormFieldIsInteractive (config f)).
  - destruct (Config.filter (config f)); by eexists.
  - destruct (checkIfFieldIsNestedForms (config f));
      [by apply getChildFormsValues_total|by eexists].
Qed.

Lemma getNextValidatedField_childForms (errs : list FieldError)
    (vr : option ValidationResult) (f : Field) (v : Value) :
  childForms (getNextValidatedField errs vr f v) = childForms f.
Proof. unfold getNextValidatedField. by destruct (negb _). Qed.

Lemma executeFieldValidator_total (E : Env) (fs : Fields) (n : string) (v : Value)
    (fin : bool) (w : World) (f : Field) :
  lookupField fs n = Some f ->
  exists f' w',
    executeFieldValidator E fs n v fin w = Ok (f', w') /\ childForms f' = childForms f.
Proof.
  intros Hf.
  destruct (executeFieldTypeValidator_Ok E fs n f
              (sanitizeFieldValue E (Config.type (config f)) v) w)
    as (vr & w1 & H1 & _).
  unfold executeFieldValidator, getField. rewrite Hf.
  rewrite (bind_eq _ _ w w f) by reflexivity. rewrite (bind_eq _ _ _ _ _ H1).
  destruct (isNullOrTrue vr);
    [|eexists _, _; split; [reflexivity|apply getNextValidatedField_childForms]].
  destruct (Config.validator (config f)) as [validator|];
    [|eexists _, _; split; [reflexivity|apply getNextValidatedField_childForms]].
  rewrite (bind_eq _ _ _ _ _ (callValidator_Ok _ _ _ _ _)).
  destruct (response _) as [r|p].
  - eexists _, _; split; [reflexivity|apply getNextValidatedField_childForms].
  - unfold mbind, M_bind, defer; simpl.
    eexists _, _; split; [reflexivity|by rewrite getNextValidatedField_childForms].
Qed.

Lemma executeFieldValidatorAsync_total (E : Env) (fs : Fields) (n : string) (w : World)
    (f : Field) :
  lookupField fs n = Some f ->
  childFormsReady f ->
  rejectsWithReason fs ->
  exists f' w', executeFieldValidatorAsync E n fs w = Ok (f', w').
Proof.
  intros Hf Hr Hrej.
  destruct (asyncFilteredValue_total f w Hr) as [fv H0].
  destruct (executeFieldTypeValidator_Ok E fs n f
              (sanitizeFieldValue E (Config.type (config f)) fv) w)
    as (vr & w1 & H1 & _).
  destruct (executeFieldValidatorAsync_trace E fs n w w w1 f fv vr Hf H0 H1)
    as [(f' & w' & H & _)|(_ & (validator & Hv & Hresp) & _)]; [eauto|].
  by destruct (Hrej n f validator _ _ Hf Hv Hresp).
Qed.

Lemma formReady_setField (fs : Fields) (n : string) (f : Field) :
  formReady fs -> childFormsReady f -> formReady (setField fs n f).
Proof.
  intros Hr Hf m g Hg. destruct (String.eqb_spec n m) as [->|Hne].
  - rewrite lookupField_setField_eq in Hg. by injection Hg as <-.
  - rewrite lookupField_setField_ne in Hg by done. by eapply Hr.
Qed.

Lemma formReady_clears (fs fs' : Fields) :
  clearsSomeOf fs fs' -> formReady fs -> formReady fs'.
Proof.
  intros [Hk Hl] Hr n f' Hf'.
  pose proof (lookupField_Some_keys _ _ _ Hf') as Hn. rewrite Hk in Hn.
  apply keys_lookupField in Hn as [f Hf].
  destruct (Hl n f Hf) as (f1 & Hf1 & [->| ->]); rewrite Hf' in Hf1;
    injection Hf1 as ->; by apply (Hr n f).
Qed.

(** A loop returns when each call of its callback does. *)
Lemma forEachKey_total (P : Fields -> Prop) (names : list string)
    (callback : string -> Fields -> M Fields) :
  (forall n fs w, In n names -> P fs -> exists fs' w', callback n fs w = Ok (fs', w') /\ P fs') ->
  forall fs w, P fs -> exists fs' w', forEachKey names callback fs w = Ok (fs', w') /\ P fs'.
Proof.
  induction names as [|n rest IH]; intros Hcb fs w HP; simpl.
  - by exists fs, w.
  - destruct (Hcb n fs w (or_introl eq_refl) HP) as (fs1 & w1 & H1 & HP1).
    rewrite (bind_eq _ _ _ _ _ H1). apply IH; [|exact HP1].
    intros m fs2 w2 Hm. apply Hcb. by right.
Qed.

Lemma processSkippableFields_total (E : Env) (fs : Fields) (w : World) :
  formReady fs ->
  exists fs' w',
    processSkippableFields E fs w = Ok (fs', w') /\ keys fs' = keys fs /\ formReady fs'.
Proof.
  intros Hr. unfold processSkippableFields, forEachFormField.
  apply (forEachKey_total (fun fs1 => keys fs1 = keys fs /\ formReady fs1)); [|done].
  intros n fs1 w1 Hn [Hk Hr1].
  destruct (checkIsSkipField E n (getFormValues E fs) fs1); [|by exists fs1, w1].
  rewrite <- Hk in Hn. apply keys_lookupField in Hn as [f Hf].
  unfold getField. rewrite Hf. rewrite (bind_eq _ _ _ _ _ eq_refl).
  eexists _, _. split; [reflexivity|]. split.
  - rewrite <- Hk. by eapply keys_setField.
  - apply formReady_setField; [done|]. by apply (Hr1 n f).
Qed.

Lemma triggerScheduledFieldsValidations_total (E : Env) (A : string) (fs : Fields)
    (fin : bool) (w : World) :
  formReady fs ->
  exists fs' w', triggerScheduledFieldsValidations E A fs fin w = Ok (fs', w').
Proof.
  intros Hr. unfold triggerScheduledFieldsValidations, forEachFormField.
  destruct (forEachKey_total (fun fs1 => keys fs1 = keys fs /\ formReady fs1) (keys fs)
              (validateIfScheduled E A (getFormValues E fs) fin)) with (fs := fs) (w := w)
    as (fs' & w' & H & _); [|done|by eauto].
  intros n fs1 w1 Hn [Hk Hr1]. unfold validateIfScheduled.
  destruct (String.eqb n A); [by exists fs1, w1|].
  rewrite <- Hk in Hn. apply keys_lookupField in Hn as [f Hf].
  unfold getField. rewrite Hf. rewrite (bind_eq _ _ _ _ _ eq_refl).
  unfold isValidationScheduled. rewrite (bind_eq _ _ _ _ _ eq_refl).
  destruct (bool_decide (n ∈ scheduled w1)); [|by exists fs1, w1].
  destruct (checkIsSkipField E n (getFormValues E fs) fs1); simpl.
  - unfold mbind, M_bind, clearValidationScheduled, mret, M_ret. simpl.
    eexists _, _. split; [reflexivity|done].
  - destruct (currentFilteredValue_total f w1 (Hr1 n f Hf)) as [v Hv].
    destruct (executeFieldValidator_total E fs1 n v fin w1 f Hf) as (f' & wV & Hrun & Hcf).
    unfold mbind, M_bind. rewrite Hv. unfold mbind, M_bind. rewrite Hrun.
    unfold clearValidationScheduled, mret, M_ret. simpl.
    eexists _, _. split; [reflexivity|]. split.
    + rewrite <- Hk. by eapply keys_setField.
    + apply formReady_setField; [done|].
      intros l Hl. rewrite Hcf in Hl. by apply (Hr1 n f Hf).
Qed.

Lemma validateFields_total (E : Env) (fs : Fields) (names : list string) :
  formReady fs ->
  rejectsWithReason fs ->
  (forall n, In n names -> In n (keys fs)) ->
  forall h0 next0 w, exists r w', validateFields E fs names h0 next0 w = Ok (r, w').
Proof.
  intros Hr Hrej. induction names as [|n rest IH]; intros Hsub h0 next0 w; simpl.
  - by eexists _, _.
  - destruct (keys_lookupField fs n (Hsub n (or_introl eq_refl))) as [f Hf].
    unfold getField. rewrite Hf. rewrite (bind_eq _ _ _ _ _ eq_refl).
    destruct (executeFieldValidatorAsync_total E fs n w f Hf (Hr n f Hf) Hrej)
      as (f' & w1 & Hrun).
    rewrite (bind_eq _ _ _ _ _ Hrun). apply IH. intros m Hm. apply Hsub. by right.
Qed.

Lemma validateForm_total (E : Env) (targetFields excludeFields : option (list string))
    (fs : Fields) (w : World) :
  formReady fs ->
  rejectsWithReason fs ->
  exists isValid next w',
    validateForm E targetFields excludeFields fs w = Ok ((isValid, next), w').
Proof.
  intros Hr Hrej. unfold validateForm.
  match goal with
  | |- context [validateFields E fs ?names ?h ?next] =>
      destruct (validateFields_total E fs names Hr Hrej)
        with (h0 := h) (next0 := next) (w := w)
        as ([hasErrors next'] & w' & H)
  end.
  { intros n Hn. apply filter_In in Hn. tauto. }
  rewrite (bind_eq _ _ _ _ _ H). by eexists _, _, _.
Qed.

Lemma getNextFieldsState_total (E : Env) (fuel : nat) (n : string) (v : Value)
    (fs : Fields) (isValidate isFormat fin : bool) (w : World) (f : Field) :
  lookupField fs n = Some f ->
  formReady fs ->
  (isValidate = true ->
   exists fsR wR, resetDependentFields E fuel fs n None w = Ok (fsR, wR)) ->
  exists fs' w', getNextFieldsState E fuel n v fs isValidate isFormat fin w = Ok (fs', w').
Proof.
  intros Hf Hr Hreset. unfold getNextFieldsState, getField. rewrite Hf.
  rewrite (bind_eq _ _ _ _ _ eq_refl).
  set (filtered := if checkIfHoneyFormFieldIsInteractive (config f) then _ else _).
  assert (Hfirst : exists fsR validated wV,
    (if isValidate then
       resetDependentFields E fuel fs n None ≫= fun nextFormFields =>
       executeFieldValidator E nextFormFields n filtered fin ≫= fun validated =>
       mret (nextFormFields, validated)
     else mret (fs, getNextErrorsFreeField f)) w = Ok ((fsR, validated), wV)
    /\ formReady fsR /\ childFormsReady validated).
  { destruct isValidate.
    - destruct (Hreset eq_refl) as (fsR & wR & HR).
      pose proof (resetDependentFields_clears E fuel _ _ _ _ _ _ HR) as [Hc _].
      pose proof (formReady_clears _ _ Hc Hr) as HrR.
      destruct Hc as [_ Hl]. destruct (Hl n f Hf) as (g & Hg & _).
      destruct (executeFieldValidator_total E fsR n filtered fin wR g Hg)
        as (validated & wV & Hrun & Hcf).
      exists fsR, validated, wV. rewrite (bind_eq _ _ _ _ _ HR).
      rewrite (bind_eq _ _ _ _ _ Hrun). split; [reflexivity|]. split; [done|].
      intros l Hl'. rewrite Hcf in Hl'. by apply (HrR n g Hg).
    - exists fs, (getNextErrorsFreeField f), w. split; [reflexivity|]. split; [done|].
      by apply (Hr n f). }
  destruct Hfirst as (fsR & validated & wV & Hfirst & HrR & Hrv).
  rewrite (bind_eq _ _ _ _ _ Hfirst).
  destruct (processSkippableFields_total E
              (setField fsR n (getNextSingleFieldState validated filtered isFormat)) wV)
    as (fsP & wP & HP & _ & HrP).
  { apply formReady_setField; [done|]. exact Hrv. }
  rewrite (bind_eq _ _ _ _ _ HP).
  by apply triggerScheduledFieldsValidations_total.
Qed.

(** ** The invariant across the transitions of a form

    Every transition but [addFormFieldErrors] keeps the invariant of C1. *)

Lemma formInvariant_setField (fs : Fields) (n : string) (f : Field) :
  formInvariant fs -> errorsImplyNoCleanValue f -> formInvariant (setField fs n f).
Proof.
  intros Hinv Hf m g Hg. destruct (String.eqb_spec n m) as [->|Hne].
  - rewrite lookupField_setField_eq in Hg. by injection Hg as <-.
  - rewrite lookupField_setField_ne in Hg by done. by eapply Hinv.
Qed.

Lemma resetDependentFields_invariant (E : Env) (fuel : nat) (fs : Fields) (t : string)
    (i0 : option string) (w : World) (fs' : Fields) (w' : World) :
  resetDependentFields E fuel fs t i0 w = Ok (fs', w') ->
  formInvariant fs -> formInvariant fs'.
Proof.
  intros H Hinv n f' Hf'. apply resetDependentFields_clears in H as [[Hk Hl] _].
  pose proof (lookupField_Some_keys _ _ _ Hf') as Hn. rewrite Hk in Hn.
  apply keys_lookupField in Hn as [f Hf].
  destruct (Hl n f Hf) as (f1 & Hf1 & [->| ->]); rewrite Hf' in Hf1; injection Hf1 as ->.
  - by apply (Hinv n f).
  - apply getNextResetField_invariant.
Qed.

Lemma processSkippableFields_invariant (E : Env) (fs fs' : Fields) (w w' : World) :
  processSkippableFields E fs w = Ok (fs', w') -> formInvariant fs -> formInvariant fs'.
Proof.
  unfold processSkippableFields, forEachFormField. intros H Hinv.
  eapply (forEachKey_inv (fun fs1 _ => formInvariant fs1)); [|exact Hinv|exact H].
  intros m fs1 w1 fs2 w2 _ Hinv1 Hstep. simpl in Hstep.
  destruct (checkIsSkipField E m (getFormValues E fs) fs1).
  - apply bind_Ok in Hstep as (o & w0 & _ & Hstep). apply ret_Ok in Hstep.
    injection Hstep as -> _. apply formInvariant_setField; [done|].
    apply getNextErrorsFreeField_invariant.
  - apply ret_Ok in Hstep. by injection Hstep as -> _.
Qed.

Lemma triggerScheduledFieldsValidations_invariant (E : Env) (A : string) (fs fs' : Fields)
    (fin : bool) (w w' : World) :
  triggerScheduledFieldsValidations E A fs fin w = Ok (fs', w') ->
  formInvariant fs -> formInvariant fs'.
Proof.
  unfold triggerScheduledFieldsValidations, forEachFormField. intros H Hinv.
  eapply (forEachKey_inv (fun fs1 _ => formInvariant fs1)); [|exact Hinv|exact H].
  intros m fs1 w1 fs2 w2 _ Hinv1 Hstep. unfold validateIfScheduled in Hstep.
  destruct (String.eqb m A); [apply ret_Ok in Hstep; by injection Hstep as -> _|].
  apply bind_Ok in Hstep as (g & w0 & _ & Hstep).
  apply bind_Ok in Hstep as (b & w0' & _ & Hstep).
  destruct b; [|apply ret_Ok in Hstep; by injection Hstep as -> _].
  apply bind_Ok in Hstep as (fsV & wV & HV & Hstep).
  apply bind_Ok in Hstep as ([] & wC & _ & Hstep). apply ret_Ok in Hstep.
  injection Hstep as -> _.
  destruct (negb _); [|apply ret_Ok in HV; by injection HV as -> _].
  apply bind_Ok in HV as (v & wv & _ & HV).
  apply bind_Ok in HV as (validated & wV' & Hrun & HV).
  apply ret_Ok in HV. injection HV as -> _.
  apply formInvariant_setField; [done|]. by eapply executeFieldValidator_invariant.
Qed.

Lemma getNextFieldsState_invariant (E : Env) (fuel : nat) (n : string) (v : Value)
    (fs : Fields) (isValidate isFormat fin : bool) (w : World) (fs' : Fields) (w' : World) :
  getNextFieldsState E fuel n v fs isValidate isFormat fin w = Ok (fs', w') ->
  formInvariant fs -> formInvariant fs'.
Proof.
  unfold getNextFieldsState. intros H Hinv.
  apply bind_Ok in H as (g & w0 & Hget & H). apply getField_Ok in Hget as [Hg ->].
  apply bind_Ok in H as ([fsR validated] & wV & Hfirst & H).
  apply bind_Ok in H as (fsP & wP & Hskip & Htrig).
  eapply triggerScheduledFieldsValidations_invariant; [exact Htrig|].
  eapply processSkippableFields_invariant; [exact Hskip|].
  destruct isValidate.
  - apply bind_Ok in Hfirst as (fsR' & wR & Hreset & Hfirst).
    apply bind_Ok in Hfirst as (validated' & wV' & Hrun & Hfirst).
    apply ret_Ok in Hfirst. injection Hfirst as -> -> _.
    apply formInvariant_setField.
    + by eapply resetDependentFields_invariant.
    + apply getNextSingleFieldState_invariant. by eapply executeFieldValidator_invariant.
  - apply ret_Ok in Hfirst. injection Hfirst as -> -> _.
    apply formInvariant_setField; [done|].
    apply getNextSingleFieldState_invariant, getNextErrorsFreeField_invariant.
Qed.

Lemma validateFields_invariant (E : Env) (fs : Fields) (names : list string) :
  forall h0 next0 w h next w',
    validateFields E fs names h0 next0 w = Ok ((h, next), w') ->
    formInvariant next0 -> formInvariant next.
Proof.
  induction names as [|n rest IH]; intros h0 next0 w h next w' H Hinv; simpl in H.
  - apply ret_Ok in H. by injection H as _ -> _.
  - apply bind_Ok in H as (f & w0 & _ & H). apply bind_Ok in H as (f' & w1 & Hrun & H).
    eapply IH; [exact H|]. apply formInvariant_setField; [done|].
    by eapply executeFieldValidatorAsync_invariant.
Qed.

Lemma validateForm_invariant (E : Env) (targetFields excludeFields : option (list string))
    (fs : Fields) (w w' : World) (isValid : bool) (next : Fields) :
  validateForm E targetFields excludeFields fs w = Ok ((isValid, next), w') ->
  formInvariant next.
Proof.
  unfold validateForm. intros H. apply bind_Ok in H as ([h next'] & w1 & Hrun & H).
  apply ret_Ok in H. injection H as _ -> _.
  eapply validateFields_invariant; [exact Hrun|].
  generalize (keys fs). intros ks.
  assert (Hfold : forall acc, formInvariant acc ->
    formInvariant
      (fold_left
         (fun next fieldName =>
            if isFieldValidated E targetFields excludeFields fs (getFormValues E fs) fieldName
            then next
            else
              match lookupField fs fieldName with
              | Some formField => setField next fieldName (getNextErrorsFreeField formField)
              | None => next
              end) ks acc)).
  { induction ks as [|k rest IH]; intros acc Hacc; simpl; [done|]. apply IH.
    destruct (isFieldValidated _ _ _ _ _ _); [done|].
    destruct (lookupField fs k); [|done].
    apply formInvariant_setField; [done|apply getNextErrorsFreeField_invariant]. }
  apply Hfold. intros n f Hf. discriminate.
Qed.

Lemma setFormErrors_invariant (formErrors : list (string * list FieldError)) :
  forall fs w fs' w',
    setFormErrors formErrors fs w = Ok (fs', w') -> formInvariant fs -> formInvariant fs'.
Proof.
  induction formErrors as [|[n errs] rest IH]; intros fs w fs' w' H Hinv; simpl in H.
  - apply ret_Ok in H. by injection H as -> _.
  - apply bind_Ok in H as (f & w0 & _ & H). eapply IH; [exact H|].
    apply formInvariant_setField; [done|apply getNextErredField_invariant].
Qed.

Lemma clearFieldErrors_invariant (n : string) (fs fs' : Fields) (w w' : World) :
  clearFieldErrors n fs w = Ok (fs', w') -> formInvariant fs -> formInvariant fs'.
Proof.
  unfold clearFieldErrors. intros H Hinv. apply bind_Ok in H as (f & w0 & _ & H).
  apply ret_Ok in H. injection H as -> _.
  apply formInvariant_setField; [done|apply getNextErrorsFreeField_invariant].
Qed.

Lemma finishFieldAsyncValidation_invariant (n : string) (fs fs' : Fields) (w w' : World) :
  finishFieldAsyncValidation n fs w = Ok (fs', w') -> formInvariant fs -> formInvariant fs'.
Proof.
  unfold finishFieldAsyncValidation. intros H Hinv.
  apply bind_Ok in H as (f & w0 & Hget & H). apply getField_Ok in Hget as [Hf _].
  apply ret_Ok in H. injection H as -> _.
  apply formInvariant_setField; [done|].
  apply getNextAsyncValidatedField_invariant. by apply (Hinv n f).
Qed.

(** The same defect seen from the asynchronous validator of the scenario
    of C6: once the promise has resolved to [false], the field holds an
    [invalid] error next to the clean value of the synchronous call. *)
Example settled_promise_keeps_cleanValue :
  exists f w,
    executeFieldValidator plainEnv usernameForm "username" (VString "joe") true emptyWorld
    = Ok (f, w)
    /\ exists t next f',
         pending w = [t]
         /\ runAsyncTask t (setField usernameForm "username" f) w = Ok (next, w)
         /\ lookupField next "username" = Some f'
         /\ errors f' = [mkError invalid_t (MString "Invalid value")]
         /\ cleanValue f' = VString "joe".
Proof.
  eexists _, _. split; [vm_compute; reflexivity|].
  eexists _, _, _. split; [reflexivity|]. split; [vm_compute; reflexivity|].
  split; [reflexivity|]. split; reflexivity.
Qed.

(** In [executeFieldValidatorAsync] a rejection whose message is empty adds
    no error: the field comes out valid. *)
Example rejection_with_empty_message_adds_no_error :
  exists f w,
    executeFieldValidatorAsync plainEnv "code"
      [("code",
        textField DependsOnNothing (Some (fun _ _ => mkReply [] (Async (Rejected (ReasonError ""))))) "x")]
      emptyWorld = Ok (f, w)
    /\ errors f = []
    /\ cleanValue f = VString "x".
Proof. eexists _, _. split; [vm_compute; reflexivity|]. split; reflexivity. Qed.

(** ** C2, C8, C9 and C10 *)

(** C2, as amended: when the reset-on-change pass returns, it has cleared
    every other field whose [dependsOn] declaration matches the changed
    field when the scan comes to it: the declared name is the changed field,
    or the declared list holds it, or the declared predicate returns [true]
    for the changed field, the clean value of the field and the values of
    the form as the scan has left it by then ([reached], the form with some
    fields cleared already; a field among them stays cleared, whatever its
    predicate says of its emptied value).  Cleared means that the value, the raw value
    and the clean value become [undefined] (the default value is kept but
    not restored) and the errors are emptied.  This applies recursively:
    whatever depends, through declarations by name or by list, on the
    changed field or on a field that the pass has changed, is cleared as
    well.  The pass runs no validator: it changes no field in any other way,
    sets no flag, queues no task and logs nothing but scans.  For an acyclic
    dependency configuration the pass returns, with any fuel above twice the
    rank of the changed field. *)
Theorem C2_reset_clears_dependents (E : Env) (fuel : nat) (formFields : Fields)
    (fieldName : string) (w : World) :
  (forall formFields' w',
     resetDependentFields E fuel formFields fieldName None w = Ok (formFields', w') ->
     (forall pre d post f,
        keys formFields = pre ++ d :: post ->
        d <> fieldName ->
        lookupField formFields d = Some f ->
        exists reached wR,
          scanUpTo E fuel formFields fieldName None pre w = Ok (reached, wR)
          /\ clearsSomeOf formFields reached
          /\ (isDependentField E reached f fieldName fieldName = true ->
              lookupField formFields' d = Some (getNextResetField f false)))
     /\ (forall x d f,
           x = fieldName \/ changedBy formFields formFields' x ->
           DependsByName formFields x d ->
           lookupField formFields d = Some f ->
           lookupField formFields' d = Some (getNextResetField f false))
     /\ (forall f : Field,
           errors (getNextResetField f false) = []
           /\ value (getNextResetField f false) = VUndefined
           /\ rawValue (getNextResetField f false) = VUndefined
           /\ cleanValue (getNextResetField f false) = VUndefined
           /\ defaultValue (getNextResetField f false) = defaultValue f
           /\ config (getNextResetField f false) = config f)
     /\ clearsSomeOf formFields formFields'
     /\ onlyScans w w')
  /\ (forall rank,
       acyclicBy rank formFields ->
       In fieldName (keys formFields) ->
       2 * rank fieldName < fuel ->
       exists formFields' w',
         resetDependentFields E fuel formFields fieldName None w = Ok (formFields', w')).
Proof.
  split.
  - intros formFields' w' H. split; [|split; [|split]].
    + intros pre d post f Hk Hd Hf.
      exact (resetDependentFields_direct E fuel formFields fieldName None w formFields' w'
               pre d post f H Hk Hd Hf).
    + intros x d f Hseed Hdep Hf.
      exact (resetDependentFields_recursive E fuel formFields fieldName w formFields' w'
               x d f H Hseed Hdep Hf).
    + intros f. by repeat split.
    + by apply resetDependentFields_clears in H.
  - intros rank Hacyc Hin Hfuel.
    destruct (resetDependentFields_returns E rank fuel formFields fieldName w
                Hacyc Hin Hfuel) as (fs' & w' & _ & H & _).
    eauto.
Qed.

(** C8: [validateForm] returns (for a form whose child forms can be read
    and whose validators do not reject with [null] or [undefined]), and it
    resolves to [true] exactly when, after the pass, no validated field
    holds an error of a type other than [server] and no validated field
    reported failing child forms.  A field that is not validated (excluded,
    not targeted, or skipped) comes out free of errors.  A validated field
    comes out with the errors of this pass alone: they are [awaitedErrors],
    a function of the form values, of the configuration of the field and of
    the value it holds, in which the errors that the field held before the
    pass do not occur; a [server] error held before the pass is dropped and
    cannot make the result [false]. *)
Theorem C8_validateForm_true_iff (E : Env)
    (targetFields excludeFields : option (list string)) (formFields : Fields) (w : World) :
  NoDup (keys formFields) ->
  formReady formFields ->
  rejectsWithReason formFields ->
  exists isValid nextFormFields w',
    validateForm E targetFields excludeFields formFields w = Ok ((isValid, nextFormFields), w')
    /\ (isValid = true <->
         (forall n f', isFieldValidated E targetFields excludeFields formFields
                         (getFormValues E formFields) n = true ->
            lookupField nextFormFields n = Some f' ->
            forall e, In e (errors f') -> type e = server_t)
         /\ (forall n f, isFieldValidated E targetFields excludeFields formFields
                           (getFormValues E formFields) n = true ->
            lookupField formFields n = Some f -> runChildFormsValidation E f = false))
    /\ (forall n f, lookupField formFields n = Some f ->
          isFieldValidated E targetFields excludeFields formFields
            (getFormValues E formFields) n = false ->
          lookupField nextFormFields n = Some (getNextErrorsFreeField f))
    /\ (forall n f, lookupField formFields n = Some f ->
          isFieldValidated E targetFields excludeFields formFields
            (getFormValues E formFields) n = true ->
          exists f' filteredValue,
            (forall w0, asyncFilteredValue f w0 = Ok (filteredValue, w0))
            /\ lookupField nextFormFields n = Some f'
            /\ awaitedErrors E (getFormValues E formFields) (config f) filteredValue
               = Some (errors f')).
Proof.
  intros Hnd Hr Hrej.
  destruct (validateForm_total E targetFields excludeFields formFields w Hr Hrej)
    as (isValid & next & w' & H).
  exists isValid, next, w'. split; [exact H|].
  destruct (validateForm_spec E targetFields excludeFields formFields w w' isValid next
              Hnd H) as (Hiff & Hskipped & Hvalidated).
  split; [exact Hiff|]. split; [exact Hskipped|].
  intros n f Hf Hv.
  destruct (Hvalidated n (lookupField_Some_keys _ _ _ Hf) Hv) as (f' & w1 & w2 & Hrun & Hn).
  destruct (executeFieldValidatorAsync_errors E formFields n w1 w2 f' Hrun)
    as (g & v & Hg & Hv' & Herr).
  rewrite Hf in Hg. injection Hg as <-.
  exists f', v. split; [|by split].
  intros w0. by eapply asyncFilteredValue_any_world.
Qed.

(** C9, as amended: the rescan returns, and in it every field other than
    the changed one whose flag is set when the rescan starts is re-validated
    by [executeFieldValidator] with its current raw value (filtered, or the
    child forms' values), unless it is skip-eligible, in which case it is
    left as it is.  The flag of a scanned field is cleared right after its
    own visit; it is false after the rescan provided no validator of a field
    visited later schedules it again. *)
Theorem C9_scheduled_fields_are_revalidated (E : Env) (fieldName : string)
    (formFields : Fields) (fin : bool) (w : World) :
  NoDup (keys formFields) ->
  formReady formFields ->
  exists formFields' w',
    triggerScheduledFieldsValidations E fieldName formFields fin w = Ok (formFields', w')
    /\ forall pre n post f,
         keys formFields = pre ++ n :: post ->
         n <> fieldName ->
         lookupField formFields n = Some f ->
         (n ∈ scheduled w ->
            exists fs1 w1,
              (forall k, ~ In k pre -> lookupField fs1 k = lookupField formFields k)
              /\ (checkIsSkipField E n (getFormValues E formFields) fs1 = false ->
                    exists v validated w2,
                      currentFilteredValue f w1 = Ok (v, w1)
                      /\ executeFieldValidator E fs1 n v fin w1 = Ok (validated, w2)
                      /\ lookupField formFields' n = Some validated)
              /\ (checkIsSkipField E n (getFormValues E formFields) fs1 = true ->
                    lookupField formFields' n = Some f))
         /\ ((forall m g, In m post -> lookupField formFields m = Some g ->
                ~ maySchedule E g n) ->
             n ∉ scheduled w').
Proof.
  intros Hnd Hr.
  destruct (triggerScheduledFieldsValidations_total E fieldName formFields fin w Hr)
    as (fs' & w' & H).
  exists fs', w'. split; [exact H|]. by apply rescan_spec.
Qed.

(** C10: when an interactive field receives a string through
    [getNextFieldsState], the call returns (once the reset pass has) and the
    leading white space is stripped first.  The
    stored raw value is the stripped string, passed through the filter when
    one is configured; when the field is validated, the type validator is
    called with that same value (sanitized).  The stripped string does not
    begin with white space, and a string of spaces is stripped to the empty
    string. *)
Theorem C10_leading_whitespace_is_trimmed (E : Env) (fuel : nat) (fieldName : string)
    (s : string) (formFields : Fields) (isValidate isFormat fin : bool) (w : World)
    (formField : Field) :
  lookupField formFields fieldName = Some formField ->
  checkIfHoneyFormFieldIsInteractive (config formField) = true ->
  formReady formFields ->
  (isValidate = true ->
   exists fsR wR, resetDependentFields E fuel formFields fieldName None w = Ok (fsR, wR)) ->
  exists formFields' w' f',
    getNextFieldsState E fuel fieldName (VString s) formFields isValidate isFormat fin w
    = Ok (formFields', w')
    /\ lookupField formFields' fieldName = Some f'
    /\ rawValue f'
       = match Config.filter (config formField) with
         | Some filter => filter (VString (trimStart s))
         | None => VString (trimStart s)
         end
    /\ (isValidate = true ->
        In (TypeValidatorCalled fieldName
              (sanitizeFieldValue E (Config.type (config formField))
                 match Config.filter (config formField) with
                 | Some filter => filter (VString (trimStart s))
                 | None => VString (trimStart s)
                 end)) (trace w'))
    /\ (forall c rest, trimStart s = String c rest -> isWhiteSpace c = false)
    /\ (forall k, s = spaces k -> trimStart s = "").
Proof.
  intros Hf Hi Hr Hreset.
  destruct (getNextFieldsState_total E fuel fieldName (VString s) formFields isValidate
              isFormat fin w formField Hf Hr Hreset) as (fs' & w' & H).
  destruct (getNextFieldsState_trims E fuel fieldName s formFields isValidate isFormat fin w
              fs' w' formField Hf Hi H) as (f' & Hprops).
  exists fs', w', f'. split; [exact H|exact Hprops].
Qed.

(** ** The properties at concrete forms *)

Lemma whileFilled_accepts (name x : string) (c : Config.t) :
  Config.dependsOn c = whileFilled name -> mayDepend c x x -> x = name.
Proof.
  unfold mayDepend. intros ->. simpl. intros (v & formValues & H).
  apply andb_true_iff in H as [H _]. by apply String.eqb_eq in H.
Qed.

Lemma deliveryForm_acyclic : acyclicBy deliveryRank deliveryForm.
Proof.
  intros x d f Hx Hf Hdep. unfold deliveryForm in Hf. cbn [lookupField] in Hf.
  destruct (String.eqb_spec "country" d) as [<-|_].
  { injection Hf as <-. destruct Hdep. }
  destruct (String.eqb_spec "zip" d) as [<-|_].
  { injection Hf as <-. apply (whileFilled_accepts "country") in Hdep as ->; [|done].
    vm_compute. lia. }
  destruct (String.eqb_spec "phone" d) as [<-|_]; [|discriminate].
  injection Hf as <-. apply (whileFilled_accepts "country") in Hdep as ->; [|done].
  vm_compute. lia.
Defined.

Lemma parcelForm_acyclic : acyclicBy parcelRank parcelForm.
Proof.
  intros x d f Hx Hf Hdep. unfold parcelForm, deliveryForm in Hf.
  cbn [app lookupField] in Hf.
  destruct (String.eqb_spec "country" d) as [<-|_].
  { injection Hf as <-. destruct Hdep. }
  destruct (String.eqb_spec "zip" d) as [<-|_].
  { injection Hf as <-. apply (whileFilled_accepts "country") in Hdep as ->; [|done].
    vm_compute. lia. }
  destruct (String.eqb_spec "phone" d) as [<-|_].
  { injection Hf as <-. apply (whileFilled_accepts "country") in Hdep as ->; [|done].
    vm_compute. lia. }
  destruct (String.eqb_spec "courier" d) as [<-|_]; [|discriminate].
  injection Hf as <-. unfold mayDepend in Hdep. simpl in Hdep. subst x.
  vm_compute. lia.
Defined.

Lemma formReady_no_childForms (formFields : Fields) :
  Forall (fun entry => childForms entry.2 = None) formFields -> formReady formFields.
Proof.
  induction 1 as [|[m g] rest Hg _ IH]; intros n f Hf l Hl; simpl in Hf; [discriminate|].
  destruct (String.eqb m n).
  - injection Hf as <-. simpl in Hg. congruence.
  - by eapply IH.
Qed.

Lemma rejectsWithReason_Forall (formFields : Fields) :
  Forall (fun entry =>
            forall validator v formValues,
              Config.validator (config entry.2) = Some validator ->
              response (validator v formValues) <> Async (Rejected ReasonNullish))
    formFields ->
  rejectsWithReason formFields.
Proof.
  induction 1 as [|[m g] rest Hg _ IH]; intros n f validator v formValues Hf Hv;
    simpl in Hf; [discriminate|].
  destruct (String.eqb m n).
  - injection Hf as <-. by eapply Hg.
  - by eapply IH.
Qed.

(** C2, witness: in [parcelForm] a change of [country] clears [phone],
    whose predicate reads its own value, and [courier], which names [zip],
    a field that the pass has changed; the form is acyclic. *)
Lemma C2_reset_clears_dependents_witness :
  exists formFields' w',
    resetDependentFields plainEnv 5 parcelForm "country" None emptyWorld
    = Ok (formFields', w')
    /\ lookupField formFields' "phone"
       = Some (getNextResetField (textField (whileFilled "country") None "+380") false)
    /\ lookupField formFields' "courier"
       = Some (getNextResetField (textField (DependsOnName "zip") None "post") false)
    /\ clearsSomeOf parcelForm formFields'
    /\ onlyScans emptyWorld w'.
Proof.
  destruct (C2_reset_clears_dependents plainEnv 5 parcelForm "country" emptyWorld)
    as [Hspec Hreturns].
  destruct (Hreturns parcelRank parcelForm_acyclic ltac:(by left) ltac:(vm_compute; lia))
    as (formFields' & w' & Hrun).
  destruct (Hspec formFields' w' Hrun) as (Hdirect & Hrecursive & _ & Hclears & Hscans).
  destruct (Hdirect ["country"] "zip" ["phone"; "courier"]
              (textField (whileFilled "country") None "01001") eq_refl ltac:(done) eq_refl)
    as (reachedZ & wZ & _ & _ & Hzip).
  destruct (Hdirect ["country"; "zip"] "phone" ["courier"]
              (textField (whileFilled "country") None "+380") eq_refl ltac:(done) eq_refl)
    as (reachedP & wP & _ & _ & Hphone).
  exists formFields', w'. split; [exact Hrun|]. split; [by apply Hphone|].
  split; [|by split].
  apply (Hrecursive "zip" "courier"); [right| |reflexivity].
  - eexists _, _. split; [reflexivity|]. split; [by apply Hzip|].
    intros Heq. by apply (f_equal value) in Heq.
  - by eapply depends_direct with (f := textField (DependsOnName "zip") None "post").
Defined.

(** C3, witness: [deliveryForm] is acyclic, with [country] of rank 1; its
    two other fields depend on [country] through a predicate. *)
Lemma C3_acyclic_pass_terminates_witness :
  exists formFields' w' evs,
    resetDependentFields plainEnv 3 deliveryForm "country" None emptyWorld
    = Ok (formFields', w')
    /\ lookupField formFields' "country" = Some (textField DependsOnNothing None "UA")
    /\ trace w' = trace emptyWorld ++ DependentsScanned "country" "country" :: evs
    /\ (forall t i, In (DependentsScanned t i) evs ->
          t <> "country" /\ deliveryRank t < deliveryRank "country").
Proof.
  destruct (C3_acyclic_pass_terminates plainEnv deliveryRank deliveryForm "country"
              (textField DependsOnNothing None "UA") emptyWorld 3 deliveryForm_acyclic
              eq_refl ltac:(vm_compute; lia)) as [Hreturns _].
  exact Hreturns.
Defined.

(** The bound is reached: the pass for [country], of rank 1, nests three
    scans, because the scan from [zip] asks the predicate of [phone] about
    [country], its initiator. *)
Example nesting_reaches_twice_the_rank :
  resetDependentFields plainEnv 2 deliveryForm "country" None emptyWorld = OutOfFuel
  /\ exists fs' w',
       resetDependentFields plainEnv 3 deliveryForm "country" None emptyWorld
       = Ok (fs', w')
       /\ trace w'
          = [DependentsScanned "country" "country"; DependentsScanned "zip" "country";
             DependentsScanned "phone" "zip"].
Proof.
  split; [vm_compute; reflexivity|].
  eexists _, _. split; [vm_compute; reflexivity|reflexivity].
Qed.

(** In a cycle of three fields the pass never returns, whatever the fuel:
    the guard compares a dependent with the trigger of the enclosing scan
    only, and the scan comes back to the changed field. *)
Lemma three_cycle_never_returns (E : Env) (fuel : nat) :
  forall fs t i0 w fs' w',
    clearsSomeOf threeCycleForm fs ->
    t = "a" \/ t = "b" \/ t = "c" ->
    orFieldName i0 t <> nextInCycle t ->
    resetDependentFields E fuel fs t i0 w <> Ok (fs', w').
Proof.
  induction fuel as [|fuel IH]; intros fs t i0 w fs' w' Hc Ht Hi H; simpl in H;
    [discriminate|].
  set (i := orFieldName i0 t) in *.
  apply bind_Ok in H as ([] & w1 & _ & H). unfold forEachFormField in H.
  pose proof (resetDependentFields_clears E fuel) as Hrec.
  assert (Hd : exists f, lookupField threeCycleForm (nextInCycle t) = Some f
                         /\ declaresDependency (config f) t i
                         /\ nextInCycle t <> t
                         /\ orFieldName (Some t) (nextInCycle t) = t
                         /\ t <> nextInCycle (nextInCycle t)).
  { destruct Ht as [->|[->| ->]]; eexists; (split; [reflexivity|]); by repeat split. }
  destruct Hd as (f & Hf & Hdep & Hne & Hini & Hnext).
  destruct Hc as [Hk Hl].
  destruct (Hl _ _ Hf) as (g & Hg & Hsame).
  destruct (forEachKey_visit _ _ (nextInCycle t) _ _ _ _
              (lookupField_Some_keys _ _ _ Hg) H)
    as (pre & post & fsA & wA & fsB & wB & _ & HA & HB & _).
  apply (forEachKey_clears E _ _ _ _ _ _ _ _ Hrec) in HA as [HcA _].
  destruct HcA as [HkA HlA].
  destruct (HlA _ _ Hg) as (gA & HgA & HsameA).
  unfold resetIfDependent in HB.
  destruct (String.eqb_spec (nextInCycle t) t) as [|_]; [contradiction|].
  apply bind_Ok in HB as (g' & wA' & Hget & HB).
  apply getField_Ok in Hget as [Hget ->]. rewrite HgA in Hget. injection Hget as <-.
  rewrite declaresDependency_isDependent in HB
    by (by rewrite (sameOrCleared_config _ _ HsameA), (sameOrCleared_config _ _ Hsame)).
  destruct (String.eqb_spec (nextInCycle t) i) as [Heq|_]; [by symmetry in Heq|].
  simpl in HB. revert HB. apply IH.
  - eapply clearsSomeOf_trans; [split; [exact Hk|exact Hl]|].
    eapply clearsSomeOf_trans; [split; [exact HkA|exact HlA]|].
    by apply clearsSomeOf_setField.
  - destruct Ht as [->|[->| ->]]; vm_compute; tauto.
  - by rewrite Hini.
Qed.

Lemma serverErredForm_NoDup : NoDup (keys serverErredForm).
Proof. apply NoDup_singleton. Defined.

(** C8, witness: the only field of [serverErredForm] holds a [server] error
    from an earlier submit.  The pass returns [true], and the field comes
    out without the error. *)
Lemma C8_validateForm_true_iff_witness :
  errors <$> lookupField serverErredForm "email"
  = Some [mkError server_t (MString "already taken")]
  /\ exists isValid nextFormFields w',
      validateForm plainEnv None None serverErredForm emptyWorld
      = Ok ((isValid, nextFormFields), w')
      /\ isValid = true
      /\ errors <$> lookupField nextFormFields "email" = Some [].
Proof.
  split; [reflexivity|].
  destruct (C8_validateForm_true_iff plainEnv None None serverErredForm emptyWorld
              serverErredForm_NoDup
              (formReady_no_childForms serverErredForm ltac:(by repeat constructor))
              (rejectsWithReason_Forall serverErredForm ltac:(by repeat constructor)))
    as (isValid & next & w' & Hrun & Hiff & _).
  exists isValid, next, w'. split; [exact Hrun|].
  assert (Hcomputed : validateForm plainEnv None None serverErredForm emptyWorld
                      = Ok ((true, [("email",
                               getNextValidatedField [] (Some (RBoolean true))
                                 (getNextErredField (textField DependsOnNothing None "a@b.c")
                                    [mkError server_t (MString "already taken")])
                                 (VString "a@b.c"))]),
                            mkWorld ∅ [] [TypeValidatorCalled "email" (VString "a@b.c")]))
    by reflexivity.
  rewrite Hcomputed in Hrun. by injection Hrun as <- <- _.
Defined.

(** A targeted call validates the first of its targets: the required field
    [name] is empty, and the call returns [false]. *)
Example validateForm_validates_its_first_target :
  exists nextFormFields w' f',
    validateForm plainEnv (Some ["name"]) None requiredForm emptyWorld
    = Ok ((false, nextFormFields), w')
    /\ lookupField nextFormFields "name" = Some f'
    /\ errors f' = [mkError required_t (MString "The value is required");
                    mkError invalid_t (MString "custom")].
Proof. eexists _, _, _. split; [vm_compute; reflexivity|]. split; reflexivity. Qed.

Lemma rangeForm_NoDup : NoDup (keys rangeForm).
Proof.
  repeat (apply NoDup_cons; split; [by vm_compute; intros Hin; set_solver|]).
  apply NoDup_nil. done.
Defined.

(** C9, witness: only [max] is marked when the rescan of [rangeForm]
    starts; it is the last field visited. *)
Lemma C9_scheduled_fields_are_revalidated_witness :
  exists formFields' w',
    triggerScheduledFieldsValidations plainEnv "currency" rangeForm true maxWorld
    = Ok (formFields', w')
    /\ (exists fs1 w1,
          (forall k, ~ In k ["currency"; "min"] ->
             lookupField fs1 k = lookupField rangeForm k)
          /\ (checkIsSkipField plainEnv "max" (getFormValues plainEnv rangeForm) fs1 = false ->
                exists v validated w2,
                  currentFilteredValue
                    (textField DependsOnNothing (Some (schedulingValidator "min")) "9") w1
                  = Ok (v, w1)
                  /\ executeFieldValidator plainEnv fs1 "max" v true w1 = Ok (validated, w2)
                  /\ lookupField formFields' "max" = Some validated)
          /\ (checkIsSkipField plainEnv "max" (getFormValues plainEnv rangeForm) fs1 = true ->
                lookupField formFields' "max"
                = Some (textField DependsOnNothing (Some (schedulingValidator "min")) "9")))
    /\ "max" ∉ scheduled w'.
Proof.
  destruct (C9_scheduled_fields_are_revalidated plainEnv "currency" rangeForm true maxWorld
              rangeForm_NoDup
              (formReady_no_childForms rangeForm ltac:(by repeat constructor)))
    as (formFields' & w' & Hrun & Hspec).
  destruct (Hspec ["currency"; "min"] "max" []
              (textField DependsOnNothing (Some (schedulingValidator "min")) "9")
              eq_refl ltac:(discriminate) eq_refl) as [Hvalidated Hflag].
  exists formFields', w'. split; [exact Hrun|]. split.
  - apply Hvalidated. refine (bool_decide_unpack _ _). by vm_compute.
  - apply Hflag. intros m g [].
Defined.

(** C10, witness: [currency] receives ["   USD "]. *)
Lemma C10_leading_whitespace_is_trimmed_witness :
  exists formFields' w' f',
    getNextFieldsState plainEnv 3 "currency" (VString "   USD ") rangeForm true true true
      emptyWorld = Ok (formFields', w')
    /\ lookupField formFields' "currency" = Some f'
    /\ rawValue f' = VString "USD "
    /\ In (TypeValidatorCalled "currency" (VString "USD ")) (trace w').
Proof.
  destruct (C10_leading_whitespace_is_trimmed plainEnv 3 "currency" "   USD " rangeForm
              true true true emptyWorld (textField DependsOnNothing None "EUR")
              eq_refl eq_refl
              (formReady_no_childForms rangeForm ltac:(by repeat constructor))
              ltac:(intros _; eexists _, _; vm_compute; reflexivity))
    as (formFields' & w' & f' & Hrun & Hf' & Hraw & Hcalled & _).
  exists formFields', w', f'. split; [exact Hrun|]. split; [exact Hf'|].
  split; [exact Hraw|]. exact (Hcalled eq_refl).
Defined.

(** A value of spaces only is stored as the empty string. *)
Example spaces_become_the_empty_string :
  exists formFields' w' f',
    getNextFieldsState plainEnv 3 "currency" (VString (spaces 4)) rangeForm false true true
      emptyWorld = Ok (formFields', w')
    /\ lookupField formFields' "currency" = Some f'
    /\ rawValue f' = VString "".
Proof. eexists _, _, _. split; [vm_compute; reflexivity|]. split; reflexivity. Qed.

(** * Further properties of the engine *)

(** ** What the loops over the collection leave alone *)

Ltac ret_inv H :=
  apply ret_Ok in H; injection H; clear H; intros; subst.

Lemma resetIfDependent_independent (E : Env)
    (recurse : Fields -> string -> option string -> M Fields) (t i other : string)
    (n : string) (f : Field) (fs fs' : Fields) (w w' : World) :
  (forall fs t i w fs' w',
     recurse fs t i w = Ok (fs', w') ->
     lookupField fs n = Some f -> lookupField fs' n = Some f) ->
  (forall t i, ~ mayDepend (config f) t i) ->
  resetIfDependent E recurse t i other fs w = Ok (fs', w') ->
  lookupField fs n = Some f -> lookupField fs' n = Some f.
Proof.
  intros IH Hindep H Hn. unfold resetIfDependent in H.
  destruct (String.eqb other t); [by ret_inv H|].
  apply bind_Ok in H as (g & w1 & Hg & H). apply getField_Ok in Hg as [Hg ->].
  destruct (isDependentField E fs g t i) eqn:Hdep; [|by ret_inv H].
  assert (Hne : other <> n).
  { intros ->. rewrite Hn in Hg. injection Hg as <-.
    apply isDependent_mayDepend in Hdep. by eapply Hindep. }
  assert (Hset : lookupField (setField fs other (getNextResetField g false)) n = Some f)
    by by rewrite lookupField_setField_ne.
  destruct (negb (String.eqb other i)).
  - by eapply IH.
  - by ret_inv H.
Qed.

(** X1: a field whose [dependsOn] can never hold (no declaration, or a
    function that never returns [true]) comes out of a dependency pass as it
    went in, whichever field triggered the pass and however deep the pass
    recursed. *)
Theorem X1_reset_pass_spares_independent_fields (E : Env) (fuel : nat)
    (formFields : Fields) (fieldName : string) (initiatorFieldName : option string)
    (w : World) (formFields' : Fields) (w' : World) (n : string) (f : Field) :
  resetDependentFields E fuel formFields fieldName initiatorFieldName w
  = Ok (formFields', w') ->
  lookupField formFields n = Some f ->
  (forall t i, ~ mayDepend (config f) t i) ->
  lookupField formFields' n = Some f.
Proof.
  intros H Hn Hindep.
  revert formFields fieldName initiatorFieldName w formFields' w' H Hn.
  induction fuel as [|fuel IH]; intros fs t i w fs' w' H Hn; simpl in H; [discriminate|].
  apply bind_Ok in H as ([] & w1 & _ & H). unfold forEachFormField in H.
  eapply (forEachKey_inv (fun fs _ => lookupField fs n = Some f)); [|exact Hn|exact H].
  intros other fs1 wA fs2 wB _ Hinv Hstep. simpl in *.
  eapply resetIfDependent_independent; [|exact Hindep|exact Hstep|exact Hinv].
  intros. by eapply IH.
Qed.

Lemma X1_reset_pass_spares_independent_fields_witness :
  exists formFields' w',
    resetDependentFields plainEnv 3 addressForm "city" None emptyWorld = Ok (formFields', w')
    /\ lookupField formFields' "country" = Some (textField DependsOnNothing None "UA").
Proof.
  assert (H : exists r, resetDependentFields plainEnv 3 addressForm "city" None emptyWorld
                        = Ok r) by (eexists; vm_compute; reflexivity).
  destruct H as ([fs' w'] & H). exists fs', w'. split; [exact H|].
  apply (X1_reset_pass_spares_independent_fields _ _ _ _ _ _ _ _ _ _ H).
  - reflexivity.
  - intros t i Hd. exact Hd.
Defined.

Lemma rescan_unflagged (E : Env) (A : string) (formValues : FormValues) (fin : bool)
    (fs : Fields) (w : World) (names : list string) :
  (forall n, In n names -> In n (keys fs)) ->
  (forall n, In n names -> n <> A -> n ∉ scheduled w) ->
  forEachKey names (validateIfScheduled E A formValues fin) fs w = Ok (fs, w).
Proof.
  induction names as [|n names IH]; intros Hkeys Hflags; [done|].
  simpl. erewrite bind_eq; [apply IH; intros; [apply Hkeys|apply Hflags]; by try right|].
  unfold validateIfScheduled. destruct (String.eqb_spec n A) as [->|Hne]; [done|].
  destruct (keys_lookupField fs n) as [g Hg]; [apply Hkeys; by left|].
  erewrite bind_eq; [|by apply getField_Ok].
  erewrite bind_eq; [|reflexivity].
  rewrite bool_decide_eq_false_2; [done|]. apply Hflags; [by left|done].
Qed.

(** X2: when no field other than the changed one is marked for
    re-validation, the re-scan returns the collection and the world it was
    given: no validator runs and no field is replaced. *)
Theorem X2_rescan_without_marks_changes_nothing (E : Env) (fieldName : string)
    (formFields : Fields) (fin : bool) (w : World) :
  (forall n, In n (keys formFields) -> n <> fieldName -> n ∉ scheduled w) ->
  triggerScheduledFieldsValidations E fieldName formFields fin w = Ok (formFields, w).
Proof.
  intros Hflags. unfold triggerScheduledFieldsValidations, forEachFormField.
  by apply rescan_unflagged.
Qed.

Lemma X2_rescan_without_marks_changes_nothing_witness :
  triggerScheduledFieldsValidations plainEnv "currency" rangeForm true emptyWorld
  = Ok (rangeForm, emptyWorld).
Proof.
  apply X2_rescan_without_marks_changes_nothing.
  intros n _ _. simpl. set_solver.
Defined.

Lemma getNextErrorsFreeField_idempotent (f : Field) :
  getNextErrorsFreeField (getNextErrorsFreeField f) = getNextErrorsFreeField f.
Proof.
  destruct f as [c errs dv rv cv v iv p pp op cf init].
  destruct c as [ty req cdv dep em val fil fmt].
  destruct ty; reflexivity.
Qed.

(** [f'] is [f], or [f] with its errors cleared. *)
Lemma processSkippableFields_step (E : Env) (formValues : FormValues) (fs0 : Fields)
    (names : list string) :
  forall fs w fs' w',
    keys fs = keys fs0 ->
    (forall n f, lookupField fs0 n = Some f ->
       lookupField fs n = Some f \/ lookupField fs n = Some (getNextErrorsFreeField f)) ->
    forEachKey names
      (fun otherFieldName nextFormFields =>
         if checkIsSkipField E otherFieldName formValues nextFormFields then
           otherField ← getField nextFormFields otherFieldName;
           mret (setField nextFormFields otherFieldName (getNextErrorsFreeField otherField))
         else mret nextFormFields) fs w = Ok (fs', w') ->
    w' = w
    /\ keys fs' = keys fs0
    /\ forall n f, lookupField fs0 n = Some f ->
         lookupField fs' n = Some f \/ lookupField fs' n = Some (getNextErrorsFreeField f).
Proof.
  induction names as [|m names IH]; intros fs w fs' w' Hk Hinv H.
  - by ret_inv H.
  - simpl in H. apply bind_Ok in H as (fs1 & w1 & Hstep & H).
    destruct (checkIsSkipField E m formValues fs).
    + apply bind_Ok in Hstep as (g & w2 & Hg & Hstep).
      apply getField_Ok in Hg as [Hg ->]. ret_inv Hstep.
      eapply IH; [| |exact H].
      * rewrite <- Hk. by eapply keys_setField.
      * intros n f Hf. destruct (String.eqb_spec m n) as [<-|Hne].
        -- rewrite lookupField_setField_eq. right.
           destruct (Hinv m f Hf) as [H1|H1]; rewrite H1 in Hg; injection Hg as <-;
             [done|by rewrite getNextErrorsFreeField_idempotent].
        -- rewrite lookupField_setField_ne by done. by apply Hinv.
    + ret_inv Hstep. by eapply IH.
Qed.

Lemma processSkippableFields_returns (E : Env) (fs : Fields) (w : World) :
  exists fs', processSkippableFields E fs w = Ok (fs', w).
Proof.
  unfold processSkippableFields, forEachFormField.
  destruct (forEachKey_total (fun fs1 => keys fs1 = keys fs) (keys fs)
              (fun otherFieldName nextFormFields =>
                 if checkIsSkipField E otherFieldName (getFormValues E fs) nextFormFields then
                   otherField ← getField nextFormFields otherFieldName;
                   mret (setField nextFormFields otherFieldName
                           (getNextErrorsFreeField otherField))
                 else mret nextFormFields)) with (fs := fs) (w := w)
    as (fs' & w' & H & _); [|done|].
  - intros n fs1 w1 Hn Hk. destruct (checkIsSkipField E n (getFormValues E fs) fs1).
    + rewrite <- Hk in Hn. destruct (keys_lookupField fs1 n Hn) as [g Hg].
      eexists _, _. split.
      * erewrite bind_eq; [reflexivity|by apply getField_Ok].
      * rewrite <- Hk. by eapply keys_setField.
    + by eexists _, _.
  - pose proof H as H'.
    apply (processSkippableFields_step E _ fs) in H' as [-> _]; [by exists fs'|done|].
    intros; by left.
Qed.

(** X3: the pass over skippable fields returns, leaves the world as it is
    and keeps the keys; each field comes out unchanged or with its errors
    cleared by [getNextErrorsFreeField], so no value of the form changes. *)
Theorem X3_skip_pass_only_clears_errors (E : Env) (formFields : Fields) (w : World) :
  exists formFields',
    processSkippableFields E formFields w = Ok (formFields', w)
    /\ keys formFields' = keys formFields
    /\ forall n f, lookupField formFields n = Some f ->
         exists f',
           lookupField formFields' n = Some f'
           /\ (f' = f \/ f' = getNextErrorsFreeField f)
           /\ rawValue f' = rawValue f
           /\ value f' = value f.
Proof.
  destruct (processSkippableFields_returns E formFields w) as [fs' H].
  exists fs'. split; [exact H|].
  unfold processSkippableFields, forEachFormField in H.
  apply (processSkippableFields_step E _ formFields) in H as (_ & Hk & Hall);
    [|done|intros; by left].
  split; [exact Hk|]. intros n f Hf.
  destruct (Hall n f Hf) as [H1|H1]; eexists; (split; [exact H1|]); split; auto.
Qed.

Lemma getNextResetField_again (f : Field) (b1 b2 : bool) :
  getNextResetField (getNextResetField f b1) b2 = getNextResetField f b2.
Proof.
  destruct f as [c errs dv rv cv v iv p pp op cf init].
  destruct c as [ty req cdv dep em val fil fmt].
  destruct ty, b1, b2; reflexivity.
Qed.

(** X4: a reset forgets what earlier reducers did to the field: resetting a
    field that was reset, cleared of errors, given errors or given a new
    value yields the field that resetting the original yields. *)
Theorem X4_reset_absorbs_earlier_reducers (f : Field) (b b0 isFormat : bool)
    (fieldErrors : list FieldError) (v : Value) :
  getNextResetField (getNextResetField f b0) b = getNextResetField f b
  /\ getNextResetField (getNextErrorsFreeField f) b = getNextResetField f b
  /\ getNextResetField (getNextErredField f fieldErrors) b = getNextResetField f b
  /\ getNextResetField (getNextSingleFieldState f v isFormat) b = getNextResetField f b.
Proof.
  split; [apply getNextResetField_again|].
  destruct f as [c errs dv rv cv v0 iv p pp op cf init].
  destruct c as [ty req cdv dep em val fil fmt].
  repeat split; destruct ty, b; reflexivity.
Qed.

Lemma resetAllFields_step (fs0 : Fields) (names : list string) :
  forall fs w,
    keys fs = keys fs0 ->
    (forall n, In n names -> In n (keys fs0)) ->
    (forall n f, lookupField fs0 n = Some f ->
       lookupField fs n = Some f \/ lookupField fs n = Some (getNextResetField f true)) ->
    exists fs',
      forEachKey names
        (fun fieldName nextFormFields =>
           formField ← getField nextFormFields fieldName;
           mret (setField nextFormFields fieldName (getNextResetField formField true)))
        fs w = Ok (fs', w)
      /\ keys fs' = keys fs0
      /\ (forall n f, lookupField fs0 n = Some f ->
            lookupField fs' n = Some f \/ lookupField fs' n = Some (getNextResetField f true))
      /\ (forall n f, In n names -> lookupField fs0 n = Some f ->
            lookupField fs' n = Some (getNextResetField f true)).
Proof.
  induction names as [|m names IH]; intros fs w Hk Hin Hinv.
  - exists fs. repeat split; [done|done|]. by intros n f [].
  - assert (Hm : In m (keys fs)) by (rewrite Hk; apply Hin; by left).
    destruct (keys_lookupField fs m Hm) as [g Hg].
    destruct (keys_lookupField fs0 m) as [g0 Hg0]; [apply Hin; by left|].
    assert (Hreset : getNextResetField g true = getNextResetField g0 true).
    { destruct (Hinv m g0 Hg0) as [H1|H1]; rewrite H1 in Hg; injection Hg as <-;
        [done|apply getNextResetField_again]. }
    destruct (IH (setField fs m (getNextResetField g true)) w)
      as (fs' & H & Hk' & Hinv' & Hdone).
    + rewrite <- Hk. by eapply keys_setField.
    + intros; apply Hin; by right.
    + intros n f Hf. destruct (String.eqb_spec m n) as [<-|Hne].
      * rewrite lookupField_setField_eq. right. congruence.
      * rewrite lookupField_setField_ne by done. by apply Hinv.
    + exists fs'. split; [|split; [done|split; [done|]]].
      * simpl. erewrite bind_eq; [exact H|].
        erewrite bind_eq; [reflexivity|by apply getField_Ok].
      * intros n f [<-|Hn] Hf; [|by apply Hdone].
        destruct (in_dec String.string_dec m names) as [Hlater|Hlast];
          [by apply Hdone|].
        assert (Hkeep : forall names' fsA wA fsB wB,
                  ~ In m names' ->
                  forEachKey names'
                    (fun fieldName nextFormFields =>
                       formField ← getField nextFormFields fieldName;
                       mret (setField nextFormFields fieldName
                               (getNextResetField formField true)))
                    fsA wA = Ok (fsB, wB) ->
                  lookupField fsB m = lookupField fsA m).
        { clear. induction names' as [|k names' IH]; intros fsA wA fsB wB Hnot H.
          - by ret_inv H.
          - simpl in H. apply bind_Ok in H as (fs1 & w1 & Hstep & H).
            apply bind_Ok in Hstep as (g & w2 & Hg & Hstep).
            ret_inv Hstep.
            rewrite (IH _ _ _ _ (fun Hm => Hnot (or_intror Hm)) H).
            apply lookupField_setField_ne. intros ->. apply Hnot. by left. }
        rewrite (Hkeep _ _ _ _ _ Hlast H), lookupField_setField_eq. congruence.
Qed.

(** X5: [resetAllFields] returns, keeps the keys and the world, and leaves
    every field as [getNextResetField] with the default value makes it: no
    errors, and raw, clean and displayed value equal to the default. *)
Theorem X5_resetAllFields_resets_every_field (formFields : Fields) (w : World) :
  exists formFields',
    resetAllFields formFields w = Ok (formFields', w)
    /\ keys formFields' = keys formFields
    /\ forall n f, lookupField formFields n = Some f ->
         exists f',
           lookupField formFields' n = Some f'
           /\ f' = getNextResetField f true
           /\ errors f' = []
           /\ rawValue f' = defaultValue f
           /\ cleanValue f' = defaultValue f
           /\ value f' = defaultValue f.
Proof.
  destruct (resetAllFields_step formFields (keys formFields) formFields w)
    as (fs' & H & Hk & _ & Hdone); [done|done|intros; by left|].
  exists fs'. split; [exact H|]. split; [exact Hk|].
  intros n f Hf. eexists. split; [apply Hdone; [by eapply lookupField_Some_keys|done]|].
  by repeat split.
Qed.

(** ** What a validation pass does to its field *)

Lemma getNextValidatedField_frame (errs : list FieldError) (vr : option ValidationResult)
    (f : Field) (v : Value) :
  config (getNextValidatedField errs vr f v) = config f
  /\ defaultValue (getNextValidatedField errs vr f v) = defaultValue f
  /\ rawValue (getNextValidatedField errs vr f v) = rawValue f
  /\ value (getNextValidatedField errs vr f v) = value f
  /\ cleanValue (getNextValidatedField errs vr f v)
     = match errors (getNextValidatedField errs vr f v) with
       | [] => v
       | _ :: _ => VUndefined
       end.
Proof.
  unfold getNextValidatedField.
  destruct (handleFieldValidationResult errs (config f) vr) as [|e l] eqn:Hh; simpl;
    by rewrite ?Hh.
Qed.

(** The field a validation returns is [getNextValidatedField] of the field it
    read, marked as validating when the validator returned a promise. *)
Lemma executeFieldValidator_shape (E : Env) (fs : Fields) (n : string) (v : Value)
    (fin : bool) (w : World) (f : Field) :
  lookupField fs n = Some f ->
  exists errs vr g w',
    executeFieldValidator E fs n v fin w
    = Ok (getNextValidatedField errs vr g
            (sanitizeFieldValue E (Config.type (config f)) v), w')
    /\ (g = f \/ g = getNextAsyncValidatingField f)
    /\ scheduled w ⊆ scheduled w'.
Proof.
  intros Hf.
  destruct (executeFieldTypeValidator_Ok E fs n f
              (sanitizeFieldValue E (Config.type (config f)) v) w)
    as (vr & w1 & H1 & _ & Hs & _).
  unfold executeFieldValidator, getField. rewrite Hf.
  rewrite (bind_eq _ _ w w f) by reflexivity. rewrite (bind_eq _ _ _ _ _ H1).
  destruct (isNullOrTrue vr); [|eexists _, _, _, _; split; [reflexivity|by split; [left|]]].
  destruct (Config.validator (config f)) as [validator|];
    [|eexists _, _, _, _; split; [reflexivity|by split; [left|]]].
  rewrite (bind_eq _ _ _ _ _ (callValidator_Ok _ _ _ _ _)).
  destruct (response _) as [r|p].
  - eexists _, _, _, _; split; [reflexivity|]. split; [by left|]. simpl. set_solver.
  - unfold mbind, M_bind, defer; simpl.
    eexists _, _, _, _; split; [reflexivity|]. split; [by right|]. simpl. set_solver.
Qed.

(** X6: a validation never changes what the field holds for the user: the
    configuration, the default, the raw and the displayed value are those of
    the field it read.  The clean value is the sanitized value it validated
    when it found no error, and [undefined] otherwise.  It never clears
    [isValidating], and it never clears a mark for re-validation. *)
Theorem X6_validation_keeps_the_value (E : Env) (formFields : Fields) (n : string)
    (v : Value) (fin : bool) (w : World) (f : Field) :
  lookupField formFields n = Some f ->
  exists f' w',
    executeFieldValidator E formFields n v fin w = Ok (f', w')
    /\ config f' = config f
    /\ defaultValue f' = defaultValue f
    /\ rawValue f' = rawValue f
    /\ value f' = value f
    /\ cleanValue f'
       = match errors f' with
         | [] => sanitizeFieldValue E (Config.type (config f)) v
         | _ :: _ => VUndefined
         end
    /\ (isValidating f = true -> isValidating f' = true)
    /\ scheduled w ⊆ scheduled w'.
Proof.
  intros Hf.
  destruct (executeFieldValidator_shape E formFields n v fin w f Hf)
    as (errs & vr & g & w' & H & Hg & Hs).
  eexists _, _. split; [exact H|].
  destruct (getNextValidatedField_frame errs vr g
              (sanitizeFieldValue E (Config.type (config f)) v))
    as (Hc & Hd & Hr & Hv & Hcv).
  rewrite Hc, Hd, Hr, Hv, Hcv, getNextValidatedField_isValidating.
  by destruct Hg as [->| ->].
Qed.

Lemma X6_validation_keeps_the_value_witness :
  exists f' w',
    executeFieldValidator strictEnv contactForm "contact" (VString "a@b.c") true emptyWorld
    = Ok (f', w')
    /\ rawValue f' = VString "nobody"
    /\ value f' = VString "nobody"
    /\ errors f' = [mkError invalid_t (MString "custom")]
    /\ cleanValue f' = VUndefined.
Proof.
  destruct (X6_validation_keeps_the_value strictEnv contactForm "contact" (VString "a@b.c")
              true emptyWorld _ eq_refl)
    as (f' & w' & H & _ & _ & Hr & Hv & Hcv & _).
  exists f', w'. split; [exact H|]. split; [exact Hr|]. split; [exact Hv|].
  assert (He : errors f' = [mkError invalid_t (MString "custom")]).
  { vm_compute in H. by injection H as <- _. }
  split; [exact He|]. by rewrite Hcv, He.
Defined.

(** X7: when the type validator of the field rejects the value (its result
    is neither [null] nor [true]), both validation functions stop there: the
    built-in validators add nothing, the custom validator is not called, no
    task is queued, and the errors of the field are what
    [handleFieldValidationResult] makes of that one result. *)
Theorem X7_type_validator_failure_stops_validation (E : Env) (formFields : Fields)
    (n : string) (f : Field) (v : Value) (fin : bool) (w w1 : World)
    (vr : option ValidationResult) :
  lookupField formFields n = Some f ->
  executeFieldTypeValidator E formFields n f
    (sanitizeFieldValue E (Config.type (config f)) v) w = Ok (vr, w1) ->
  isNullOrTrue vr = false ->
  exists f',
    executeFieldValidator E formFields n v fin w = Ok (f', w1)
    /\ errors f' = handleFieldValidationResult [] (config f) vr
    /\ (asyncFilteredValue f w = Ok (v, w) ->
        executeFieldValidatorAsync E n formFields w = Ok (f', w1)).
Proof.
  intros Hf H1 Hvr.
  exists (getNextValidatedField [] vr f (sanitizeFieldValue E (Config.type (config f)) v)).
  split; [|split].
  - unfold executeFieldValidator, getField. rewrite Hf.
    rewrite (bind_eq _ _ w w f) by reflexivity. rewrite (bind_eq _ _ _ _ _ H1).
    by rewrite Hvr.
  - apply getNextValidatedField_errors.
  - intros H0. unfold executeFieldValidatorAsync, getField. rewrite Hf.
    rewrite (bind_eq _ _ w w f) by reflexivity. rewrite (bind_eq _ _ _ _ _ H0).
    rewrite (bind_eq _ _ _ _ _ H1). by rewrite Hvr.
Qed.

Lemma X7_type_validator_failure_stops_validation_witness :
  exists f' w1,
    executeFieldValidator strictEnv contactForm "contact" (VString "nobody") true emptyWorld
    = Ok (f', w1)
    /\ errors f' = [mkError invalid_t (MString "Invalid email format")]
    /\ trace w1 = [TypeValidatorCalled "contact" (VString "nobody")]
    /\ executeFieldValidatorAsync strictEnv "contact" contactForm emptyWorld = Ok (f', w1).
Proof.
  destruct (X7_type_validator_failure_stops_validation strictEnv contactForm "contact"
              (getNextSingleFieldState (createField contactConfig) (VString "nobody") true)
              (VString "nobody") true emptyWorld
              (mkWorld ∅ [] [TypeValidatorCalled "contact" (VString "nobody")])
              (Some (RMessage (MString "Invalid email format"))))
    as (f' & H & He & Ha); [reflexivity|reflexivity|reflexivity|].
  exists f', (mkWorld ∅ [] [TypeValidatorCalled "contact" (VString "nobody")]).
  split; [exact H|]. split; [exact He|]. split; [reflexivity|]. by apply Ha.
Defined.

(** X8: for a field whose custom validator never returns a promise (or that
    has none), the awaited validation of [validateForm] is the synchronous
    validation of the value that [asyncFilteredValue] computes: same field,
    same calls, same marks. *)
Theorem X8_twins_agree_without_promises (E : Env) (formFields : Fields) (n : string)
    (f : Field) (v : Value) (fin : bool) (w : World) :
  lookupField formFields n = Some f ->
  asyncFilteredValue f w = Ok (v, w) ->
  (forall validator sanitizedValue formValues,
     Config.validator (config f) = Some validator ->
     exists r, response (validator sanitizedValue formValues) = Sync r) ->
  executeFieldValidatorAsync E n formFields w = executeFieldValidator E formFields n v fin w.
Proof.
  intros Hf H0 Hsync.
  destruct (executeFieldTypeValidator_Ok E formFields n f
              (sanitizeFieldValue E (Config.type (config f)) v) w)
    as (vr & w1 & H1 & _).
  unfold executeFieldValidatorAsync, executeFieldValidator, getField. rewrite Hf.
  rewrite !(bind_eq _ _ w w f) by reflexivity. rewrite (bind_eq _ _ _ _ _ H0).
  rewrite !(bind_eq _ _ _ _ _ H1).
  destruct (isNullOrTrue vr); [|done].
  destruct (Config.validator (config f)) as [validator|] eqn:Hv; [|done].
  rewrite !(bind_eq _ _ _ _ _ (callValidator_Ok _ _ _ _ _)).
  destruct (Hsync validator (sanitizeFieldValue E (Config.type (config f)) v)
              (getFormValues E formFields) eq_refl) as [r ->].
  done.
Qed.

Lemma X8_twins_agree_without_promises_witness :
  executeFieldValidatorAsync strictEnv "contact" contactForm emptyWorld
  = executeFieldValidator strictEnv contactForm "contact" (VString "nobody") false emptyWorld.
Proof.
  apply (X8_twins_agree_without_promises strictEnv contactForm "contact"
           (getNextSingleFieldState (createField contactConfig) (VString "nobody") true)).
  - reflexivity.
  - reflexivity.
  - intros validator sv fv [= <-]. by eexists.
Defined.

Lemma handleFieldValidationResult_app (errs : list FieldError) (c : Config.t)
    (vr : option ValidationResult) :
  handleFieldValidationResult errs c vr = errs ++ handleFieldValidationResult [] c vr.
Proof.
  destruct vr as [[[]|[s|id|]|l]|]; simpl; rewrite ?app_nil_r; try done.
  destruct s; simpl; by rewrite ?app_nil_r.
Qed.

(** X9: a promise that resolves leaves the same errors on both paths.  The
    synchronous validation queues a task; once the task has run on the
    collection that holds the returned field, the errors of the field are
    those that the awaited validation of [validateForm] computes at once. *)
Theorem X9_resolved_promise_gives_the_errors_of_the_awaited_twin (E : Env)
    (formFields : Fields) (n : string) (f : Field) (validator : Validator) (v : Value)
    (fin : bool) (w w1 : World) (vr : option ValidationResult) (r : ValidationResult) :
  lookupField formFields n = Some f ->
  Config.validator (config f) = Some validator ->
  asyncFilteredValue f w = Ok (v, w) ->
  executeFieldTypeValidator E formFields n f
    (sanitizeFieldValue E (Config.type (config f)) v) w = Ok (vr, w1) ->
  isNullOrTrue vr = true ->
  response (validator (sanitizeFieldValue E (Config.type (config f)) v)
              (getFormValues E formFields)) = Async (Fulfilled r) ->
  exists f1 wS t f2 wA next g,
    executeFieldValidator E formFields n v fin w = Ok (f1, wS)
    /\ pending wS = pending w ++ [t]
    /\ executeFieldValidatorAsync E n formFields w = Ok (f2, wA)
    /\ pending wA = pending w
    /\ runAsyncTask t (setField formFields n f1) wS = Ok (next, wS)
    /\ lookupField next n = Some g
    /\ errors g = errors f2.
Proof.
  intros Hf Hv H0 H1 Hvr Hresp.
  destruct (executeFieldTypeValidator_Ok E formFields n f
              (sanitizeFieldValue E (Config.type (config f)) v) w)
    as (vr' & w1' & H1' & Hpend & _ & _).
  rewrite H1 in H1'. injection H1' as <- <-.
  set (sv := sanitizeFieldValue E (Config.type (config f)) v) in *.
  set (errs := executeInternalFieldValidators E sv (config f) [] (getFormValues E formFields)).
  set (t := mkTask n (getNextAsyncValidatingField f) (Fulfilled r) fin).
  set (f1 := getNextValidatedField errs vr (getNextAsyncValidatingField f) sv).
  destruct (handleFieldAsyncValidationResult_lookup n (getNextAsyncValidatingField f) f1
              (Fulfilled r) (setField formFields n f1) (lookupField_setField_eq _ _ _))
    as (g1 & Hg1 & Herr & _).
  assert (Herrs : errors f1 ++ settledErrors (config f) (Fulfilled r)
                  = handleFieldValidationResult errs (config f) (Some r)).
  { unfold f1. rewrite getNextValidatedField_errors.
    change (config (getNextAsyncValidatingField f)) with (config f).
    rewrite (handleFieldValidationResult_nullOrTrue _ _ _ Hvr). unfold settledErrors.
    symmetry. apply handleFieldValidationResult_app. }
  assert (HS : exists wS,
             executeFieldValidator E formFields n v fin w = Ok (f1, wS)
             /\ pending wS = pending w ++ [t]).
  { unfold executeFieldValidator, getField. rewrite Hf.
    rewrite (bind_eq _ _ w w f) by reflexivity. rewrite (bind_eq _ _ _ _ _ H1).
    rewrite Hvr, Hv. rewrite (bind_eq _ _ _ _ _ (callValidator_Ok _ _ _ _ _)).
    fold sv. rewrite Hresp. unfold mbind, M_bind, defer, mret, M_ret; simpl.
    eexists. split; [reflexivity|]. simpl. by rewrite Hpend. }
  destruct HS as (wS & HS & HpS).
  assert (HA : exists wA,
             executeFieldValidatorAsync E n formFields w
             = Ok (getNextValidatedField errs (Some r) f sv, wA)
             /\ pending wA = pending w).
  { unfold executeFieldValidatorAsync, getField. rewrite Hf.
    rewrite (bind_eq _ _ w w f) by reflexivity. rewrite (bind_eq _ _ _ _ _ H0).
    rewrite (bind_eq _ _ _ _ _ H1).
    rewrite Hvr, Hv. rewrite (bind_eq _ _ _ _ _ (callValidator_Ok _ _ _ _ _)).
    fold sv. rewrite Hresp. eexists. split; [reflexivity|]. simpl. by rewrite Hpend. }
  destruct HA as (wA & HA & HpA).
  assert (Hrun : exists next g,
             runAsyncTask t (setField formFields n f1) wS = Ok (next, wS)
             /\ lookupField next n = Some g
             /\ errors g = errors g1).
  { unfold runAsyncTask, t; simpl. destruct fin.
    - unfold finishFieldAsyncValidation, getField. simpl in Hg1. rewrite Hg1.
      unfold mbind, M_bind, mret, M_ret; simpl.
      eexists _, _. split; [reflexivity|]. by rewrite lookupField_setField_eq.
    - eexists _, _. split; [reflexivity|]. split; [exact Hg1|done]. }
  destruct Hrun as (next & g & Hrun & Hg & Hge).
  exists f1, wS, t, (getNextValidatedField errs (Some r) f sv), wA, next, g.
  repeat split; try done.
  rewrite Hge, Herr, getNextValidatedField_errors. exact Herrs.
Qed.

Lemma X9_resolved_promise_gives_the_errors_of_the_awaited_twin_witness :
  exists f1 wS t f2 wA next g,
    executeFieldValidator plainEnv usernameForm "username" (VString "") true emptyWorld
    = Ok (f1, wS)
    /\ pending wS = pending emptyWorld ++ [t]
    /\ executeFieldValidatorAsync plainEnv "username" usernameForm emptyWorld = Ok (f2, wA)
    /\ pending wA = pending emptyWorld
    /\ runAsyncTask t (setField usernameForm "username" f1) wS = Ok (next, wS)
    /\ lookupField next "username" = Some g
    /\ errors g = errors f2.
Proof.
  apply (X9_resolved_promise_gives_the_errors_of_the_awaited_twin plainEnv usernameForm
           "username" (textField DependsOnNothing (Some resolvesFalseValidator) "")
           resolvesFalseValidator (VString "") true emptyWorld
           (mkWorld ∅ [] [TypeValidatorCalled "username" (VString "")])
           (Some (RBoolean true)) (RBoolean false)); reflexivity.
Defined.

(** ** Fields that stay validating, and what [validateForm] keeps *)

Lemma isAnyFormFieldValidating_true (fs : Fields) (n : string) (g : Field) :
  lookupField fs n = Some g -> isValidating g = true -> isAnyFormFieldValidating fs = true.
Proof.
  intros Hg Hv. unfold isAnyFormFieldValidating. apply existsb_exists.
  exists n. split; [by eapply lookupField_Some_keys|]. by rewrite Hg.
Qed.

Lemma isFormSubmitAllowed_validating (a b : bool) (formState : FormState.t) (fs : Fields) :
  isAnyFormFieldValidating fs = true -> isFormSubmitAllowed a b formState fs = false.
Proof.
  intros H. unfold isFormSubmitAllowed. rewrite H. by destruct a, b.
Qed.

(** X10: [validateField] passes no completion callback to the validation.
    When the custom validator of the field returns a promise, the task it
    queues therefore ends without clearing [isValidating]: after the promise
    has settled the field is still validating, and the form does not allow a
    submit. *)
Theorem X10_validateField_leaves_the_field_validating (E : Env) (formFields : Fields)
    (n : string) (f : Field) (validator : Validator) (v : Value) (w w1 : World)
    (vr : option ValidationResult) (p : Settled) (isFormDefaultsFetching
    isFormDefaultsFetchingErred : bool) (formState : FormState.t) :
  lookupField formFields n = Some f ->
  Config.validator (config f) = Some validator ->
  currentFilteredValue f w = Ok (v, w) ->
  executeFieldTypeValidator E formFields n f
    (sanitizeFieldValue E (Config.type (config f)) v) w = Ok (vr, w1) ->
  isNullOrTrue vr = true ->
  response (validator (sanitizeFieldValue E (Config.type (config f)) v)
              (getFormValues E formFields)) = Async p ->
  exists fs1 w' t fs2 g,
    validateField E n formFields w = Ok (fs1, w')
    /\ pending w' = pending w ++ [t]
    /\ task_finish t = false
    /\ runAsyncTask t fs1 w' = Ok (fs2, w')
    /\ lookupField fs2 n = Some g
    /\ isValidating g = true
    /\ isFormSubmitAllowed isFormDefaultsFetching isFormDefaultsFetchingErred formState fs2
       = false.
Proof.
  intros Hf Hv H0 H1 Hvr Hresp.
  destruct (executeFieldTypeValidator_Ok E formFields n f
              (sanitizeFieldValue E (Config.type (config f)) v) w)
    as (vr' & w1' & H1' & Hpend & _ & _).
  rewrite H1 in H1'. injection H1' as <- <-.
  set (sv := sanitizeFieldValue E (Config.type (config f)) v) in *.
  set (errs := executeInternalFieldValidators E sv (config f) [] (getFormValues E formFields)).
  set (t := mkTask n (getNextAsyncValidatingField f) p false).
  set (f1 := getNextValidatedField errs vr (getNextAsyncValidatingField f) sv).
  assert (HS : exists wS,
             executeFieldValidator E formFields n v false w = Ok (f1, wS)
             /\ pending wS = pending w ++ [t]).
  { unfold executeFieldValidator, getField. rewrite Hf.
    rewrite (bind_eq _ _ w w f) by reflexivity. rewrite (bind_eq _ _ _ _ _ H1).
    rewrite Hvr, Hv. rewrite (bind_eq _ _ _ _ _ (callValidator_Ok _ _ _ _ _)).
    fold sv. rewrite Hresp. unfold mbind, M_bind, defer, mret, M_ret; simpl.
    eexists. split; [reflexivity|]. simpl. by rewrite Hpend. }
  destruct HS as (wS & HS & HpS).
  destruct (handleFieldAsyncValidationResult_lookup n (getNextAsyncValidatingField f) f1
              p (setField formFields n f1) (lookupField_setField_eq _ _ _))
    as (g & Hg & _ & Hval & _).
  exists (setField formFields n f1), wS, t,
    (handleFieldAsyncValidationResult n (getNextAsyncValidatingField f) p
       (setField formFields n f1)), g.
  split.
  { unfold validateField, getField. rewrite Hf.
    rewrite (bind_eq _ _ w w f) by reflexivity. rewrite (bind_eq _ _ _ _ _ H0).
    by rewrite (bind_eq _ _ _ _ _ HS). }
  split; [exact HpS|]. split; [reflexivity|]. split; [reflexivity|].
  split; [exact Hg|].
  assert (Hvg : isValidating g = true).
  { rewrite Hval. unfold f1. by rewrite getNextValidatedField_isValidating. }
  split; [exact Hvg|].
  apply isFormSubmitAllowed_validating. by eapply isAnyFormFieldValidating_true.
Qed.

Lemma X10_validateField_leaves_the_field_validating_witness :
  exists fs1 w' t fs2 g,
    validateField plainEnv "username" usernameForm emptyWorld = Ok (fs1, w')
    /\ pending w' = pending emptyWorld ++ [t]
    /\ task_finish t = false
    /\ runAsyncTask t fs1 w' = Ok (fs2, w')
    /\ lookupField fs2 "username" = Some g
    /\ isValidating g = true
    /\ isFormSubmitAllowed false false INITIAL_FORM_STATE fs2 = false.
Proof.
  apply (X10_validateField_leaves_the_field_validating plainEnv usernameForm "username"
           (textField DependsOnNothing (Some resolvesFalseValidator) "")
           resolvesFalseValidator (VString "") emptyWorld
           (mkWorld ∅ [] [TypeValidatorCalled "username" (VString "")])
           (Some (RBoolean true)) (Fulfilled (RBoolean false))); reflexivity.
Defined.

(** The field an awaited validation returns is [getNextValidatedField] of
    the field it read, and the validation queues nothing. *)
Lemma executeFieldValidatorAsync_shape (E : Env) (fs : Fields) (n : string)
    (w w' : World) (f' : Field) :
  executeFieldValidatorAsync E n fs w = Ok (f', w') ->
  exists f errs vr sv,
    lookupField fs n = Some f
    /\ f' = getNextValidatedField errs vr f sv
    /\ pending w' = pending w.
Proof.
  unfold executeFieldValidatorAsync. intros H.
  apply bind_Ok in H as (f & w0 & Hget & H). apply getField_Ok in Hget as [Hf ->].
  apply bind_Ok in H as (fv & w0 & H0 & H).
  pose proof (asyncFilteredValue_world _ _ _ _ H0) as ->.
  apply bind_Ok in H as (vr & w1 & H1 & H).
  destruct (executeFieldTypeValidator_Ok E fs n f
              (sanitizeFieldValue E (Config.type (config f)) fv) w)
    as (vr' & w1' & H1' & Hpend & _ & _).
  rewrite H1 in H1'. injection H1' as <- <-.
  exists f. destruct (isNullOrTrue vr).
  - destruct (Config.validator (config f)) as [validator|].
    + apply bind_Ok in H as (resp & w2 & Hcall & H).
      rewrite callValidator_Ok in Hcall. injection Hcall as <- <-.
      destruct (response _) as [r|[r|reason]];
        [| |destruct (reasonMessage reason); [|discriminate]];
        apply ret_Ok in H; injection H as -> ->; by eexists _, _, _.
    + apply ret_Ok in H; injection H as -> ->. by eexists _, _, _.
  - apply ret_Ok in H; injection H as -> ->. by eexists _, _, _.
Qed.

Lemma NoDup_keys_setField (fs : Fields) (n : string) (f : Field) :
  NoDup (keys fs) -> NoDup (keys (setField fs n f)).
Proof.
  destruct (lookupField fs n) as [g|] eqn:Hg.
  - by rewrite (keys_setField _ _ _ _ Hg).
  - intros Hnd. assert (Hk : keys (setField fs n f) = keys fs ++ [n]).
    { clear Hnd. induction fs as [|[m h] fs IH]; [done|]. simpl in *.
      destruct (String.eqb m n); [done|]. simpl. by rewrite IH. }
    rewrite Hk. apply NoDup_app. split; [done|]. split; [|apply NoDup_singleton].
    intros x Hx Hx'. apply list_elem_of_singleton in Hx' as ->.
    apply list_elem_of_In, keys_lookupField in Hx as [g' Hg']. congruence.
Qed.

Lemma validateFields_keys (E : Env) (fs : Fields) (names : list string) :
  forall h0 next0 w h next w',
    validateFields E fs names h0 next0 w = Ok ((h, next), w') ->
    NoDup (keys next0) ->
    NoDup (keys next)
    /\ pending w' = pending w
    /\ (forall n f', In n names -> lookupField next n = Some f' ->
          exists f errs vr sv,
            lookupField fs n = Some f /\ f' = getNextValidatedField errs vr f sv).
Proof.
  induction names as [|n rest IH]; intros h0 next0 w h next w' H Hnd; simpl in H.
  - apply ret_Ok in H. injection H as _ -> ->. by repeat split.
  - apply bind_Ok in H as (f & w0 & Hget & H). apply getField_Ok in Hget as [Hf ->].
    apply bind_Ok in H as (f' & w1 & Hrun & H).
    pose proof (executeFieldValidatorAsync_shape _ _ _ _ _ _ Hrun)
      as (f0 & errs & vr & sv & Hf0 & Hshape & Hpend).
    pose proof H as H'.
    apply IH in H as (Hnd' & Hp & Hall); [|by apply NoDup_keys_setField].
    split; [done|]. split; [congruence|].
    intros m g [<-|Hm] Hg; [|by eapply Hall].
    destruct (in_dec String.string_dec n rest) as [Hin|Hout]; [by eapply Hall|].
    assert (Hkeep : forall names h0 next0 w h next w',
              ~ In n names ->
              validateFields E fs names h0 next0 w = Ok ((h, next), w') ->
              lookupField next n = lookupField next0 n).
    { clear. induction names as [|k names IH]; intros h0 next0 w h next w' Hnot H.
      - simpl in H. apply ret_Ok in H. by injection H as _ -> _.
      - simpl in H. apply bind_Ok in H as (f & w0 & _ & H).
        apply bind_Ok in H as (f' & w1 & _ & H).
        rewrite (IH _ _ _ _ _ _ (fun Hm => Hnot (or_intror Hm)) H).
        apply lookupField_setField_ne. intros ->. apply Hnot. by left. }
    rewrite (Hkeep _ _ _ _ _ _ _ Hout H'), lookupField_setField_eq in Hg.
    injection Hg as <-. by exists f0, errs, vr, sv.
Qed.

Lemma skipped_fold_NoDup (validated : string -> bool) (formFields : Fields)
    (ks : list string) :
  forall acc,
    NoDup (keys acc) ->
    NoDup (keys (fold_left
             (fun next fieldName =>
                if validated fieldName then next
                else
                  match lookupField formFields fieldName with
                  | Some formField => setField next fieldName (getNextErrorsFreeField formField)
                  | None => next
                  end) ks acc)).
Proof.
  induction ks as [|k ks IH]; intros acc Hnd; [done|]. simpl. apply IH.
  destruct (validated k); [done|].
  destruct (lookupField formFields k); [by apply NoDup_keys_setField|done].
Qed.

(** X11: [validateForm] returns the fields it was given, under the same
    names (the order of the keys may change): none is lost and none is
    added.  No field changes its raw or displayed value or its
    [isValidating] flag, and no task is left pending, since every promise
    is awaited.  (The call returns when the child forms can be read and no
    validator rejects with [null] or [undefined].) *)
Theorem X11_validateForm_keeps_fields_and_values (E : Env)
    (targetFields excludeFields : option (list string)) (formFields : Fields) (w : World) :
  NoDup (keys formFields) ->
  formReady formFields ->
  rejectsWithReason formFields ->
  exists isValid nextFormFields w',
    validateForm E targetFields excludeFields formFields w
    = Ok ((isValid, nextFormFields), w')
    /\ keys nextFormFields ≡ₚ keys formFields
    /\ pending w' = pending w
    /\ forall n f, lookupField formFields n = Some f ->
         exists f',
           lookupField nextFormFields n = Some f'
           /\ rawValue f' = rawValue f
           /\ value f' = value f
           /\ isValidating f' = isValidating f.
Proof.
  intros Hnd Hready Hrej.
  destruct (validateForm_total E targetFields excludeFields formFields w Hready Hrej)
    as (isValid & next & w' & H).
  exists isValid, next, w'. split; [exact H|].
  pose proof (validateForm_spec E _ _ _ _ _ _ _ Hnd H) as (_ & Hskipped & Hvalidated).
  unfold validateForm in H.
  set (validated := isFieldValidated E targetFields excludeFields formFields
                      (getFormValues E formFields)) in *.
  apply bind_Ok in H as ([h next'] & w1 & Hrun & H).
  apply ret_Ok in H. injection H as _ <- <-.
  pose proof Hrun as Hrun'.
  apply validateFields_keys in Hrun' as (Hnd' & Hpend & Hshape);
    [|apply skipped_fold_NoDup, NoDup_nil_2].
  apply validateFields_spec in Hrun as (_ & Hout & _); [|by apply NoDup_List_filter].
  assert (Hsome : forall n f, lookupField formFields n = Some f ->
            exists f',
              lookupField next n = Some f'
              /\ rawValue f' = rawValue f
              /\ value f' = value f
              /\ isValidating f' = isValidating f).
  { intros n f Hf. destruct (validated n) eqn:Hv.
    - destruct (Hvalidated n) as (f' & _ & _ & _ & Hn);
        [by eapply lookupField_Some_keys|done|].
      exists f'. split; [done|].
      destruct (Hshape n f') as (f0 & errs & vr & sv & Hf0 & ->); [|done|].
      { apply filter_In. split; [by eapply lookupField_Some_keys|done]. }
      rewrite Hf in Hf0. injection Hf0 as <-.
      destruct (getNextValidatedField_frame errs vr f sv) as (_ & _ & -> & -> & _).
      by rewrite getNextValidatedField_isValidating.
    - exists (getNextErrorsFreeField f). split; [by apply Hskipped|done]. }
  split; [|split; [done|exact Hsome]].
  apply NoDup_Permutation; [done|done|].
  intros n. rewrite !list_elem_of_In. split.
  - intros Hn. apply keys_lookupField in Hn as [f' Hf'].
    destruct (in_dec String.string_dec n (keys formFields)) as [Hin|Hnot]; [done|].
    exfalso. rewrite Hout in Hf'.
    + rewrite skipped_fold_lookup in Hf'.
      assert (Hex : existsb (String.eqb n) (keys formFields) = false).
      { apply not_true_is_false. intros Hex. apply existsb_exists in Hex as (k & Hk & Heq).
        apply String.eqb_eq in Heq as <-. done. }
      by rewrite Hex in Hf'.
    + intros Hin. apply filter_In in Hin as [Hin _]. done.
  - intros Hn. apply keys_lookupField in Hn as [f Hf].
    destruct (Hsome n f Hf) as (f' & Hf' & _). by eapply lookupField_Some_keys.
Qed.

Lemma X11_validateForm_keeps_fields_and_values_witness :
  exists isValid nextFormFields w',
    validateForm plainEnv (Some ["min"; "max"]) (Some ["max"]) rangeForm emptyWorld
    = Ok ((isValid, nextFormFields), w')
    /\ keys nextFormFields ≡ₚ keys rangeForm
    /\ pending w' = pending emptyWorld
    /\ forall n f, lookupField rangeForm n = Some f ->
         exists f',
           lookupField nextFormFields n = Some f'
           /\ rawValue f' = rawValue f
           /\ value f' = value f
           /\ isValidating f' = isValidating f.
Proof.
  apply X11_validateForm_keeps_fields_and_values.
  - exact rangeForm_NoDup.
  - apply formReady_no_childForms. by repeat constructor.
  - apply rejectsWithReason_Forall.
    repeat constructor; intros validator v formValues [= <-]; discriminate.
Defined.

(** X12: a value set without validation leaves its field without errors and
    without a clean value: the field holds the new raw value, and
    [cleanValue] stays [undefined] until the field is validated. *)
Theorem X12_unvalidated_change_clears_errors_and_clean_value (E : Env) (fuel : nat)
    (n : string) (v : Value) (formFields : Fields) (isFormat fin : bool) (w : World)
    (f : Field) :
  lookupField formFields n = Some f ->
  formReady formFields ->
  exists formFields' w' f',
    getNextFieldsState E fuel n v formFields false isFormat fin w = Ok (formFields', w')
    /\ lookupField formFields' n = Some f'
    /\ errors f' = []
    /\ cleanValue f' = VUndefined
    /\ isValidating f' = isValidating f
    /\ rawValue f'
       = (if checkIfHoneyFormFieldIsInteractive (config f) then
            match Config.filter (config f) with
            | Some filter => filter (trimStartValue v)
            | None => trimStartValue v
            end
          else v).
Proof.
  intros Hf Hready.
  destruct (getNextFieldsState_total E fuel n v formFields false isFormat fin w f Hf Hready)
    as (fs' & w' & H); [done|].
  exists fs', w'. pose proof H as Hrun. unfold getNextFieldsState in H.
  apply bind_Ok in H as (g & w0 & Hget & H'). apply getField_Ok in Hget as [Hg ->].
  rewrite Hf in Hg. injection Hg as <-.
  apply bind_Ok in H' as ([fsR validated] & wV & Hfirst & H').
  apply ret_Ok in Hfirst. injection Hfirst as -> -> ->.
  apply bind_Ok in H' as (fsP & wP & Hskip & Htrig).
  apply triggerScheduledFieldsValidations_changed_field in Htrig as [Hsame _].
  unfold processSkippableFields, forEachFormField in Hskip.
  eapply (processSkippableFields_step E _ _ _ _ _ _ _ eq_refl) in Hskip
    as (_ & _ & Hall); [|intros; by left].
  set (f1 := getNextSingleFieldState (getNextErrorsFreeField f) _ isFormat) in *.
  destruct (Hall n f1 (lookupField_setField_eq _ _ _)) as [H1|H1];
    rewrite <- Hsame in H1; eexists; (split; [exact Hrun|]); (split; [exact H1|]).
  all: unfold f1; simpl; repeat split; by destruct (checkIfHoneyFormFieldIsInteractive _).
Qed.

Lemma X12_unvalidated_change_clears_errors_and_clean_value_witness :
  exists formFields' w' f',
    getNextFieldsState plainEnv 0 "email" (VString " joe") serverErredForm false true true
      emptyWorld = Ok (formFields', w')
    /\ lookupField formFields' "email" = Some f'
    /\ errors f' = []
    /\ cleanValue f' = VUndefined
    /\ isValidating f' = false
    /\ rawValue f' = VString "joe".
Proof.
  apply (X12_unvalidated_change_clears_errors_and_clean_value plainEnv 0 "email"
           (VString " joe") serverErredForm true true emptyWorld
           (getNextErredField (textField DependsOnNothing None "a@b.c")
              [mkError server_t (MString "already taken")])).
  - reflexivity.
  - apply formReady_no_childForms. by repeat constructor.
Defined.

(** ** Dependency cycles *)

Lemma resetIfDependent_no_throw (E : Env)
    (recurse : Fields -> string -> option string -> M Fields) (t i other : string)
    (fs : Fields) (w : World) :
  (forall fs t i w, recurse fs t i w <> Throw) ->
  In other (keys fs) ->
  resetIfDependent E recurse t i other fs w <> Throw.
Proof.
  intros Hrec Hin. unfold resetIfDependent.
  destruct (String.eqb other t); [done|].
  destruct (keys_lookupField fs other Hin) as [g Hg].
  erewrite bind_eq; [|by apply getField_Ok].
  destruct (isDependentField E fs g t i); [|done].
  destruct (negb (String.eqb other i)); [apply Hrec|done].
Qed.

Lemma forEachKey_no_throw (E : Env)
    (recurse : Fields -> string -> option string -> M Fields) (t i : string)
    (names : list string) :
  (forall fs t i w, recurse fs t i w <> Throw) ->
  (forall fs t i w fs' w',
     recurse fs t i w = Ok (fs', w') -> clearsSomeOf fs fs' /\ onlyScans w w') ->
  forall fs w,
    (forall n, In n names -> In n (keys fs)) ->
    forEachKey names (resetIfDependent E recurse t i) fs w <> Throw.
Proof.
  intros Hrec Hclears. induction names as [|n names IH]; intros fs w Hin; [done|].
  simpl. unfold mbind, M_bind.
  destruct (resetIfDependent E recurse t i n fs w) as [[fs1 w1]| |] eqn:Hstep; [|exfalso|done].
  - apply IH. intros m Hm.
    apply (resetIfDependent_clears E _ _ _ _ _ _ _ _ Hclears) in Hstep as [[Hk _] _].
    rewrite Hk. apply Hin. by right.
  - revert Hstep. apply resetIfDependent_no_throw; [done|]. apply Hin. by left.
Qed.

Lemma resetDependentFields_no_throw (E : Env) (fuel : nat) :
  forall fs t i w, resetDependentFields E fuel fs t i w <> Throw.
Proof.
  induction fuel as [|fuel IH]; intros fs t i w; [done|]. simpl.
  unfold mbind at 1, M_bind, tell. unfold forEachFormField.
  apply forEachKey_no_throw; [exact IH|apply resetDependentFields_clears|done].
Qed.

Lemma dependencyCycle_never_returns (E : Env) (formFields : Fields)
    (inCycle : string -> Prop) (next : string -> string) (fuel : nat) :
  dependencyCycle formFields inCycle next ->
  forall fs t i0 w fs' w',
    clearsSomeOf formFields fs ->
    inCycle t ->
    orFieldName i0 t <> next t ->
    resetDependentFields E fuel fs t i0 w <> Ok (fs', w').
Proof.
  intros Hcycle.
  induction fuel as [|fuel IH]; intros fs t i0 w fs' w' Hc Ht Hi H; simpl in H;
    [discriminate|].
  set (i := orFieldName i0 t) in *.
  apply bind_Ok in H as ([] & w1 & _ & H). unfold forEachFormField in H.
  pose proof (resetDependentFields_clears E fuel) as Hrec.
  destruct (Hcycle t Ht) as (Hnext & Hne0 & Hne & Hback & f & Hf & Hdep).
  destruct Hc as [Hk Hl].
  destruct (Hl _ _ Hf) as (g & Hg & Hsame).
  destruct (forEachKey_visit _ _ (next t) _ _ _ _
              (lookupField_Some_keys _ _ _ Hg) H)
    as (pre & post & fsA & wA & fsB & wB & _ & HA & HB & _).
  apply (forEachKey_clears E _ _ _ _ _ _ _ _ Hrec) in HA as [HcA _].
  destruct HcA as [HkA HlA].
  destruct (HlA _ _ Hg) as (gA & HgA & HsameA).
  unfold resetIfDependent in HB.
  destruct (String.eqb_spec (next t) t) as [|_]; [contradiction|].
  apply bind_Ok in HB as (g' & wA' & Hget & HB).
  apply getField_Ok in Hget as [Hget ->]. rewrite HgA in Hget. injection Hget as <-.
  rewrite declaresDependency_isDependent in HB
    by (rewrite (sameOrCleared_config _ _ HsameA), (sameOrCleared_config _ _ Hsame);
        apply Hdep).
  destruct (String.eqb_spec (next t) i) as [Heq|_]; [by symmetry in Heq|].
  simpl in HB. revert HB. apply IH.
  - eapply clearsSomeOf_trans; [split; [exact Hk|exact Hl]|].
    eapply clearsSomeOf_trans; [split; [exact HkA|exact HlA]|].
    by apply clearsSomeOf_setField.
  - exact Hnext.
  - assert (Hini : orFieldName (Some t) (next t) = t) by (by destruct t).
    rewrite Hini. by apply not_eq_sym.
Qed.

(** X13: a change of a field that lies on a dependency cycle of three or
    more fields starts a recursion without bound.  The guard of the
    recursion compares a dependent with the initiator of the enclosing scan
    only, so the scans go round the cycle: whatever bound [fuel] is put on
    the nesting of scans, the pass exceeds it, so it never returns a
    collection.  (An engine ends such a recursion by a [RangeError] of its
    call stack, once fields have been cleared; the model has no stack and
    says nothing of that error.) *)
Theorem X13_cycle_of_three_recurses_without_bound (E : Env) (formFields : Fields)
    (inCycle : string -> Prop) (next : string -> string) (fieldName : string)
    (fuel : nat) (w : World) :
  dependencyCycle formFields inCycle next ->
  inCycle fieldName ->
  resetDependentFields E fuel formFields fieldName None w = OutOfFuel.
Proof.
  intros Hcycle Ht.
  destruct (resetDependentFields E fuel formFields fieldName None w) as [[fs' w']| |] eqn:H;
    [exfalso|exfalso|done].
  - revert H. eapply dependencyCycle_never_returns;
      [exact Hcycle|apply clearsSomeOf_refl|exact Ht|].
    simpl. destruct (Hcycle _ Ht) as (_ & _ & Hne & _). by apply not_eq_sym.
  - revert H. apply resetDependentFields_no_throw.
Qed.

Lemma X13_cycle_of_three_recurses_without_bound_witness :
  resetDependentFields plainEnv 50 threeCycleForm "b" None emptyWorld = OutOfFuel.
Proof.
  apply (X13_cycle_of_three_recurses_without_bound plainEnv threeCycleForm
           (fun t => t = "a" \/ t = "b" \/ t = "c") nextInCycle).
  - intros t [->|[->| ->]]; (split; [vm_compute; tauto|]);
      (split; [done|]); (split; [done|]); (split; [done|]);
      eexists; (split; [reflexivity|]); by intros i.
  - right. by left.
Defined.

(** ** Sanitizing a [number] value *)

Lemma removeCommas_append_comma (s1 s2 : string) :
  removeCommas (String.append s1 (String "," s2)) = removeCommas (String.append s1 s2).
Proof.
  induction s1 as [|c s1 IH]; [done|]. simpl. rewrite IH. done.
Qed.

Lemma removeCommas_no_comma (s : string) (pre post : string) :
  removeCommas s <> String.append pre (String "," post).
Proof.
  revert pre. induction s as [|c s IH]; intros pre; simpl.
  - by destruct pre.
  - destruct (Ascii.eqb_spec c ","%char) as [->|Hc]; [apply IH|].
    destruct pre as [|p pre]; simpl; [by intros [= Heq _]|].
    intros [= _ H]. by eapply IH.
Qed.

(** X14: thousands separators do not reach the validators of a [number]
    field.  The string handed to [Number] contains no comma, and a comma
    typed anywhere into a non-empty string leaves the sanitized value as it
    is. *)
Theorem X14_commas_do_not_change_a_number (E : Env) (s1 s2 : string) :
  String.append s1 s2 <> "" ->
  sanitizeFieldValue E number_t (VString (String.append s1 (String "," s2)))
  = sanitizeFieldValue E number_t (VString (String.append s1 s2))
  /\ sanitizeFieldValue E number_t (VString (String.append s1 s2))
     = Number E (removeCommas (String.append s1 s2))
  /\ forall pre post,
       removeCommas (String.append s1 s2) <> String.append pre (String "," post).
Proof.
  intros Hne. split; [|split].
  - simpl. rewrite removeCommas_append_comma.
    destruct (String.append s1 (String "," s2)) eqn:H1; [by destruct s1|].
    destruct (String.append s1 s2) eqn:H2; done.
  - simpl. by destruct (String.append s1 s2).
  - apply removeCommas_no_comma.
Qed.

Lemma X14_commas_do_not_change_a_number_witness :
  sanitizeFieldValue strictEnv number_t (VString "1,000") = VNumber 1000
  /\ sanitizeFieldValue strictEnv number_t (VString "1000") = VNumber 1000.
Proof.
  destruct (X14_commas_do_not_change_a_number strictEnv "1" "000") as (H1 & H2 & _);
    [done|].
  split; [exact (eq_trans H1 H2)|exact H2].
Defined.

(** ** [setFormValues] *)

Lemma setFormValue_Ok (E : Env) (isValidate : bool) (n : string) (v : Value)
    (fs : Fields) (w : World) (f : Field) :
  lookupField fs n = Some f ->
  exists f' w',
    setFormValue E isValidate n v fs w = Ok (setField fs n f', w')
    /\ config f' = config f
    /\ rawValue f'
       = match Config.filter (config f) with
         | Some filter =>
             if checkIfHoneyFormFieldIsInteractive (config f) then filter v else v
         | None => v
         end
    /\ (isValidate = false ->
        w' = w /\ errors f' = errors f /\ cleanValue f' = cleanValue f).
Proof.
  intros Hf. unfold setFormValue. rewrite Hf.
  set (fv := match Config.filter (config f) with
             | Some filter =>
                 if checkIfHoneyFormFieldIsInteractive (config f) then filter v else v
             | None => v
             end).
  destruct isValidate.
  - destruct (executeFieldValidator_shape E fs n fv false w f Hf)
      as (errs & vr & g & w' & H & Hg & _).
    rewrite (bind_eq _ _ _ _ _ H).
    eexists _, _. split; [reflexivity|]. simpl.
    destruct (getNextValidatedField_frame errs vr g
                (sanitizeFieldValue E (Config.type (config f)) fv)) as (-> & _).
    split; [by destruct Hg as [->| ->]|]. by split.
  - eexists _, _. split; [reflexivity|]. by repeat split.
Qed.

Lemma setEachFormValue_spec (E : Env) (isValidate : bool) (values : list (string * Value)) :
  forall fs w,
    NoDup (map fst values) ->
    (forall n, In n (map fst values) -> In n (keys fs)) ->
    exists fs' w',
      setEachFormValue E isValidate values fs w = Ok (fs', w')
      /\ keys fs' = keys fs
      /\ (forall m, ~ In m (map fst values) -> lookupField fs' m = lookupField fs m)
      /\ (forall n v f, In (n, v) values -> lookupField fs n = Some f ->
            exists f',
              lookupField fs' n = Some f'
              /\ config f' = config f
              /\ rawValue f'
                 = match Config.filter (config f) with
                   | Some filter =>
                       if checkIfHoneyFormFieldIsInteractive (config f) then filter v else v
                   | None => v
                   end
              /\ (isValidate = false ->
                  errors f' = errors f /\ cleanValue f' = cleanValue f))
      /\ (isValidate = false -> w' = w).
Proof.
  induction values as [|[k v] values IH]; intros fs w Hnd Hin.
  - exists fs, w. by repeat split.
  - apply NoDup_cons in Hnd as [Hk Hnd]. rewrite list_elem_of_In in Hk.
    destruct (keys_lookupField fs k) as [f Hf]; [apply Hin; by left|].
    destruct (setFormValue_Ok E isValidate k v fs w f Hf) as (f1 & w1 & Hstep & Hc & Hr & Hkeep).
    destruct (IH (setField fs k f1) w1 Hnd) as (fs' & w' & H & Hkeys & Hframe & Hnamed & Hw).
    { intros n Hn. rewrite (keys_setField _ _ _ _ Hf). apply Hin. by right. }
    exists fs', w'. split; [|split; [|split; [|split]]].
    + simpl. by rewrite (bind_eq _ _ _ _ _ Hstep).
    + by rewrite Hkeys, (keys_setField _ _ _ _ Hf).
    + intros m Hm. rewrite Hframe by (intros Hm'; apply Hm; by right).
      apply lookupField_setField_ne. intros ->. apply Hm. by left.
    + intros n v' f' [[= <- <-]|Hlater] Hf'.
      * rewrite Hf in Hf'. injection Hf' as <-.
        exists f1. rewrite (Hframe k Hk), lookupField_setField_eq.
        split; [done|]. split; [done|]. split; [done|]. intros Hv. by apply Hkeep.
      * assert (Hne : k <> n).
        { intros ->. apply Hk. apply in_map_iff. by exists (n, v'). }
        apply (Hnamed n v' f' Hlater). by rewrite lookupField_setField_ne.
    + intros Hv. rewrite (Hw Hv). by apply Hkeep.
Qed.

Lemma setEachFormValue_unknown (E : Env) (isValidate : bool) (n : string)
    (values : list (string * Value)) :
  forall fs w,
    In n (map fst values) -> ~ In n (keys fs) ->
    setEachFormValue E isValidate values fs w = Throw.
Proof.
  induction values as [|[k v] values IH]; intros fs w Hin Hout; [done|].
  simpl. destruct (lookupField fs k) as [f|] eqn:Hf.
  - destruct (setFormValue_Ok E isValidate k v fs w f Hf) as (f1 & w1 & Hstep & _).
    rewrite (bind_eq _ _ _ _ _ Hstep). apply IH.
    + destruct Hin as [Heq|Hin]; [|done]. simpl in Heq. subst k.
      exfalso. apply Hout. by eapply lookupField_Some_keys.
    + by rewrite (keys_setField _ _ _ _ Hf).
  - unfold mbind, M_bind, setFormValue. by rewrite Hf.
Qed.

(** X15: [setFormValues] with a value for a name that the form does not
    hold throws, whatever the other values are and whether or not the form
    is cleared first: no collection is returned, so no field changes. *)
Theorem X15_setFormValues_rejects_an_unknown_field (E : Env)
    (values : list (string * Value)) (isValidate isClearAll : bool) (formFields : Fields)
    (w : World) (n : string) :
  In n (map fst values) ->
  ~ In n (keys formFields) ->
  setFormValues E values isValidate isClearAll formFields w = Throw.
Proof.
  intros Hin Hout. unfold setFormValues. destruct isClearAll.
  - destruct (resetAllFields_step formFields (keys formFields) formFields w)
      as (fs' & H & Hk & _); [done|done|intros; by left|].
    unfold resetAllFields, forEachFormField. rewrite (bind_eq _ _ _ _ _ H).
    apply (setEachFormValue_unknown E isValidate n); [done|by rewrite Hk].
  - rewrite (bind_eq _ _ w w formFields) by reflexivity.
    by apply (setEachFormValue_unknown E isValidate n).
Qed.

Lemma X15_setFormValues_rejects_an_unknown_field_witness :
  setFormValues plainEnv [("name", VString "Bob"); ("phone", VString "555")] true false
    profileForm emptyWorld = Throw.
Proof.
  apply (X15_setFormValues_rejects_an_unknown_field plainEnv _ true false profileForm
           emptyWorld "phone").
  - right. by left.
  - intros [H|[H|[]]]; discriminate.
Defined.

(** X16: [setFormValues] for names that the form holds returns and keeps the
    keys.  A field that is not named stays as it is, or is reset to its
    default when [isClearAll] is set; nothing else happens to it: no
    dependent field is cleared and no marked field is re-validated.  A named
    field keeps its configuration and holds the value it was given, passed
    through the filter of an interactive field but not stripped of leading
    white space. *)
Theorem X16_setFormValues_changes_the_named_fields_only (E : Env)
    (values : list (string * Value)) (isValidate isClearAll : bool) (formFields : Fields)
    (w : World) :
  NoDup (map fst values) ->
  (forall n, In n (map fst values) -> In n (keys formFields)) ->
  exists formFields' w',
    setFormValues E values isValidate isClearAll formFields w = Ok (formFields', w')
    /\ keys formFields' = keys formFields
    /\ (forall m f, ~ In m (map fst values) -> lookupField formFields m = Some f ->
          lookupField formFields' m
          = Some (if isClearAll then getNextResetField f true else f))
    /\ (forall n v f, In (n, v) values -> lookupField formFields n = Some f ->
          exists f',
            lookupField formFields' n = Some f'
            /\ config f' = config f
            /\ rawValue f'
               = match Config.filter (config f) with
                 | Some filter =>
                     if checkIfHoneyFormFieldIsInteractive (config f) then filter v else v
                 | None => v
                 end).
Proof.
  intros Hnd Hin. unfold setFormValues. destruct isClearAll.
  - destruct (resetAllFields_step formFields (keys formFields) formFields w)
      as (fs1 & H1 & Hk1 & _ & Hreset); [done|done|intros; by left|].
    destruct (setEachFormValue_spec E isValidate values fs1 w Hnd)
      as (fs' & w' & H & Hk & Hframe & Hnamed & _).
    { intros n Hn. rewrite Hk1. by apply Hin. }
    exists fs', w'. split; [|split; [congruence|split]].
    + unfold resetAllFields, forEachFormField. by rewrite (bind_eq _ _ _ _ _ H1).
    + intros m f Hm Hf. rewrite (Hframe m Hm).
      apply Hreset; [by eapply lookupField_Some_keys|done].
    + intros n v f Hv Hf.
      destruct (Hnamed n v (getNextResetField f true) Hv) as (f' & Hf' & Hc & Hr & _).
      { apply Hreset; [by eapply lookupField_Some_keys|done]. }
      by exists f'.
  - destruct (setEachFormValue_spec E isValidate values formFields w Hnd Hin)
      as (fs' & w' & H & Hk & Hframe & Hnamed & _).
    exists fs', w'. split; [|split; [done|split]].
    + by rewrite (bind_eq _ _ w w formFields) by reflexivity.
    + intros m f Hm Hf. by rewrite (Hframe m Hm).
    + intros n v f Hv Hf. destruct (Hnamed n v f Hv Hf) as (f' & Hf' & Hc & Hr & _).
      by exists f'.
Qed.

Lemma X16_setFormValues_changes_the_named_fields_only_witness :
  exists formFields' w' f',
    setFormValues plainEnv [("name", VString "  Bob")] true false profileForm emptyWorld
    = Ok (formFields', w')
    /\ lookupField formFields' "age" = lookupField profileForm "age"
    /\ lookupField formFields' "name" = Some f'
    /\ rawValue f' = VString "  Bob".
Proof.
  destruct (X16_setFormValues_changes_the_named_fields_only plainEnv
              [("name", VString "  Bob")] true false profileForm emptyWorld)
    as (fs' & w' & H & _ & Hframe & Hnamed).
  - apply NoDup_singleton.
  - intros n [<-|[]]. by left.
  - destruct (Hnamed "name" (VString "  Bob") _ (or_introl eq_refl) eq_refl)
      as (f' & Hf' & _ & Hr).
    exists fs', w', f'. split; [exact H|]. split; [|split; [exact Hf'|exact Hr]].
    apply (Hframe "age"); [|reflexivity]. intros [H1|[]]. discriminate.
Defined.

(** X17: [setFormValues] without validation calls no validator and leaves
    the world as it is; a named field keeps its errors and its clean value
    while its raw value changes, so the clean value of a valid field is then
    the one of the value it held before. *)
Theorem X17_setFormValues_without_validation_keeps_clean_values (E : Env)
    (values : list (string * Value)) (formFields : Fields) (w : World) :
  NoDup (map fst values) ->
  (forall n, In n (map fst values) -> In n (keys formFields)) ->
  exists formFields',
    setFormValues E values false false formFields w = Ok (formFields', w)
    /\ forall n v f, In (n, v) values -> lookupField formFields n = Some f ->
         exists f',
           lookupField formFields' n = Some f'
           /\ errors f' = errors f
           /\ cleanValue f' = cleanValue f
           /\ rawValue f'
              = match Config.filter (config f) with
                | Some filter =>
                    if checkIfHoneyFormFieldIsInteractive (config f) then filter v else v
                | None => v
                end.
Proof.
  intros Hnd Hin.
  destruct (setEachFormValue_spec E false values formFields w Hnd Hin)
    as (fs' & w' & H & _ & _ & Hnamed & Hw).
  rewrite (Hw eq_refl) in H.
  exists fs'. split.
  - unfold setFormValues. by rewrite (bind_eq _ _ w w formFields) by reflexivity.
  - intros n v f Hv Hf. destruct (Hnamed n v f Hv Hf) as (f' & Hf' & _ & Hr & Hkeep).
    destruct (Hkeep eq_refl) as [He Hc]. by exists f'.
Qed.

Lemma X17_setFormValues_without_validation_keeps_clean_values_witness :
  exists formFields' f',
    setFormValues plainEnv [("name", VString "Bob")] false false profileForm emptyWorld
    = Ok (formFields', emptyWorld)
    /\ lookupField formFields' "name" = Some f'
    /\ rawValue f' = VString "Bob"
    /\ cleanValue f' = VString "Ann".
Proof.
  destruct (X17_setFormValues_without_validation_keeps_clean_values plainEnv
              [("name", VString "Bob")] profileForm emptyWorld)
    as (fs' & H & Hnamed).
  - apply NoDup_singleton.
  - intros n [<-|[]]. by left.
  - destruct (Hnamed "name" (VString "Bob") _ (or_introl eq_refl) eq_refl)
      as (f' & Hf' & _ & Hc & Hr).
    by exists fs', f'.
Defined.

(** ** [clearFormErrors], [addFormField], [removeFormField] *)

Lemma lookupField_mapFormFields (fs : Fields) (callback : string -> Field -> Field)
    (n : string) :
  lookupField (mapFormFields fs callback) n = callback n <$> lookupField fs n.
Proof.
  induction fs as [|[k f] fs IH]; [done|]. simpl.
  destruct (String.eqb_spec k n) as [->|Hne]; [done|exact IH].
Qed.

(** X18: [clearFormErrors] keeps the keys and turns every field into what
    [getNextErrorsFreeField] makes of it: no field has an error or a clean
    value afterwards, valid fields included, and the values and
    [isValidating] flags are those of before.  Clearing twice is clearing
    once. *)
Theorem X18_clearFormErrors_clears_every_field (formFields : Fields) :
  keys (clearFormErrors formFields) = keys formFields
  /\ (forall n, lookupField (clearFormErrors formFields) n
                = getNextErrorsFreeField <$> lookupField formFields n)
  /\ (forall n f', lookupField (clearFormErrors formFields) n = Some f' ->
        errors f' = [] /\ cleanValue f' = VUndefined)
  /\ formInvariant (clearFormErrors formFields)
  /\ isAnyFormFieldValidating (clearFormErrors formFields)
     = isAnyFormFieldValidating formFields
  /\ clearFormErrors (clearFormErrors formFields) = clearFormErrors formFields.
Proof.
  assert (Hk : keys (clearFormErrors formFields) = keys formFields).
  { unfold clearFormErrors, mapFormFields, keys. rewrite map_map. by apply map_ext. }
  assert (Hl : forall n, lookupField (clearFormErrors formFields) n
                         = getNextErrorsFreeField <$> lookupField formFields n).
  { intros n. apply lookupField_mapFormFields. }
  assert (Hf : forall n f', lookupField (clearFormErrors formFields) n = Some f' ->
                 errors f' = [] /\ cleanValue f' = VUndefined).
  { intros n f'. rewrite Hl. destruct (lookupField formFields n); [|done].
    by intros [= <-]. }
  split; [exact Hk|]. split; [exact Hl|]. split; [exact Hf|]. split; [|split].
  - intros n f' H e. by destruct (Hf n f' H) as [_ ->].
  - unfold isAnyFormFieldValidating. rewrite Hk. clear Hk Hf.
    induction (keys formFields) as [|k ks IH]; [done|]. simpl. rewrite IH, Hl.
    by destruct (lookupField formFields k).
  - unfold clearFormErrors, mapFormFields. rewrite map_map. apply map_ext.
    intros [k f]. simpl. by rewrite getNextErrorsFreeField_idempotent.
Qed.

(** ** Adding and removing fields *)

Lemma lookupField_deleteField_eq (fs : Fields) (n : string) :
  lookupField (deleteField fs n) n = None.
Proof.
  induction fs as [|[k f] fs IH]; [done|]. simpl.
  destruct (String.eqb_spec k n) as [->|Hne]; [done|]. simpl.
  by destruct (String.eqb_spec k n).
Qed.

Lemma lookupField_deleteField_ne (fs : Fields) (n m : string) :
  n <> m -> lookupField (deleteField fs n) m = lookupField fs m.
Proof.
  intros Hne. induction fs as [|[k f] fs IH]; [done|]. simpl.
  destruct (String.eqb_spec k n) as [->|Hkn]; simpl.
  - by destruct (String.eqb_spec n m).
  - by rewrite IH.
Qed.

Lemma deleteField_absent (fs : Fields) (n : string) :
  lookupField fs n = None -> deleteField fs n = fs.
Proof.
  induction fs as [|[k f] fs IH]; [done|]. simpl.
  destruct (String.eqb_spec k n) as [->|Hne]; [done|]. intros H. by rewrite IH.
Qed.

Lemma setField_absent (fs : Fields) (n : string) (f : Field) :
  lookupField fs n = None -> setField fs n f = fs ++ [(n, f)].
Proof.
  induction fs as [|[k g] fs IH]; [done|]. simpl.
  destruct (String.eqb_spec k n) as [->|Hne]; [done|]. intros H. by rewrite IH.
Qed.

Lemma deleteField_setField_absent (fs : Fields) (n : string) (f : Field) :
  lookupField fs n = None -> deleteField (setField fs n f) n = fs.
Proof.
  induction fs as [|[k g] fs IH]; simpl.
  - by rewrite String.eqb_refl.
  - destruct (String.eqb_spec k n) as [->|Hne]; [done|]. intros H. simpl.
    destruct (String.eqb_spec k n); [done|]. by rewrite IH.
Qed.

Lemma lookupDefault_setDefault_eq (d : Defaults) (n : string) (v : Value) :
  lookupDefault (setDefault d n v) n = v.
Proof.
  induction d as [|[k old] d IH]; simpl.
  - by rewrite String.eqb_refl.
  - destruct (String.eqb_spec k n) as [->|Hne]; simpl.
    + by rewrite String.eqb_refl.
    + by destruct (String.eqb_spec k n).
Qed.

Lemma lookupDefault_setDefault_ne (d : Defaults) (n m : string) (v : Value) :
  n <> m -> lookupDefault (setDefault d n v) m = lookupDefault d m.
Proof.
  intros Hne. induction d as [|[k old] d IH]; simpl.
  - by destruct (String.eqb_spec n m).
  - destruct (String.eqb_spec k n) as [->|Hkn]; simpl.
    + by destruct (String.eqb_spec n m).
    + by rewrite IH.
Qed.

Lemma lookupDefault_deleteDefault_eq (d : Defaults) (n : string) :
  lookupDefault (deleteDefault d n) n = VUndefined.
Proof.
  induction d as [|[k old] d IH]; [done|]. simpl.
  destruct (String.eqb_spec k n) as [->|Hne]; [done|]. simpl.
  by destruct (String.eqb_spec k n).
Qed.

(** X19: [addFormField] with a name that the form does not hold puts the
    field that [createField] makes under that name, stores its default
    value, leaves the other fields as they are and gives the field no mark
    for re-validation; [removeFormField] of that name then gives back the
    collection of before and forgets the default. *)
Theorem X19_an_added_field_can_be_removed_again (n : string) (c : Config.t)
    (formFields : Fields) (formDefaults : Defaults) (w : World) :
  lookupField formFields n = None ->
  exists formFields1 formDefaults1 w1,
    addFormField n c formFields formDefaults w = Ok ((formFields1, formDefaults1), w1)
    /\ lookupField formFields1 n = Some (createField c)
    /\ (forall m, m <> n -> lookupField formFields1 m = lookupField formFields m)
    /\ lookupDefault formDefaults1 n = Config.defaultValue c
    /\ (n ∉ scheduled w1)
    /\ fst (removeFormField n formFields1 formDefaults1) = formFields
    /\ lookupDefault (snd (removeFormField n formFields1 formDefaults1)) n = VUndefined.
Proof.
  intros Hn. eexists _, _, _. split; [reflexivity|]. simpl.
  split; [apply lookupField_setField_eq|].
  split; [intros m Hm; by apply lookupField_setField_ne|].
  split; [apply lookupDefault_setDefault_eq|].
  split; [set_solver|].
  split; [by apply deleteField_setField_absent|apply lookupDefault_deleteDefault_eq].
Qed.

Lemma X19_an_added_field_can_be_removed_again_witness :
  exists formFields1 formDefaults1 w1,
    addFormField "phone" (textConfig DependsOnNothing None) profileForm [] emptyWorld
    = Ok ((formFields1, formDefaults1), w1)
    /\ keys formFields1 = ["name"; "age"; "phone"]
    /\ lookupDefault formDefaults1 "phone" = VString "x"
    /\ fst (removeFormField "phone" formFields1 formDefaults1) = profileForm.
Proof.
  destruct (X19_an_added_field_can_be_removed_again "phone"
              (textConfig DependsOnNothing None) profileForm [] emptyWorld eq_refl)
    as (fs1 & d1 & w1 & H & _ & _ & Hd & _ & Hrem & _).
  exists fs1, d1, w1. split; [exact H|]. split; [|split; [exact Hd|exact Hrem]].
  vm_compute in H. by injection H as <- _ _.
Defined.

(** ** [resetForm] *)

Lemma createField_initial (c : Config.t) :
  errors (createField c) = []
  /\ isValidating (createField c) = false
  /\ cleanValue (createField c) = rawValue (createField c)
  /\ defaultValue (createField c) = Config.defaultValue c
  /\ childForms (createField c) = None.
Proof. done. Qed.

Lemma mapFieldsConfig_spec (fieldsConfig : FieldsConfig) :
  forall acc d w,
    NoDup (map fst fieldsConfig) ->
    (forall n, In n (map fst fieldsConfig) -> lookupField acc n = None) ->
    exists d' w',
      mapFieldsConfig fieldsConfig acc d w
      = Ok ((acc ++ map (fun entry => (entry.1, initialField d entry.1 entry.2)) fieldsConfig,
             d'), w')
      /\ (forall m, ~ In m (map fst fieldsConfig) -> lookupDefault d' m = lookupDefault d m)
      /\ (forall n c, In (n, c) fieldsConfig -> lookupDefault d' n = resolvedDefault d n c)
      /\ (forall m, m ∈ scheduled w' <-> m ∈ scheduled w /\ ~ In m (map fst fieldsConfig))
      /\ pending w' = pending w
      /\ trace w' = trace w.
Proof.
  induction fieldsConfig as [|[k c] rest IH]; intros acc d w Hnd Hfresh.
  - exists d, w. simpl. rewrite app_nil_r. repeat split; try done; tauto.
  - simpl in Hnd. apply NoDup_cons in Hnd as [Hk Hnd]. rewrite list_elem_of_In in Hk.
    set (dk := resolvedDefault d k c).
    set (d1 := setDefault d k dk).
    set (w1 := mkWorld (scheduled w ∖ {[k]}) (pending w) (trace w)).
    destruct (IH (setField acc k (initialField d k c)) d1 w1 Hnd)
      as (d' & w' & H & Hother & Hnamed & Hflags & Hpend & Htrace).
    { intros n Hn. rewrite lookupField_setField_ne by (by intros ->).
      apply Hfresh. by right. }
    subst w1 d1 dk.
    exists d', w'. split; [|split; [|split; [|split; [|split]]]].
    + simpl. unfold createFormField.
      unfold mbind at 1, M_bind at 1. unfold mbind at 1, M_bind at 1.
      unfold clearValidationScheduled, mret, M_ret. simpl.
      refine (eq_trans H _).
      assert (Hmap : map (fun entry =>
                            (entry.1,
                             initialField (setDefault d k (resolvedDefault d k c))
                               entry.1 entry.2)) rest
                     = map (fun entry => (entry.1, initialField d entry.1 entry.2)) rest).
      { apply map_ext_in. intros [n c'] Hin. simpl. unfold initialField.
        unfold resolvedDefault at 1 3. rewrite lookupDefault_setDefault_ne; [done|].
        intros ->. apply Hk. apply in_map_iff. by exists (n, c'). }
      rewrite Hmap, (setField_absent _ _ _ (Hfresh k (or_introl eq_refl))).
      by rewrite <- app_assoc.
    + intros m Hm. rewrite Hother by (intros Hm'; apply Hm; by right).
      apply lookupDefault_setDefault_ne. intros ->. apply Hm. by left.
    + intros n c' [[= <- <-]|Hin].
      * rewrite (Hother k Hk). apply lookupDefault_setDefault_eq.
      * rewrite (Hnamed n c' Hin). unfold resolvedDefault.
        rewrite lookupDefault_setDefault_ne; [done|].
        intros ->. apply Hk. apply in_map_iff. by exists (n, c').
    + intros m. rewrite Hflags. simpl. set_solver.
    + by rewrite Hpend.
    + by rewrite Htrace.
Qed.

Lemma lookupField_initialFields (fieldsConfig : FieldsConfig) (d : Defaults) (n : string) :
  lookupField (map (fun entry => (entry.1, initialField d entry.1 entry.2)) fieldsConfig) n
  = match find (fun entry => String.eqb entry.1 n) fieldsConfig with
    | Some entry => Some (initialField d entry.1 entry.2)
    | None => None
    end.
Proof.
  induction fieldsConfig as [|[k c] rest IH]; [done|]. simpl.
  by destruct (String.eqb k n).
Qed.

(** X20: [resetForm] returns the configured fields, in the configured order
    and nothing else: a field added since is gone, a field removed since is
    back.  Each field is what [createField] makes of its configuration with
    the default resolved as [new default ?? stored default ?? configured
    default]; it has no error, is not validating, and has no mark for
    re-validation.  The resolved defaults are stored, and the form is
    neither dirty, valid nor submitted. *)
Theorem X20_resetForm_rebuilds_the_configured_fields (fieldsConfig : FieldsConfig)
    (newFormDefaults : option Defaults) (refs : FormRefs) (w : World) :
  NoDup (map fst fieldsConfig) ->
  exists refs' w',
    resetForm fieldsConfig newFormDefaults refs w
    = Ok ((map (fun entry =>
                  (entry.1,
                   initialField (resetDefaults newFormDefaults refs) entry.1 entry.2))
             fieldsConfig, refs'), w')
    /\ isFormDirty refs' = false
    /\ isFormValid refs' = false
    /\ isFormSubmitted refs' = false
    /\ (forall n c, In (n, c) fieldsConfig ->
          lookupDefault (formDefaults refs') n
          = resolvedDefault (resetDefaults newFormDefaults refs) n c)
    /\ (forall n, In n (map fst fieldsConfig) -> n ∉ scheduled w')
    /\ pending w' = pending w.
Proof.
  intros Hnd.
  destruct (mapFieldsConfig_spec fieldsConfig [] (resetDefaults newFormDefaults refs) w Hnd)
    as (d' & w' & H & _ & Hnamed & Hflags & Hpend & _); [done|].
  exists (mkFormRefs d' false false false), w'.
  split; [|by repeat split; [| intros n Hn Hs; by apply Hflags in Hs as [_ []] |]].
  unfold resetForm, createInitialFormFields.
  by rewrite (bind_eq _ _ _ _ _ H).
Qed.

Lemma X20_resetForm_rebuilds_the_configured_fields_witness :
  exists fs refs' w' f,
    resetForm profileConfig (Some [("age", VString "18")])
      (mkFormRefs [("name", VNull)] true true true) emptyWorld = Ok ((fs, refs'), w')
    /\ keys fs = ["name"; "age"]
    /\ lookupField fs "name" = Some f
    /\ rawValue f = VString "anonymous"
    /\ lookupDefault (formDefaults refs') "age" = VString "18"
    /\ isFormSubmitted refs' = false.
Proof.
  destruct (X20_resetForm_rebuilds_the_configured_fields profileConfig
              (Some [("age", VString "18")]) (mkFormRefs [("name", VNull)] true true true)
              emptyWorld)
    as (refs' & w' & H & _ & _ & Hs & Hd & _).
  - apply NoDup_cons. split; [|apply NoDup_singleton].
    intros Hin. by apply list_elem_of_singleton in Hin.
  - eexists _, refs', w', _. split; [exact H|]. split; [reflexivity|].
    split; [reflexivity|]. split; [reflexivity|]. split; [|exact Hs].
    apply (Hd "age" _ (or_intror (or_introl eq_refl))).
Defined.

Lemma setDefault_keys (d : Defaults) (k : string) (v : Value) (m : string) :
  In m (map fst (setDefault d k v)) <-> m = k \/ In m (map fst d).
Proof.
  induction d as [|[n old] d IH]; simpl; [naive_solver|].
  destruct (String.eqb_spec n k) as [->|Hne]; simpl; [naive_solver|].
  rewrite IH. naive_solver.
Qed.

Lemma setDefault_same (d : Defaults) (k : string) :
  In k (map fst d) -> setDefault d k (lookupDefault d k) = d.
Proof.
  induction d as [|[n old] d IH]; [done|]. simpl.
  destruct (String.eqb_spec n k) as [->|Hne]; [done|].
  intros [?|Hin]; [done|]. by rewrite IH.
Qed.

Lemma orElse_orElse (v d : Value) : orElse (orElse v d) d = orElse v d.
Proof. unfold orElse. destruct (nullish v) eqn:Hv; [by destruct (nullish d)|by rewrite Hv]. Qed.

Lemma mapFieldsConfig_keys (fieldsConfig : FieldsConfig) :
  forall acc d w fs d' w',
    mapFieldsConfig fieldsConfig acc d w = Ok ((fs, d'), w') ->
    forall n, In n (map fst fieldsConfig) \/ In n (map fst d) -> In n (map fst d').
Proof.
  induction fieldsConfig as [|[k c] rest IH]; intros acc d w fs d' w' H n Hn.
  - apply ret_Ok in H. injection H as _ <- _. by destruct Hn.
  - simpl in H. apply bind_Ok in H as ([f d1] & w1 & Hcreate & H).
    unfold createFormField in Hcreate.
    apply bind_Ok in Hcreate as ([] & w0 & _ & Hcreate).
    apply ret_Ok in Hcreate. injection Hcreate as _ -> _.
    apply (IH _ _ _ _ _ _ H). rewrite setDefault_keys. simpl in Hn. naive_solver.
Qed.

Lemma mapFieldsConfig_stable (fieldsConfig : FieldsConfig) :
  forall acc d w,
    (forall n c, In (n, c) fieldsConfig ->
       In n (map fst d) /\ resolvedDefault d n c = lookupDefault d n) ->
    (forall n, In n (map fst fieldsConfig) -> n ∉ scheduled w) ->
    exists fs, mapFieldsConfig fieldsConfig acc d w = Ok ((fs, d), w).
Proof.
  induction fieldsConfig as [|[k c] rest IH]; intros acc d w Hd Hw; [by eexists|].
  destruct (Hd k c (or_introl eq_refl)) as [Hin Hres].
  destruct (IH (setField acc k (initialField d k c)) d w) as [fs H].
  { intros n c' Hn. apply Hd. by right. }
  { intros n Hn. apply Hw. by right. }
  exists fs. simpl. unfold createFormField.
  unfold mbind at 1, M_bind at 1. unfold mbind at 1, M_bind at 1.
  unfold clearValidationScheduled, mret, M_ret. simpl.
  assert (Hw1 : mkWorld (scheduled w ∖ {[k]}) (pending w) (trace w) = w).
  { destruct w as [s p t]. simpl. f_equal.
    assert (k ∉ s) by (apply (Hw k); by left). set_solver. }
  rewrite Hw1. fold (resolvedDefault d k c). rewrite Hres, (setDefault_same _ _ Hin).
  rewrite <- Hres. exact H.
Qed.

(** X21: resetting twice is resetting once.  [resetForm] stores the defaults
    it resolved, and a second [resetForm] without new defaults resolves the
    same ones: it returns the same fields, the same refs and the same
    world. *)
Theorem X21_resetting_twice_is_resetting_once (fieldsConfig : FieldsConfig)
    (newFormDefaults : option Defaults) (refs : FormRefs) (w : World) (formFields : Fields)
    (refs' : FormRefs) (w' : World) :
  NoDup (map fst fieldsConfig) ->
  resetForm fieldsConfig newFormDefaults refs w = Ok ((formFields, refs'), w') ->
  resetForm fieldsConfig None refs' w' = Ok ((formFields, refs'), w').
Proof.
  intros Hnd H.
  destruct (mapFieldsConfig_spec fieldsConfig [] (resetDefaults newFormDefaults refs) w Hnd)
    as (d' & w1 & H1 & _ & Hnamed & Hflags & _); [done|].
  unfold resetForm, createInitialFormFields in H.
  fold (resetDefaults newFormDefaults refs) in H.
  rewrite (bind_eq _ _ _ _ _ H1) in H. apply ret_Ok in H. injection H as -> -> ->.
  assert (Hres : forall n c, In (n, c) fieldsConfig ->
            resolvedDefault d' n c = lookupDefault d' n).
  { intros n c Hin. unfold resolvedDefault at 1. rewrite (Hnamed n c Hin).
    apply orElse_orElse. }
  destruct (mapFieldsConfig_stable fieldsConfig [] d' w1) as [fs2 H2].
  { intros n c Hin. split; [|by apply Hres].
    apply (mapFieldsConfig_keys _ _ _ _ _ _ _ H1). left.
    apply in_map_iff. by exists (n, c). }
  { intros n Hn Hs. by apply Hflags in Hs as [_ []]. }
  destruct (mapFieldsConfig_spec fieldsConfig [] d' w1 Hnd) as (d2 & w2 & H3 & _); [done|].
  rewrite H2 in H3. injection H3 as ->.
  unfold resetForm, createInitialFormFields. simpl.
  rewrite (bind_eq _ _ _ _ _ H2). unfold mret, M_ret. do 3 f_equal.
  apply map_ext_in. intros [n c] Hin. simpl. unfold initialField.
  by rewrite (Hres n c Hin), (Hnamed n c Hin).
Qed.

Lemma profileConfig_NoDup : NoDup (map fst profileConfig).
Proof.
  apply NoDup_cons. split; [|apply NoDup_singleton].
  intros Hin. by apply list_elem_of_singleton in Hin.
Defined.

Lemma X21_resetting_twice_is_resetting_once_witness :
  exists fs refs' w',
    resetForm profileConfig (Some [("age", VNull)]) (mkFormRefs [] true false true)
      emptyWorld = Ok ((fs, refs'), w')
    /\ resetForm profileConfig None refs' w' = Ok ((fs, refs'), w').
Proof.
  assert (H : exists r,
            resetForm profileConfig (Some [("age", VNull)]) (mkFormRefs [] true false true)
              emptyWorld = Ok r) by (eexists; reflexivity).
  destruct H as ([[fs refs'] w'] & H). exists fs, refs', w'. split; [exact H|].
  exact (X21_resetting_twice_is_resetting_once _ _ _ _ _ _ _ profileConfig_NoDup H).
Defined.

(** ** [submitForm] *)

Lemma setFormErrors_spec (formErrors : list (string * list FieldError)) :
  forall fs w,
    NoDup (map fst formErrors) ->
    (forall n, In n (map fst formErrors) -> In n (keys fs)) ->
    exists fs',
      setFormErrors formErrors fs w = Ok (fs', w)
      /\ keys fs' = keys fs
      /\ (forall m, ~ In m (map fst formErrors) -> lookupField fs' m = lookupField fs m)
      /\ (forall n errs f, In (n, errs) formErrors -> lookupField fs n = Some f ->
            lookupField fs' n = Some (getNextErredField f errs)).
Proof.
  induction formErrors as [|[k errs] rest IH]; intros fs w Hnd Hin.
  - exists fs. by repeat split.
  - simpl in Hnd. apply NoDup_cons in Hnd as [Hk Hnd]. rewrite list_elem_of_In in Hk.
    destruct (keys_lookupField fs k) as [f Hf]; [apply Hin; by left|].
    destruct (IH (setField fs k (getNextErredField f errs)) w Hnd)
      as (fs' & H & Hkeys & Hframe & Hnamed).
    { intros n Hn. rewrite (keys_setField _ _ _ _ Hf). apply Hin. by right. }
    exists fs'. split; [|split; [|split]].
    + simpl. erewrite bind_eq; [exact H|by apply getField_Ok].
    + by rewrite Hkeys, (keys_setField _ _ _ _ Hf).
    + intros m Hm. rewrite Hframe by (intros Hm'; apply Hm; by right).
      apply lookupField_setField_ne. intros ->. apply Hm. by left.
    + intros n errs' f' [[= <- <-]|Hlater] Hf'.
      * rewrite Hf in Hf'. injection Hf' as <-.
        by rewrite (Hframe k Hk), lookupField_setField_eq.
      * assert (Hne : k <> n).
        { intros ->. apply Hk. apply in_map_iff. by exists (n, errs'). }
        apply (Hnamed n errs' f' Hlater). by rewrite lookupField_setField_ne.
Qed.

(** X22: [submitForm] does not consult the submit handler of a form that
    fails validation.  The result is the collection that [validateForm]
    returns, [isFormValid] is [false], and the dirty and submitted flags are
    those of before, whichever handler was given. *)
Theorem X22_an_invalid_form_is_not_submitted (E : Env)
    (getSubmitFormValues : Fields -> FormValues) (fieldsConfig : FieldsConfig)
    (onSubmit formSubmitHandler : option SubmitHandler) (submitHandler : SubmitHandler)
    (resetAfterSubmit : bool) (formFields : Fields) (refs : FormRefs) (w : World)
    (nextFormFields : Fields) (w' : World) :
  orHandler formSubmitHandler onSubmit = Some submitHandler ->
  validateForm E None None formFields w = Ok ((false, nextFormFields), w') ->
  submitForm E getSubmitFormValues fieldsConfig onSubmit resetAfterSubmit formSubmitHandler
    formFields refs w
  = Ok ((nextFormFields,
         mkFormRefs (formDefaults refs) (isFormDirty refs) false (isFormSubmitted refs)),
        w').
Proof.
  intros Hh Hv. unfold submitForm. rewrite Hh. by rewrite (bind_eq _ _ _ _ _ Hv).
Qed.

Lemma X22_an_invalid_form_is_not_submitted_witness :
  exists next w',
    validateForm plainEnv None None requiredForm emptyWorld = Ok ((false, next), w')
    /\ submitForm plainEnv (getFormValues plainEnv) [] None true (Some nameTakenHandler)
         requiredForm (mkFormRefs [] true false false) emptyWorld
       = Ok ((next, mkFormRefs [] true false false), w').
Proof.
  assert (H : exists next w',
            validateForm plainEnv None None requiredForm emptyWorld = Ok ((false, next), w'))
    by (eexists _, _; vm_compute; reflexivity).
  destruct H as (next & w' & H). exists next, w'. split; [exact H|].
  by apply (X22_an_invalid_form_is_not_submitted plainEnv (getFormValues plainEnv) []
              None (Some nameTakenHandler) nameTakenHandler true requiredForm
              (mkFormRefs [] true false false) emptyWorld next w').
Defined.

(** X23: when the form is valid and the handler resolves to server errors
    for fields of the form, [submitForm] gives each named field exactly the
    errors of type [server] made of its messages, in place of the errors it
    had, and leaves the other fields as [validateForm] returned them.  The
    form is then marked as submitted and not dirty, and it is not reset even
    when [resetAfterSubmit] is set. *)
Theorem X23_server_errors_replace_the_errors_of_their_fields (E : Env)
    (getSubmitFormValues : Fields -> FormValues) (fieldsConfig : FieldsConfig)
    (onSubmit formSubmitHandler : option SubmitHandler) (submitHandler : SubmitHandler)
    (resetAfterSubmit : bool) (formFields : Fields) (refs : FormRefs) (w : World)
    (nextFormFields : Fields) (w' : World) (serverErrors : ServerErrors) :
  orHandler formSubmitHandler onSubmit = Some submitHandler ->
  validateForm E None None formFields w = Ok ((true, nextFormFields), w') ->
  submitHandler (getSubmitFormValues nextFormFields) = Resolves (Some serverErrors) ->
  serverErrors <> [] ->
  NoDup (map fst serverErrors) ->
  (forall n, In n (map fst serverErrors) -> In n (keys nextFormFields)) ->
  exists formFields',
    submitForm E getSubmitFormValues fieldsConfig onSubmit resetAfterSubmit
      formSubmitHandler formFields refs w
    = Ok ((formFields', mkFormRefs (formDefaults refs) false true true), w')
    /\ keys formFields' = keys nextFormFields
    /\ (forall m, ~ In m (map fst serverErrors) ->
          lookupField formFields' m = lookupField nextFormFields m)
    /\ (forall n messages f, In (n, messages) serverErrors ->
          lookupField nextFormFields n = Some f ->
          exists f',
            lookupField formFields' n = Some f'
            /\ f' = getNextErredField f (map (mkError server_t) messages)
            /\ errors f' = map (mkError server_t) messages
            /\ rawValue f' = rawValue f).
Proof.
  intros Hh Hv Hs Hne Hnd Hin.
  set (formErrors := mapServerErrors serverErrors
                       (fun _ fieldErrors => map (mkError server_t) fieldErrors)).
  assert (Hnames : map fst formErrors = map fst serverErrors).
  { unfold formErrors, mapServerErrors. rewrite map_map. by apply map_ext. }
  destruct (setFormErrors_spec formErrors nextFormFields w')
    as (fs' & H & Hk & Hframe & Hnamed); [by rewrite Hnames|by rewrite Hnames|].
  exists fs'. split; [|split; [done|split]].
  - unfold submitForm. rewrite Hh, (bind_eq _ _ _ _ _ Hv). simpl. rewrite Hs.
    assert (Hhas : hasServerErrors (Some serverErrors) = true) by by destruct serverErrors.
    rewrite Hhas. simpl. fold formErrors. by rewrite (bind_eq _ _ _ _ _ H).
  - intros m Hm. apply Hframe. by rewrite Hnames.
  - intros n messages f Hmsg Hf. eexists. split; [|by repeat split].
    apply (Hnamed n (map (mkError server_t) messages) f); [|done].
    unfold formErrors, mapServerErrors. apply in_map_iff. by exists (n, messages).
Qed.

Lemma X23_server_errors_replace_the_errors_of_their_fields_witness :
  exists formFields' f',
    submitForm plainEnv (getFormValues plainEnv) profileConfig None true
      (Some nameTakenHandler) profileForm (mkFormRefs [] true false false) emptyWorld
    = Ok ((formFields', mkFormRefs [] false true true),
          mkWorld ∅ []
            [TypeValidatorCalled "name" (VString "Ann");
             TypeValidatorCalled "age" (VString "41")])
    /\ lookupField formFields' "name" = Some f'
    /\ errors f' = [mkError server_t (MString "already taken")].
Proof.
  destruct (X23_server_errors_replace_the_errors_of_their_fields plainEnv
              (getFormValues plainEnv) profileConfig None (Some nameTakenHandler)
              nameTakenHandler true profileForm (mkFormRefs [] true false false) emptyWorld
              [("name", withCleanValue (getNextErrorsFreeField
                                          (textField DependsOnNothing None "Ann"))
                          (VString "Ann"));
               ("age", withCleanValue (getNextErrorsFreeField
                                         (textField DependsOnNothing None "41"))
                         (VString "41"))]
              (mkWorld ∅ []
                 [TypeValidatorCalled "name" (VString "Ann");
                  TypeValidatorCalled "age" (VString "41")])
              [("name", [MString "already taken"])])
    as (fs' & H & _ & _ & Hnamed).
  - reflexivity.
  - reflexivity.
  - reflexivity.
  - done.
  - apply NoDup_singleton.
  - intros n [<-|[]]. by left.
  - destruct (Hnamed "name" [MString "already taken"] _ (or_introl eq_refl) eq_refl)
      as (f' & Hf' & _ & He & _).
    by exists fs', f'.
Defined.

(** ** The invariant across the operations of a form *)

Lemma setEachFormValue_invariant (E : Env) (isValidate : bool)
    (values : list (string * Value)) :
  forall fs w fs' w',
    setEachFormValue E isValidate values fs w = Ok (fs', w') ->
    formInvariant fs -> formInvariant fs'.
Proof.
  induction values as [|[k v] values IH]; intros fs w fs' w' H Hinv.
  - apply ret_Ok in H. by injection H as <- _.
  - simpl in H. apply bind_Ok in H as (fs1 & w1 & Hstep & H).
    apply (IH _ _ _ _ H). unfold setFormValue in Hstep.
    destruct (lookupField fs k) as [f|] eqn:Hf; [|done].
    apply bind_Ok in Hstep as (f1 & w2 & Hf1 & Hstep).
    apply ret_Ok in Hstep. injection Hstep as -> _.
    apply formInvariant_setField; [done|]. apply getNextSingleFieldState_invariant.
    destruct isValidate.
    + by eapply executeFieldValidator_invariant.
    + apply ret_Ok in Hf1. injection Hf1 as -> _. by eapply Hinv.
Qed.

Lemma resetAllFields_invariant (fs fs' : Fields) (w w' : World) :
  resetAllFields fs w = Ok (fs', w') -> formInvariant fs -> formInvariant fs'.
Proof.
  intros H Hinv.
  destruct (resetAllFields_step fs (keys fs) fs w) as (fs1 & H1 & Hk & Hall & _);
    [done|done|intros; by left|].
  unfold resetAllFields, forEachFormField in H. rewrite H1 in H. injection H as <- _.
  intros n f' Hf'.
  destruct (keys_lookupField fs n) as [f Hf].
  { rewrite <- Hk. by eapply lookupField_Some_keys. }
  destruct (Hall n f Hf) as [H2|H2]; rewrite H2 in Hf'; injection Hf' as <-.
  - by eapply Hinv.
  - apply getNextResetField_invariant.
Qed.

Lemma setFormValues_invariant (E : Env) (values : list (string * Value))
    (isValidate isClearAll : bool) (fs fs' : Fields) (w w' : World) :
  setFormValues E values isValidate isClearAll fs w = Ok (fs', w') ->
  formInvariant fs -> formInvariant fs'.
Proof.
  unfold setFormValues. intros H Hinv. apply bind_Ok in H as (fs1 & w1 & Hfirst & H).
  apply (setEachFormValue_invariant _ _ _ _ _ _ _ H). destruct isClearAll.
  - by eapply resetAllFields_invariant.
  - apply ret_Ok in Hfirst. by injection Hfirst as -> _.
Qed.

Lemma mapFieldsConfig_invariant (fieldsConfig : FieldsConfig) :
  forall acc d w fs d' w',
    mapFieldsConfig fieldsConfig acc d w = Ok ((fs, d'), w') ->
    formInvariant acc -> formInvariant fs.
Proof.
  induction fieldsConfig as [|[k c] rest IH]; intros acc d w fs d' w' H Hinv.
  - apply ret_Ok in H. by injection H as <- _ _.
  - simpl in H. apply bind_Ok in H as ([f d1] & w1 & Hcreate & H).
    unfold createFormField in Hcreate.
    apply bind_Ok in Hcreate as ([] & w0 & _ & Hcreate).
    apply ret_Ok in Hcreate. injection Hcreate as -> _ _.
    apply (IH _ _ _ _ _ _ H). apply formInvariant_setField; [done|].
    apply createField_invariant.
Qed.

Lemma resetForm_invariant (fieldsConfig : FieldsConfig) (newFormDefaults : option Defaults)
    (refs refs' : FormRefs) (w w' : World) (fs : Fields) :
  resetForm fieldsConfig newFormDefaults refs w = Ok ((fs, refs'), w') -> formInvariant fs.
Proof.
  unfold resetForm, createInitialFormFields. intros H.
  apply bind_Ok in H as ([fs1 d1] & w1 & Hmap & H). apply ret_Ok in H.
  injection H as <- _ _. apply (mapFieldsConfig_invariant _ _ _ _ _ _ _ Hmap).
  by intros n f.
Qed.

Lemma submitForm_invariant (E : Env) (getSubmitFormValues : Fields -> FormValues)
    (fieldsConfig : FieldsConfig) (onSubmit formSubmitHandler : option SubmitHandler)
    (resetAfterSubmit : bool) (fs fs' : Fields) (refs refs' : FormRefs) (w w' : World) :
  submitForm E getSubmitFormValues fieldsConfig onSubmit resetAfterSubmit formSubmitHandler
    fs refs w = Ok ((fs', refs'), w') ->
  formInvariant fs'.
Proof.
  unfold submitForm. intros H.
  destruct (orHandler formSubmitHandler onSubmit) as [submitHandler|]; [|done].
  apply bind_Ok in H as ([isValid next] & w1 & Hv & H).
  apply validateForm_invariant in Hv.
  destruct isValid; [|apply ret_Ok in H; by injection H as <- _ _].
  destruct (submitHandler (getSubmitFormValues next)) as [serverErrors|]; [|done].
  destruct (hasServerErrors serverErrors).
  - apply bind_Ok in H as (fs1 & w2 & Hset & H). apply ret_Ok in H.
    injection H as <- _ _. by eapply setFormErrors_invariant.
  - destruct resetAfterSubmit.
    + by eapply resetForm_invariant.
    + apply ret_Ok in H. by injection H as <- _ _.
Qed.

(** X24: every operation of a form but the one that appends errors keeps the
    invariant of the data model, that a field with errors has no clean
    value: if it holds of the collection before, it holds of the collection
    the operation returns.  ([addFormFieldErrors], which the handlers of a
    promise call, is the exception.) *)
Theorem X24_form_operations_keep_the_invariant (E : Env)
    (getSubmitFormValues : Fields -> FormValues) (formFields : Fields) (w : World) :
  formInvariant formFields ->
  (forall fuel n v isValidate isFormat isPushValue fs' w',
     setFieldValue E fuel n v isValidate isFormat isPushValue formFields w = Ok (fs', w') ->
     formInvariant fs')
  /\ (forall n fs' w', validateField E n formFields w = Ok (fs', w') -> formInvariant fs')
  /\ (forall values isValidate isClearAll fs' w',
        setFormValues E values isValidate isClearAll formFields w = Ok (fs', w') ->
        formInvariant fs')
  /\ (forall formErrors fs' w',
        setFormErrors formErrors formFields w = Ok (fs', w') -> formInvariant fs')
  /\ (forall n fs' w', clearFieldErrors n formFields w = Ok (fs', w') -> formInvariant fs')
  /\ formInvariant (clearFormErrors formFields)
  /\ (forall n fs' w',
        finishFieldAsyncValidation n formFields w = Ok (fs', w') -> formInvariant fs')
  /\ (forall targetFields excludeFields isValid fs' w',
        validateForm E targetFields excludeFields formFields w = Ok ((isValid, fs'), w') ->
        formInvariant fs')
  /\ (forall n c d fs' d' w',
        addFormField n c formFields d w = Ok ((fs', d'), w') -> formInvariant fs')
  /\ (forall n d, formInvariant (fst (removeFormField n formFields d)))
  /\ (forall fieldsConfig newFormDefaults refs fs' refs' w',
        resetForm fieldsConfig newFormDefaults refs w = Ok ((fs', refs'), w') ->
        formInvariant fs')
  /\ (forall fieldsConfig onSubmit resetAfterSubmit formSubmitHandler refs fs' refs' w',
        submitForm E getSubmitFormValues fieldsConfig onSubmit resetAfterSubmit
          formSubmitHandler formFields refs w = Ok ((fs', refs'), w') ->
        formInvariant fs').
Proof.
  intros Hinv. repeat split.
  - intros fuel n v isValidate isFormat isPushValue fs' w' H. unfold setFieldValue in H.
    apply bind_Ok in H as (f & w0 & _ & H). apply bind_Ok in H as (v' & w1 & _ & H).
    by eapply getNextFieldsState_invariant.
  - intros n fs' w' H. unfold validateField in H.
    apply bind_Ok in H as (f & w0 & _ & H). apply bind_Ok in H as (v & w1 & _ & H).
    apply bind_Ok in H as (f' & w2 & Hrun & H). apply ret_Ok in H. injection H as -> _.
    apply formInvariant_setField; [done|]. by eapply executeFieldValidator_invariant.
  - intros values isValidate isClearAll fs' w' H. by eapply setFormValues_invariant.
  - intros formErrors fs' w' H. by eapply setFormErrors_invariant.
  - intros n fs' w' H. by eapply clearFieldErrors_invariant.
  - intros n f' H. unfold clearFormErrors in H. rewrite lookupField_mapFormFields in H.
    destruct (lookupField formFields n); [|done]. injection H as <-.
    apply getNextErrorsFreeField_invariant.
  - intros n fs' w' H. by eapply finishFieldAsyncValidation_invariant.
  - intros targetFields excludeFields isValid fs' w' H. by eapply validateForm_invariant.
  - intros n c d fs' d' w' H. unfold addFormField, createFormField in H.
    apply bind_Ok in H as ([f d1] & w1 & Hcreate & H).
    apply bind_Ok in Hcreate as ([] & w0 & _ & Hcreate).
    apply ret_Ok in Hcreate. injection Hcreate as -> _ _.
    apply ret_Ok in H. injection H as -> _ _.
    apply formInvariant_setField; [done|apply createField_invariant].
  - intros n d m f H. simpl in H. destruct (String.eqb_spec n m) as [->|Hne].
    + by rewrite lookupField_deleteField_eq in H.
    + rewrite lookupField_deleteField_ne in H by done. by eapply Hinv.
  - intros fieldsConfig newFormDefaults refs fs' refs' w' H. by eapply resetForm_invariant.
  - intros fieldsConfig onSubmit resetAfterSubmit formSubmitHandler refs fs' refs' w' H.
    by eapply submitForm_invariant.
Qed.

Lemma profileForm_invariant : formInvariant profileForm.
Proof.
  intros n f H. unfold profileForm, lookupField in H.
  destruct (String.eqb "name" n);
    [injection H as <-; intros He; exfalso; apply He; reflexivity|].
  destruct (String.eqb "age" n);
    [injection H as <-; intros He; exfalso; apply He; reflexivity|done].
Defined.

Lemma X24_form_operations_keep_the_invariant_witness :
  exists fs' w',
    setFieldValue plainEnv 1 "name" (VString "") true true false profileForm emptyWorld
    = Ok (fs', w')
    /\ formInvariant fs'.
Proof.
  assert (H : exists r,
            setFieldValue plainEnv 1 "name" (VString "") true true false profileForm
              emptyWorld = Ok r) by (eexists; vm_compute; reflexivity).
  destruct H as ([fs' w'] & H). exists fs', w'. split; [exact H|].
  destruct (X24_form_operations_keep_the_invariant plainEnv (getFormValues plainEnv)
              profileForm emptyWorld profileForm_invariant) as (Hset & _).
  by eapply Hset.
Defined.

(** ** The clean value after a change *)

(** X25: after a change through [getNextFieldsState], validated or not, the
    clean value of the changed field is never a value of before: it is
    [undefined], or it is the sanitized form of the raw value that the field
    now holds. *)
Theorem X25_a_change_leaves_no_stale_clean_value (E : Env) (fuel : nat) (n : string)
    (v : Value) (formFields : Fields) (isValidate isFormat fin : bool) (w : World)
    (formFields' : Fields) (w' : World) :
  getNextFieldsState E fuel n v formFields isValidate isFormat fin w = Ok (formFields', w') ->
  exists f',
    lookupField formFields' n = Some f'
    /\ (cleanValue f' = VUndefined
        \/ cleanValue f' = sanitizeFieldValue E (Config.type (config f')) (rawValue f'))
    /\ (errors f' <> [] -> cleanValue f' = VUndefined).
Proof.
  intros H. unfold getNextFieldsState in H.
  apply bind_Ok in H as (f & w0 & Hget & H). apply getField_Ok in Hget as [Hf ->].
  set (fv := if checkIfHoneyFormFieldIsInteractive (config f) then _ else v) in H.
  apply bind_Ok in H as ([fsR validated] & wV & Hfirst & H).
  apply bind_Ok in H as (fsP & wP & Hskip & Htrig).
  apply triggerScheduledFieldsValidations_changed_field in Htrig as [Hsame _].
  unfold processSkippableFields, forEachFormField in Hskip.
  eapply (processSkippableFields_step E _ _ _ _ _ _ _ eq_refl) in Hskip
    as (_ & _ & Hall); [|intros; by left].
  set (f1 := getNextSingleFieldState validated fv isFormat) in *.
  assert (H1 : (cleanValue f1 = VUndefined
                \/ cleanValue f1
                   = sanitizeFieldValue E (Config.type (config f1)) (rawValue f1))
               /\ (errors f1 <> [] -> cleanValue f1 = VUndefined)).
  { destruct isValidate.
    - apply bind_Ok in Hfirst as (fsR' & wR & Hreset & Hfirst).
      apply bind_Ok in Hfirst as (validated' & wV' & Hrun & Hfirst).
      apply ret_Ok in Hfirst. injection Hfirst as <- <- _.
      destruct (executeFieldValidator_lookup _ _ _ _ _ _ _ _ Hrun) as [g Hg].
      destruct (executeFieldValidator_shape E fsR n fv fin wR g Hg)
        as (errs & vr & g' & w2 & Hrun' & Hg' & _).
      rewrite Hrun in Hrun'. injection Hrun' as -> _.
      destruct (getNextValidatedField_frame errs vr g'
                  (sanitizeFieldValue E (Config.type (config g)) fv))
        as (Hc & _ & _ & _ & Hcv).
      assert (Hcg : config g' = config g) by by destruct Hg' as [->| ->].
      unfold f1. simpl. rewrite Hc, Hcv, Hcg.
      destruct (errors _); [by split; [right|]|by split; [left|]].
    - apply ret_Ok in Hfirst. injection Hfirst as -> -> _. unfold f1. simpl.
      by split; [left|]. }
  destruct (Hall n f1 (lookupField_setField_eq _ _ _)) as [H2|H2];
    rewrite <- Hsame in H2; eexists; (split; [exact H2|]); [exact H1|].
  by split; [left|].
Qed.

Lemma X25_a_change_leaves_no_stale_clean_value_witness :
  exists formFields' w' f',
    getNextFieldsState strictEnv 1 "contact" (VString "a@b.c") contactForm true true true
      emptyWorld = Ok (formFields', w')
    /\ lookupField formFields' "contact" = Some f'
    /\ rawValue f' = VString "a@b.c"
    /\ cleanValue f' = VUndefined.
Proof.
  assert (H : exists r,
            getNextFieldsState strictEnv 1 "contact" (VString "a@b.c") contactForm true true
              true emptyWorld = Ok r) by (eexists; vm_compute; reflexivity).
  destruct H as ([fs' w'] & H).
  destruct (X25_a_change_leaves_no_stale_clean_value _ _ _ _ _ _ _ _ _ _ _ H)
    as (f' & Hf' & _ & Herr).
  exists fs', w', f'. split; [exact H|]. split; [exact Hf'|].
  vm_compute in H. injection H as <- _. vm_compute in Hf'. injection Hf' as <-.
  by split.
Defined.

(** ** Reading the value of a nested-forms field *)

Lemma childFormsValues_cases (l : list ChildForm) (w : World) :
  (Forall (fun c => childFormValues c <> None) l /\
   exists vs, childFormsValues l w = Ok (vs, w) /\ length vs = length l)
  \/ (Exists (fun c => childFormValues c = None) l /\ childFormsValues l w = Throw).
Proof.
  induction l as [|c l IH]; [left; split; [constructor|by exists []]|].
  simpl. destruct (childFormValues c) as [v|] eqn:Hc.
  - destruct IH as [(Hall & vs & H & Hlen)|(Hex & H)].
    + left. split; [constructor; [by rewrite Hc|done]|].
      exists (v :: vs). rewrite (bind_eq _ _ _ _ _ H). split; [done|]. simpl. by rewrite Hlen.
    + right. split; [by apply Exists_cons_tl|]. unfold mbind, M_bind. by rewrite H.
  - right. split; [by apply Exists_cons_hd|done].
Qed.

(** X26: reading the value of a nested-forms field never changes the world.
    With no child form registered it gives the initial value of the field;
    otherwise it gives one value per registered child form, and it throws
    exactly when some registered child form has no field collection. *)
Theorem X26_child_forms_values_or_throw (formField : Field) (w : World) :
  (childForms formField = None ->
   getChildFormsValues formField w = Ok (initialValue formField, w))
  /\ (forall l, childForms formField = Some l ->
        (getChildFormsValues formField w = Throw
         <-> Exists (fun c => childFormValues c = None) l)
        /\ (Forall (fun c => childFormValues c <> None) l ->
            exists vs,
              getChildFormsValues formField w = Ok (VArray vs, w)
              /\ length vs = length l)).
Proof.
  unfold getChildFormsValues. split; [by intros ->|].
  intros l ->.
  destruct (childFormsValues_cases l w) as [(Hall & vs & H & Hlen)|(Hex & H)].
  - split.
    + rewrite (bind_eq _ _ _ _ _ H). split; [done|].
      intros Hex. apply Exists_exists in Hex as (c & Hc & Hnone).
      rewrite Forall_forall in Hall. by destruct (Hall c Hc).
    + intros _. exists vs. by rewrite (bind_eq _ _ _ _ _ H).
  - split.
    + unfold mbind, M_bind. by rewrite H.
    + intros Hall. apply Exists_exists in Hex as (c & Hc & Hnone).
      rewrite Forall_forall in Hall. by destruct (Hall c Hc).
Qed.

Lemma X26_child_forms_values_or_throw_witness :
  getChildFormsValues itemsField emptyWorld = Throw.
Proof.
  destruct (X26_child_forms_values_or_throw itemsField emptyWorld) as [_ H].
  destruct (H _ eq_refl) as [Hthrow _]. apply Hthrow.
  apply Exists_cons_tl, Exists_cons_hd. reflexivity.
Defined.
